(** * automation_agent.py: the build-fix feedback loop and its advisor

    A shallow embedding of [src/automation_agent.py]:
    - [Str], [Re]: the string and regular-expression operations the program
      applies (Python [str] methods, the three patterns of [_extract_json]
      and the diagnostic pattern of [fix_build_errors]);
    - [ClaudeCoordinator]: the advisor (requests, tolerant JSON extraction,
      deterministic fallbacks);
    - [BuildAutomationGUI]: the publishing step of [run_claude_automation]
      and the loop [monitor_and_fix_with_claude], as a state-passing program
      over an explicit environment.

    Characters are code points below 256 ([ascii]); a Python [str] is a
    [string].  Python integers are [Z]. *)

From Stdlib Require Import ZArith QArith Ascii String List Lia Bool.
From stdpp Require Import base option gmap strings list fin_maps pretty.

Local Open Scope Z_scope.
Local Open Scope stdpp_scope.

(** ** Python [str] operations *)

Module Str.

(** The double quote character, U+0022. *)
Definition dq : string := String "034"%char EmptyString.

(** [s.startswith(p)] *)
Fixpoint startswith (p s : string) : bool :=
  match p, s with
  | EmptyString, _ => true
  | String a p', String b s' => Ascii.eqb a b && startswith p' s'
  | String _ _, EmptyString => false
  end.

(** [p in s] *)
Fixpoint contains (p s : string) : bool :=
  startswith p s ||
  match s with
  | EmptyString => false
  | String _ s' => contains p s'
  end.

(** [s.endswith(suf)] *)
Fixpoint endswith (suf s : string) : bool :=
  String.eqb s suf ||
  match s with
  | EmptyString => false
  | String _ s' => endswith suf s'
  end.

(** [s[:n]] for [n >= 0] *)
Fixpoint slice_to (n : nat) (s : string) : string :=
  match n, s with
  | S n', String c s' => String c (slice_to n' s')
  | _, _ => EmptyString
  end.

(** [s[n:]] for [n >= 0] *)
Fixpoint slice_from (n : nat) (s : string) : string :=
  match n, s with
  | S n', String _ s' => slice_from n' s'
  | _, _ => s
  end.

Fixpoint map_chars (f : ascii -> ascii) (s : string) : string :=
  match s with
  | EmptyString => EmptyString
  | String c s' => String (f c) (map_chars f s')
  end.

(** [c.lower()] on one character: A-Z, and the capital letters of the
    Latin-1 block (U+00C0-U+00DE without the multiplication sign).  On
    the code points below 256 the result is one code point again; beyond
    them [lower] can give two (for U+0130). *)
Definition lower_char (c : ascii) : ascii :=
  let n := nat_of_ascii c in
  if ((65 <=? n)%nat && (n <=? 90)%nat)
     || ((192 <=? n)%nat && (n <=? 222)%nat && negb (n =? 215)%nat)
  then ascii_of_nat (n + 32) else c.

(** [s.lower()] *)
Definition lower : string -> string := map_chars lower_char.

(** [s.replace(a, b)] for one-character [a] and [b] *)
Definition replace_char (a b : ascii) : string -> string :=
  map_chars (fun c => if Ascii.eqb c a then b else c).

(** [sep.join(l)] *)
Fixpoint join (sep : string) (l : list string) : string :=
  match l with
  | [] => EmptyString
  | [x] => x
  | x :: l' => x +:+ sep +:+ join sep l'
  end.

(** The longest prefix of [s] whose characters satisfy [f], and the rest. *)
Fixpoint span (f : ascii -> bool) (s : string) : string * string :=
  match s with
  | EmptyString => (EmptyString, EmptyString)
  | String c s' =>
      if f c then let '(a, b) := span f s' in (String c a, b)
      else (EmptyString, s)
  end.

(** Truthiness of a [str]: the empty string is falsy. *)
Definition nonempty (s : string) : bool :=
  match s with EmptyString => false | String _ _ => true end.

(** Truthiness of [d.get(k)] for a string-valued key: [None] and [''] are
    falsy. *)
Definition truthy (o : option string) : bool :=
  match o with Some s => nonempty s | None => false end.

End Str.

(** ** The regular expressions of the program

    Python's [re] is a backtracking matcher.  Each pattern of the program is
    embedded as the scan that matcher performs on it; the comments say why
    no other backtracking branch can succeed. *)

Module Re.
Import Str.

(** [\s] on a [str] pattern: the characters with [str.isspace()]. *)
Definition is_space (c : ascii) : bool :=
  let n := nat_of_ascii c in
  ((9 <=? n)%nat && (n <=? 13)%nat) || ((28 <=? n)%nat && (n <=? 32)%nat)
  || (n =? 133)%nat || (n =? 160)%nat.

(** [\d]: decimal digits. *)
Definition is_digit (c : ascii) : bool :=
  let n := nat_of_ascii c in (48 <=? n)%nat && (n <=? 57)%nat.

Definition is_ascii_alnum (c : ascii) : bool :=
  let n := nat_of_ascii c in
  ((48 <=? n)%nat && (n <=? 57)%nat) || ((65 <=? n)%nat && (n <=? 90)%nat)
  || ((97 <=? n)%nat && (n <=? 122)%nat).

(** [\w] on a [str] pattern: alphanumerics and the underscore.  Above
    U+007F these are the Latin-1 letters, the ordinal indicators, the
    micro sign, the superscript digits and the vulgar fractions. *)
Definition is_word (c : ascii) : bool :=
  let n := nat_of_ascii c in
  is_ascii_alnum c || (n =? 95)%nat
  || (n =? 170)%nat || (n =? 178)%nat || (n =? 179)%nat || (n =? 181)%nat
  || (n =? 185)%nat || (n =? 186)%nat
  || ((188 <=? n)%nat && (n <=? 190)%nat)
  || ((192 <=? n)%nat && negb (n =? 215)%nat && negb (n =? 247)%nat).

(** The class [[a-zA-Z0-9_/]]. *)
Definition is_path_char (c : ascii) : bool :=
  let n := nat_of_ascii c in
  is_ascii_alnum c || (n =? 95)%nat || (n =? 47)%nat.

(** [\s*], greedy: what is left after the leading white space. *)
Fixpoint drop_ws (s : string) : string :=
  match s with
  | EmptyString => EmptyString
  | String c s' => if is_space c then drop_ws s' else s
  end.

(** Does [\s*```] match at the start of [s]?  A backquote is not white
    space, so [\s*] has to take the whole run of white space. *)
Definition closes (s : string) : bool := startswith "```" (drop_ws s).

(** [(.*?)] followed by [\s*```], with DOTALL: the shortest prefix of [s]
    after which the closing fence matches. *)
Fixpoint lazy_group (s : string) : option string :=
  if closes s then Some EmptyString
  else match s with
       | EmptyString => None
       | String c s' => option_map (String c) (lazy_group s')
       end.

(** [\s*(.*?)\s*```] at the start of [s], returning group 1.  The first
    [\s*] is greedy; giving back white space cannot help, since from a
    position inside that run the closing fence matches only if it matches
    at the end of the run. *)
Definition fenced_body (s : string) : option string := lazy_group (drop_ws s).

(** [re.search(opening + r'\s*(.*?)\s*```', text, re.DOTALL)], group 1 of
    the leftmost match. *)
Fixpoint search_fence (opening text : string) : option string :=
  match
    (if startswith opening text
     then fenced_body (slice_from (String.length opening) text)
     else None)
  with
  | Some g => Some g
  | None =>
      match text with
      | EmptyString => None
      | String _ t' => search_fence opening t'
      end
  end.

(** [.*\}] greedy with DOTALL at the start of [s]: the longest prefix of
    [s] that ends with a closing brace. *)
Fixpoint upto_last_brace (s : string) : option string :=
  match s with
  | EmptyString => None
  | String c s' =>
      match upto_last_brace s' with
      | Some r => Some (String c r)
      | None => if Ascii.eqb c "}"%char then Some (String c EmptyString) else None
      end
  end.

(** [re.search(r'\{.*\}', text, re.DOTALL)], group 0 of the leftmost
    match. *)
Fixpoint search_braces (text : string) : option string :=
  match text with
  | EmptyString => None
  | String c t' =>
      if Ascii.eqb c "{"%char then
        match upto_last_brace t' with
        | Some r => Some (String c r)
        | None => search_braces t'
        end
      else search_braces t'
  end.

(** [([a-zA-Z0-9_/]+\.\w+):\d+:\d+:] at the start of [s]: group 1 and the
    length of the match.  Every quantified class excludes the character
    that has to follow it, so each [+] takes its whole run. *)
Definition match_diagnostic (s : string) : option (string * nat) :=
  let '(path, r1) := span is_path_char s in
  match path, r1 with
  | String _ _, String "."%char r2 =>
      let '(ext, r3) := span is_word r2 in
      match ext, r3 with
      | String _ _, String ":"%char r4 =>
          let '(line, r5) := span is_digit r4 in
          match line, r5 with
          | String _ _, String ":"%char r6 =>
              let '(col, r7) := span is_digit r6 in
              match col, r7 with
              | String _ _, String ":"%char _ =>
                  Some (path +:+ "." +:+ ext,
                        (String.length path + String.length ext
                         + String.length line + String.length col + 4)%nat)
              | _, _ => None
              end
          | _, _ => None
          end
      | _, _ => None
      end
  | _, _ => None
  end.

(** [re.findall(r'([a-zA-Z0-9_/]+\.\w+):\d+:\d+:', s)]: the scan resumes
    at the end of each match; [skip] counts the characters of the current
    match still to pass. *)
Fixpoint findall_go (skip : nat) (s : string) : list string :=
  match s with
  | EmptyString => []
  | String _ s' =>
      match skip with
      | S k => findall_go k s'
      | O =>
          match match_diagnostic s with
          | Some (g, len) => g :: findall_go (Nat.pred len) s'
          | None => findall_go 0 s'
          end
      end
  end.

Definition findall_diagnostics (s : string) : list string := findall_go 0 s.

End Re.

(** ** The advisor: [class ClaudeCoordinator] *)

Module ClaudeCoordinator.
Import Str Re.

Definition nl : string := String "010"%char EmptyString.

(** A Python [Dict[str, str]] whose iteration order matters: the entries
    in insertion order. *)
Abbreviation files_dict := (list (string * string)).

(** [d.get(k)] on such a dictionary. *)
Fixpoint dict_get (k : string) (d : files_dict) : option string :=
  match d with
  | [] => None
  | (k', v) :: d' => if String.eqb k' k then Some v else dict_get k d'
  end.

(** The requirements analysis, a JSON object read with [.get]: an absent
    key is [None]. *)
Record Analysis := {
  dependencies : option (list string);
  cpp_standard : option string;
  source_files : option (list string);
  special_requirements : option string;
  cmake_flags : option (list string)
}.

(** One entry of [code_changes]. *)
Record CodeChange := {
  action : string;
  find : string;
  replace : string;
  line_number : option Z;
  explanation : string
}.

(** The fix result, a JSON object read with [.get]. *)
Record FixResult := {
  diagnosis : option string;
  vcpkg_changes : option string;
  cmake_changes : option string;
  workflow_changes : option string;
  code_changes : option (list (string * CodeChange));
  confidence : option Q;
  requires_code_change : option bool
}.

(** What the three prompts interpolate into their fixed text. *)
Inductive Request :=
| AnalyzeRequest (code_context : string)
| GenerateRequest (project_name : string) (deps : list string)
    (standard : string) (sources : list string) (target_os : list string)
    (special : string)
| FixRequest (attempt : Z) (error_log vcpkg cmake source_context : string).

(** [json.loads], followed by the reading of the object at the three types
    the program uses.  [None] stands for the exception [json.loads]
    raises; a text that parses to something else than an object with
    fields of these types is outside the model. *)
Record Json := {
  loads_analysis : string -> option Analysis;
  loads_files : string -> option (gmap string string);
  loads_fix : string -> option FixResult
}.

(** *** [_extract_json] *)
Definition _extract_json (text : string) : string :=
  match search_fence "```json" text with
  | Some g => g
  | None =>
      match search_fence "```" text with
      | Some g => g
      | None =>
          match search_braces text with
          | Some g => g
          | None => text
          end
      end
  end.

(** *** [_fallback_analysis] *)

(** The body of the [for] loop, with the two accumulators. *)
Fixpoint fallback_scan (files : files_dict)
    (deps : gset string) (srcs : list string) : gset string * list string :=
  match files with
  | [] => (deps, srcs)
  | (filename, content) :: rest =>
      let srcs :=
        if endswith ".cpp" filename || endswith ".cc" filename
        then srcs ++ [filename] else srcs in
      let deps :=
        if contains "#include <boost" content then deps ∪ {["boost"]} else deps in
      let deps :=
        if contains "#include <openssl" content then deps ∪ {["openssl"]} else deps in
      let deps :=
        if contains "#include <curl" content then deps ∪ {["curl"]} else deps in
      let deps :=
        if contains "nlohmann/json" content then deps ∪ {["nlohmann-json"]} else deps in
      fallback_scan rest deps srcs
  end.

(** [list(dependencies)] enumerates a set; the order Python gives is not
    fixed by the program, here it is the order of [elements]. *)
Definition _fallback_analysis (files : files_dict) : Analysis :=
  let '(deps, srcs) := fallback_scan files ∅ [] in
  {| dependencies := Some (elements deps);
     cpp_standard := Some "17";
     source_files := Some srcs;
     special_requirements := Some "";
     cmake_flags := None |}.

(** *** [analyze_code_requirements] *)

Fixpoint code_context_of (files : files_dict) : string :=
  match files with
  | [] => ""
  | (filename, content) :: rest =>
      let truncated :=
        if (2000 <? String.length content)%nat then slice_to 2000 content
        else content in
      "=== " +:+ filename +:+ " ===" +:+ nl +:+ truncated +:+ nl +:+ "..."
      +:+ nl +:+ nl +:+ code_context_of rest
  end.

Definition analyze_request (files : files_dict) : Request :=
  AnalyzeRequest
    ("I have the following C++ project files:" +:+ nl +:+ nl
     +:+ code_context_of files).

(** The [try] block after the request: [response] is [None] when the call
    raised. *)
Definition analyze_response (J : Json) (files : files_dict)
    (response : option string) : Analysis :=
  match response with
  | Some text =>
      match loads_analysis J (_extract_json text) with
      | Some a => a
      | None => _fallback_analysis files
      end
  | None => _fallback_analysis files
  end.

(** *** [_fallback_generation] *)

Definition hex_digit (n : nat) : ascii :=
  if (n <? 10)%nat then ascii_of_nat (48 + n) else ascii_of_nat (87 + n).

(** [json.dumps] of one character of a string, with [ensure_ascii]. *)
Definition json_escape_char (c : ascii) : string :=
  let n := nat_of_ascii c in
  if (n =? 34)%nat then "\" +:+ dq
  else if (n =? 92)%nat then "\\"
  else if (n =? 10)%nat then "\n"
  else if (n =? 13)%nat then "\r"
  else if (n =? 9)%nat then "\t"
  else if (n =? 8)%nat then "\b"
  else if (n =? 12)%nat then "\f"
  else if ((32 <=? n)%nat && (n <=? 126)%nat) then String c ""
  else "\u00" +:+ String (hex_digit (n / 16)) (String (hex_digit (n mod 16)) "").

Fixpoint json_escape (s : string) : string :=
  match s with
  | EmptyString => ""
  | String c s' => json_escape_char c +:+ json_escape s'
  end.

(** [json.dumps(s)] for a string. *)
Definition json_string (s : string) : string := dq +:+ json_escape s +:+ dq.

(** [json.dumps(l, indent=2)] for a list of strings nested one level
    deep. *)
Definition json_list_indent2 (l : list string) : string :=
  match l with
  | [] => "[]"
  | _ =>
      "[" +:+ nl +:+ "    "
      +:+ join ("," +:+ nl +:+ "    ") (map json_string l)
      +:+ nl +:+ "  ]"
  end.

(** [json.dumps(vcpkg, indent=2)] for the dictionary [vcpkg] of
    [_fallback_generation]. *)
Definition dumps_vcpkg (name version : string) (deps : list string) : string :=
  "{" +:+ nl
  +:+ "  " +:+ json_string "name" +:+ ": " +:+ json_string name +:+ "," +:+ nl
  +:+ "  " +:+ json_string "version" +:+ ": " +:+ json_string version +:+ "," +:+ nl
  +:+ "  " +:+ json_string "dependencies" +:+ ": " +:+ json_list_indent2 deps +:+ nl
  +:+ "}".

Definition fallback_workflow : string :=
"name: Build
on: [push, pull_request]
jobs:
  build:
    runs-on: ubuntu-latest
    steps:
    - uses: actions/checkout@v3
    - name: Build
      run: |
        mkdir build && cd build
        cmake .. && make
".

Definition _fallback_generation (project_name : string) (analysis : Analysis)
    (target_os : list string) : gmap string string :=
  let vcpkg :=
    dumps_vcpkg (replace_char " " "-" (lower project_name)) "1.0.0"
      (default [] (dependencies analysis)) in
  let cmake :=
    "cmake_minimum_required(VERSION 3.16)" +:+ nl
    +:+ "project(" +:+ project_name +:+ ")" +:+ nl +:+ nl
    +:+ "set(CMAKE_CXX_STANDARD " +:+ default "17" (cpp_standard analysis) +:+ ")" +:+ nl
    +:+ "set(CMAKE_CXX_STANDARD_REQUIRED ON)" +:+ nl +:+ nl
    +:+ "add_executable(" +:+ project_name +:+ " "
    +:+ join " " (default [] (source_files analysis)) +:+ ")" +:+ nl in
  let workflow := fallback_workflow in
  <["workflow.yml" := workflow]>
    (<["CMakeLists.txt" := cmake]> (<["vcpkg.json" := vcpkg]> ∅)).

(** *** [generate_build_files] *)

Definition generate_request (project_name : string) (analysis : Analysis)
    (target_os : list string) : Request :=
  GenerateRequest project_name
    (default [] (dependencies analysis))
    (default "17" (cpp_standard analysis))
    (default [] (source_files analysis))
    target_os
    (default "None" (special_requirements analysis)).

Definition generate_response (J : Json) (project_name : string)
    (analysis : Analysis) (target_os : list string)
    (response : option string) : gmap string string :=
  match response with
  | Some text =>
      match loads_files J (_extract_json text) with
      | Some d => d
      | None => _fallback_generation project_name analysis target_os
      end
  | None => _fallback_generation project_name analysis target_os
  end.

(** *** [fix_build_errors] *)

(** The loop over [set(error_files[:3])]: one snippet for each of the
    names that is a key of [source_files].  The order in which Python
    iterates over the set is not fixed by the program; here it is the
    order of first occurrence. *)
Fixpoint snippets (names : list string) (source_files : files_dict) : string :=
  match names with
  | [] => ""
  | error_file :: rest =>
      match dict_get error_file source_files with
      | Some content =>
          nl +:+ "=== " +:+ error_file +:+ " (snippet) ===" +:+ nl
          +:+ slice_to 1000 content +:+ nl +:+ "..." +:+ nl
          +:+ snippets rest source_files
      | None => snippets rest source_files
      end
  end.

(** [source_context]; the parameter [source_files] defaults to [None], and
    [None] and the empty dictionary are both falsy. *)
Definition source_context (error_log : string) (attempt : Z)
    (source_files : option files_dict) : string :=
  match source_files with
  | Some ((_ :: _) as files) =>
      if 3 <=? attempt then
        let error_files := findall_diagnostics error_log in
        snippets (remove_dups (take 3 error_files)) files
      else ""
  | _ => ""
  end.

Definition fix_request (error_log : string) (current_files : gmap string string)
    (attempt : Z) (source_files : option files_dict) : Request :=
  FixRequest attempt
    (slice_to 3000 error_log)
    (slice_to 500 (default "N/A" (current_files !! "vcpkg.json")))
    (slice_to 1000 (default "N/A" (current_files !! "CMakeLists.txt")))
    (source_context error_log attempt source_files).

(** The dictionary returned from the [except] branch. *)
Definition fix_failed : FixResult :=
  {| diagnosis := Some "Failed to analyze";
     vcpkg_changes := None; cmake_changes := None; workflow_changes := None;
     code_changes := None; confidence := Some 0%Q;
     requires_code_change := None |}.

Definition fix_response (J : Json) (response : option string) : FixResult :=
  match response with
  | Some text =>
      match loads_fix J (_extract_json text) with
      | Some f => f
      | None => fix_failed
      end
  | None => fix_failed
  end.

End ClaudeCoordinator.

(** ** The repository client: [class GitHubAPI] (its results) *)

Module GitHubAPI.

(** One entry of [get_workflow_runs()]: [run['id']] and
    [run.get('html_url', '')]. *)
Record Run := { id : Z; html_url : string }.

(** The dictionary of [get_run_status]; it is empty when the request
    fails, and [conclusion] is null while a run is not completed. *)
Record RunStatus := {
  status : option string;
  conclusion : option string;
  url : option string
}.

End GitHubAPI.

(** ** The environment and the machine *)

Module Env.
Import ClaudeCoordinator GitHubAPI.

(** Everything outside the worker thread, as answers indexed by the number
    of interactions made so far: the flag [self.automation_running] (the
    presentation thread writes it), the repository service, the advisor's
    service, and the time each interaction takes, in seconds. *)
Record World := {
  automation_running : nat -> bool;
  get_workflow_runs : nat -> list Run;
  get_run_status : nat -> Z -> RunStatus;
  get_run_logs : nat -> Z -> string;
  create_or_update_file : nat -> string -> string -> string -> bool;
  messages_create : nat -> Request -> option string;
  json : Json;
  latency : nat -> nat
}.

(** What the worker does to the outside. *)
Inductive Event :=
| Log (message level : string)
| ClaudeLog (message : string)
| ClaudeLogCodeChange (filename : string) (changes : CodeChange)
| UpdateStatus (message color : string)
| Sleep (seconds : Z)
| GetWorkflowRuns
| GetRunStatus (run_id : Z)
| GetRunLogs (run_id : Z)
| CreateOrUpdateFile (path content message : string)
| MessagesCreate (request : Request).

(** The state of a run: the number of interactions made, the clock in
    seconds, the local variable [attempt], and the events issued so far,
    each stamped with the value [attempt] had when it was issued. *)
Record Machine := {
  tick : nat;
  clock : Z;
  attempt : Z;
  trace : list (Z * Event)
}.

Definition initial : Machine :=
  {| tick := 0; clock := 0; attempt := 0; trace := [] |}.

Definition M (A : Type) : Type := Machine -> A * Machine.

Definition ret {A} (a : A) : M A := fun m => (a, m).

Definition bind {A B} (c : M A) (k : A -> M B) : M B :=
  fun m => let '(a, m1) := c m in k a m1.

Section Primitives.
Variable w : World.

(** An event that needs no answer. *)
Definition emit (e : Event) : M unit := fun m =>
  (tt, {| tick := tick m; clock := clock m; attempt := attempt m;
          trace := trace m ++ [(attempt m, e)] |}).

(** A request to the outside and its answer. *)
Definition interact {A} (e : Event) (answer : nat -> A) : M A := fun m =>
  (answer (tick m),
   {| tick := S (tick m);
      clock := clock m + Z.of_nat (latency w (tick m));
      attempt := attempt m;
      trace := trace m ++ [(attempt m, e)] |}).

(** [time.sleep(seconds)] *)
Definition sleep (seconds : Z) : M unit := fun m =>
  (tt, {| tick := S (tick m);
          clock := clock m + seconds + Z.of_nat (latency w (tick m));
          attempt := attempt m;
          trace := trace m ++ [(attempt m, Sleep seconds)] |}).

(** [time.time()] *)
Definition time : M Z := fun m => (clock m, m).

(** A read of [self.automation_running]. *)
Definition running : M bool := fun m =>
  (automation_running w (tick m),
   {| tick := S (tick m); clock := clock m; attempt := attempt m;
      trace := trace m |}).

Definition get_attempt : M Z := fun m => (attempt m, m).

Definition set_attempt (a : Z) : M unit := fun m =>
  (tt, {| tick := tick m; clock := clock m; attempt := a;
          trace := trace m |}).

End Primitives.

End Env.

Notation "'let*' x ':=' c 'in' k" := (Env.bind c (fun x => k))
  (at level 10, x pattern, c at level 200, k at level 200).
Notation "c ';;;' k" := (Env.bind c (fun _ => k))
  (at level 100, k at level 200, right associativity).

(** ** The worker: [class BuildAutomationGUI] *)

Module BuildAutomationGUI.
Import Str ClaudeCoordinator GitHubAPI Env.

(** [config.json], read with [.get]. *)
Record Config := {
  target_os : list string;
  max_fix_attempts : option Z;
  github_timeout : option Z
}.

(** The [break] statements of [monitor_and_fix_with_claude], in the order
    of the source, and the return of the loop through its condition. *)
Inductive Exit :=
| StoppedByUser
| BuildSucceeded
| LowConfidence
| NoFixApplied
| ConditionFalse.

(** How one pass through the body of the [while] loop ends: at its end or
    at a [continue], or at a [break]. *)
Inductive Control :=
| Continue
| Break (why : Exit).

(** [d.get(k) == s] *)
Definition get_is (o : option string) (s : string) : bool :=
  match o with Some x => String.eqb x s | None => false end.

(** [fixes.get('confidence', 0) < 0.3] *)
Definition low_confidence (fixes : FixResult) : bool :=
  negb (Qle_bool (3 # 10) (default 0%Q (confidence fixes))).

(** Truthiness of [fixes.get('code_changes')]: an absent key and the empty
    dictionary are falsy. *)
Definition has_code_changes (fixes : FixResult) : bool :=
  match code_changes fixes with Some (_ :: _) => true | _ => false end.

Definition success_msg (cfg : Config) (attempt : Z) : string :=
  nl +:+ "Build Automation Complete!" +:+ nl
  +:+ "All builds passed" +:+ nl
  +:+ "Artifacts available on GitHub" +:+ nl
  +:+ "Target OS: " +:+ join ", " (target_os cfg) +:+ nl
  +:+ "Attempts needed: " +:+ pretty attempt +:+ nl.

Definition summary (attempt max_attempts : Z) : string :=
  nl +:+ "Build Automation Summary" +:+ nl
  +:+ "Build did not succeed" +:+ nl
  +:+ "Attempts made: " +:+ pretty attempt +:+ "/" +:+ pretty max_attempts +:+ nl
  +:+ "Fixes applied: Multiple" +:+ nl
  +:+ "Manual review recommended" +:+ nl +:+ nl
  +:+ "Please check the GitHub Actions logs for detailed error information." +:+ nl
  +:+ "You may need to manually adjust the code or build configuration." +:+ nl.

Section Worker.
Variable w : World.

Definition log (message level : string) : M unit := emit (Log message level).
Definition claude_log (message : string) : M unit := emit (ClaudeLog message).
Definition update_status (message color : string) : M unit :=
  emit (UpdateStatus message color).

Definition github_get_workflow_runs : M (list Run) :=
  interact w GetWorkflowRuns (get_workflow_runs w).
Definition github_get_run_status (run_id : Z) : M RunStatus :=
  interact w (GetRunStatus run_id) (fun n => get_run_status w n run_id).
Definition github_get_run_logs (run_id : Z) : M string :=
  interact w (GetRunLogs run_id) (fun n => get_run_logs w n run_id).
Definition github_create_or_update_file (path content message : string) : M bool :=
  interact w (CreateOrUpdateFile path content message)
    (fun n => create_or_update_file w n path content message).

(** The advisor's three operations: one request each, then the [try]
    block's reading of the response. *)
Definition claude_analyze_code_requirements (files : files_dict) : M Analysis :=
  let* response :=
    interact w (MessagesCreate (analyze_request files))
      (fun n => messages_create w n (analyze_request files)) in
  ret (analyze_response (json w) files response).

Definition claude_generate_build_files (project_name : string)
    (analysis : Analysis) (target : list string) : M (gmap string string) :=
  let request := generate_request project_name analysis target in
  let* response :=
    interact w (MessagesCreate request) (fun n => messages_create w n request) in
  ret (generate_response (json w) project_name analysis target response).

Definition claude_fix_build_errors (error_log : string)
    (current_files : gmap string string) (attempt : Z)
    (source_files : option files_dict) : M FixResult :=
  let request := fix_request error_log current_files attempt source_files in
  let* response :=
    interact w (MessagesCreate request) (fun n => messages_create w n request) in
  ret (fix_response (json w) response).

(** *** [run_claude_automation], step 4: the first publication *)

Fixpoint publish (entries : list (string * option string))
    (current_files : gmap string string) : M (gmap string string) :=
  match entries with
  | [] => ret current_files
  | (filename, content) :: rest =>
      match content with
      | Some (String _ _ as content) =>
          let* ok :=
            github_create_or_update_file filename content
              ("Claude: Add/Update " +:+ filename) in
          if ok : bool then
            log ("Created " +:+ filename) "INFO" ;;;
            publish rest (<[filename := content]> current_files)
          else
            log ("Failed to create " +:+ filename) "ERROR" ;;;
            publish rest current_files
      | _ => publish rest current_files
      end
  end.

Definition publish_build_files (build_files : gmap string string)
    : M (gmap string string) :=
  publish
    [("vcpkg.json", build_files !! "vcpkg.json");
     ("CMakeLists.txt", build_files !! "CMakeLists.txt");
     (".github/workflows/build.yml", build_files !! "workflow.yml")]
    ∅.

(** *** [monitor_and_fix_with_claude] *)

(** The inner [while self.automation_running] loop that waits for the
    run to complete.  [None]: the fuel ran out. *)
Fixpoint wait_for_completion (fuel : nat) (timeout run_id start_time : Z)
    : M (option unit) :=
  match fuel with
  | O => ret None
  | S fuel' =>
      let* r := running w in
      if negb r then ret (Some tt) else
      let* now := time in
      if timeout <? now - start_time then
        log "Build timeout reached" "WARNING" ;;; ret (Some tt)
      else
        let* st := github_get_run_status run_id in
        if get_is (status st) "completed" then ret (Some tt) else
        let* now := time in
        update_status
          ("Build running... (" +:+ pretty (now - start_time) +:+ "s)") "blue" ;;;
        sleep w 10 ;;;
        wait_for_completion fuel' timeout run_id start_time
  end.

(** One of the three blocks "Update ... if needed": [key] is the key of
    [current_files] the block assigns, [path] the path it writes. *)
Definition update_if_needed (changes : option string)
    (announce path key message : string)
    (st : gmap string string * bool) : M (gmap string string * bool) :=
  match changes with
  | Some (String _ _ as content) =>
      log announce "INFO" ;;;
      let* ok := github_create_or_update_file path content message in
      if ok : bool then ret (<[key := content]> st.1, true) else ret st
  | _ => ret st
  end.

Fixpoint log_code_changes (changes : list (string * CodeChange)) : M unit :=
  match changes with
  | [] => ret tt
  | (filename, c) :: rest =>
      emit (ClaudeLogCodeChange filename c) ;;; log_code_changes rest
  end.

(** The three blocks "Update vcpkg.json / CMakeLists.txt / workflow if
        needed": the pair of [current_files] and [files_updated]. *)
Definition update_build_files (fixes : FixResult) (attempt : Z)
    (current_files : gmap string string) : M (gmap string string * bool) :=
  let* st :=
    update_if_needed (vcpkg_changes fixes) "Updating vcpkg.json..."
      "vcpkg.json" "vcpkg.json"
      ("Claude fix " +:+ pretty attempt +:+ ": Update dependencies")
      (current_files, false) in
  let* st :=
    update_if_needed (cmake_changes fixes) "Updating CMakeLists.txt..."
      "CMakeLists.txt" "CMakeLists.txt"
      ("Claude fix " +:+ pretty attempt +:+ ": Update CMake configuration")
      st in
  update_if_needed (workflow_changes fixes) "Updating workflow..."
    ".github/workflows/build.yml" "workflow.yml"
    ("Claude fix " +:+ pretty attempt +:+ ": Update workflow")
    st.

(** From "Apply code changes if absolutely necessary" to the end of the
    failure branch. *)
Definition conclude_round (max_attempts attempt : Z) (fixes : FixResult)
    (st : gmap string string * bool) : M (Control * gmap string string) :=
  let '(current_files, files_updated) := st in
  (if has_code_changes fixes && (attempt =? max_attempts - 1)
   then log "Claude suggests code changes:" "WARNING" ;;;
        log_code_changes (default [] (code_changes fixes))
   else ret tt) ;;;
  if negb files_updated then
    log "No fixes could be applied" "WARNING" ;;;
    if max_attempts - 1 <=? attempt
    then ret (Break NoFixApplied, current_files)
    else claude_log "Waiting for next build attempt..." ;;;
         sleep w 5 ;;; ret (Continue, current_files)
  else
    claude_log "Waiting for next build attempt..." ;;;
    sleep w 5 ;;; ret (Continue, current_files).

(** From "Apply Claude's fixes" to the end of the failure branch. *)
Definition apply_fixes (max_attempts : Z) (fixes : FixResult)
    (current_files : gmap string string)
    : M (Control * gmap string string) :=
  let* attempt := get_attempt in
  log "Applying Claude's fixes..." "INFO" ;;;
  claude_log ("Applying fixes: " +:+ default "" (diagnosis fixes)) ;;;
  let* st := update_build_files fixes attempt current_files in
  conclude_round max_attempts attempt fixes st.

(** The branch for the conclusions [failure] and [cancelled]. *)
Definition remediate (max_attempts run_id : Z)
    (current_files : gmap string string)
    : M (Control * gmap string string) :=
  let* attempt := get_attempt in
  log "Build failed. Claude is analyzing errors..." "WARNING" ;;;
  claude_log "Build failed. Analyzing error logs..." ;;;
  let* error_log := github_get_run_logs run_id in
  if negb (nonempty error_log) then
    log "Could not retrieve error logs" "ERROR" ;;;
    ret (Continue, current_files)
  else
    claude_log "Diagnosing build errors and generating fixes..." ;;;
    let* fixes := claude_fix_build_errors error_log current_files attempt None in
    if low_confidence fixes then
      log "Claude has low confidence in fixes" "WARNING" ;;;
      claude_log ("Diagnosis: " +:+ default "Unknown" (diagnosis fixes)) ;;;
      claude_log "Manual intervention may be required" ;;;
      if max_attempts - 1 <=? attempt
      then ret (Break LowConfidence, current_files)
      else apply_fixes max_attempts fixes current_files
    else apply_fixes max_attempts fixes current_files.

(** The body of the outer loop from [latest_run = runs[0]] on.  [None]:
    the fuel of the inner loop ran out. *)
Definition monitor_run (fuel : nat) (cfg : Config) (max_attempts attempt : Z)
    (current_files : gmap string string) (latest_run : Run)
    : M (option (Control * gmap string string)) :=
  let run_id := id latest_run in
  let run_url := html_url latest_run in
  log ("Monitoring workflow run: " +:+ pretty run_id) "INFO" ;;;
  (if nonempty run_url
   then log ("View on GitHub: " +:+ run_url) "INFO" else ret tt) ;;;
  let* start_time := time in
  let timeout := default 300 (github_timeout cfg) in
  let* waited := wait_for_completion fuel timeout run_id start_time in
  match waited with
  | None => ret None
  | Some _ =>
      let* r := running w in
      if negb r then ret (Some (Break StoppedByUser, current_files)) else
      let* st := github_get_run_status run_id in
      if get_is (conclusion st) "success" then
        log "Build succeeded!" "SUCCESS" ;;;
        claude_log "Build successful! All targets compiled successfully." ;;;
        update_status "Build successful!" "green" ;;;
        claude_log (success_msg cfg attempt) ;;;
        ret (Some (Break BuildSucceeded, current_files))
      else if get_is (conclusion st) "failure"
              || get_is (conclusion st) "cancelled" then
        let* r := remediate max_attempts run_id current_files in
        ret (Some r)
      else
        log ("Unknown build status: " +:+ default "None" (conclusion st))
          "WARNING" ;;;
        ret (Some (Continue, current_files))
  end.

(** The body of the outer [while] loop. *)
Definition iteration (fuel : nat) (cfg : Config) (max_attempts : Z)
    (current_files : gmap string string)
    : M (option (Control * gmap string string)) :=
  let* a := get_attempt in
  set_attempt (a + 1) ;;;
  let* attempt := get_attempt in
  log ("Build attempt " +:+ pretty attempt +:+ "/" +:+ pretty max_attempts) "INFO" ;;;
  claude_log ("Monitoring build attempt " +:+ pretty attempt +:+ "...") ;;;
  update_status
    ("Waiting for GitHub Actions (attempt " +:+ pretty attempt +:+ ")...") "blue" ;;;
  sleep w 15 ;;;
  let* runs := github_get_workflow_runs in
  match runs with
  | [] =>
      log "No workflow runs found, waiting..." "WARNING" ;;;
      sleep w 10 ;;;
      ret (Some (Continue, current_files))
  | latest_run :: _ =>
      monitor_run fuel cfg max_attempts attempt current_files latest_run
  end.

(** The outer [while attempt < max_attempts and self.automation_running];
    [rounds] bounds its passes and [fuel] those of the inner loop.
    [None]: one of the two ran out. *)
Fixpoint fix_loop (rounds fuel : nat) (cfg : Config) (max_attempts : Z)
    (current_files : gmap string string)
    : M (option (Exit * gmap string string)) :=
  match rounds with
  | O => ret None
  | S rounds' =>
      let* attempt := get_attempt in
      if negb (attempt <? max_attempts) then ret (Some (ConditionFalse, current_files)) else
      let* r := running w in
      if negb r then ret (Some (ConditionFalse, current_files)) else
      let* res := iteration fuel cfg max_attempts current_files in
      match res with
      | None => ret None
      | Some (Break why, files) => ret (Some (why, files))
      | Some (Continue, files) => fix_loop rounds' fuel cfg max_attempts files
      end
  end.

(** [fuel] bounds the passes of each of the two loops. *)
Definition monitor_and_fix_with_claude (fuel : nat) (cfg : Config)
    (current_files : gmap string string)
    : M (option (Exit * gmap string string)) :=
  let max_attempts := default 5 (max_fix_attempts cfg) in
  set_attempt 0 ;;;
  let* res := fix_loop fuel fuel cfg max_attempts current_files in
  match res with
  | None => ret None
  | Some r =>
      let* attempt := get_attempt in
      (if max_attempts <=? attempt then
         log ("Max attempts (" +:+ pretty max_attempts +:+ ") reached") "ERROR" ;;;
         claude_log "Maximum fix attempts reached. Manual intervention may be required." ;;;
         update_status "Build failed - manual intervention needed" "red" ;;;
         claude_log (summary attempt max_attempts)
       else ret tt) ;;;
      ret (Some r)
  end.

(** *** [run_claude_automation], steps 2 to 5 *)
Definition run_claude_automation (fuel : nat) (cfg : Config)
    (project_name : string) (source_files : files_dict)
    : M (option (Exit * gmap string string)) :=
  log "Step 2: Claude is analyzing code requirements..." "INFO" ;;;
  let* analysis := claude_analyze_code_requirements source_files in
  claude_log ("Detected dependencies: "
              +:+ join ", " (default [] (dependencies analysis))) ;;;
  claude_log ("C++ Standard: " +:+ default "17" (cpp_standard analysis)) ;;;
  claude_log ("Special requirements: "
              +:+ default "None" (special_requirements analysis)) ;;;
  log "Step 3: Claude is generating optimized build files..." "INFO" ;;;
  claude_log "Generating vcpkg.json, CMakeLists.txt, and GitHub Actions workflow..." ;;;
  let* build_files :=
    claude_generate_build_files project_name analysis (target_os cfg) in
  log "Step 4: Pushing build files to repository..." "INFO" ;;;
  let* current_files := publish_build_files build_files in
  claude_log "Build files created and pushed to repository" ;;;
  log "Step 5: Monitoring builds and applying Claude's fixes..." "INFO" ;;;
  monitor_and_fix_with_claude fuel cfg current_files.

End Worker.

End BuildAutomationGUI.

(** ** Vocabulary of the specification *)

Module Spec.
Import Str Re ClaudeCoordinator.

(** The heuristic the specification describes for the fallback analysis:
    a dependency is named when one of the four patterns occurs in the
    content of some file. *)
Definition file_suggests (content d : string) : Prop :=
  (d = "boost" ∧ contains "#include <boost" content = true)
  ∨ (d = "openssl" ∧ contains "#include <openssl" content = true)
  ∨ (d = "curl" ∧ contains "#include <curl" content = true)
  ∨ (d = "nlohmann-json" ∧ contains "nlohmann/json" content = true).

Definition heuristic_dependency (files : files_dict) (d : string) : Prop :=
  ∃ filename content, (filename, content) ∈ files ∧ file_suggests content d.

(** The text of a JSON object: it opens with a brace and closes with
    one. *)
Definition object_text (s : string) : bool :=
  startswith "{" s && endswith "}" s.

(** The tails of a payload: they end with a closing brace and hold no
    fence. *)
Definition tail_ok (s : string) : Prop :=
  endswith "}" s = true ∧ contains "```" s = false.

(** What [json.loads] needs at least to return an object: the first
    character after the leading white space is an opening brace and the
    last one before the trailing white space a closing brace. *)
Definition json_object_shape (s : string) : bool :=
  startswith "{" (drop_ws s) && startswith "}" (drop_ws (String.rev s)).

Fixpoint all_space (s : string) : bool :=
  match s with
  | EmptyString => true
  | String c s' => is_space c && all_space s'
  end.

(** A response that wraps [payload] in a fenced block: the opening fence
    with its label, white space, the payload, white space, the closing
    fence. *)
Definition fenced (label w1 payload w2 : string) : string :=
  "```" +:+ label +:+ w1 +:+ payload +:+ w2 +:+ "```".

(** The project name as [_fallback_generation] writes it into the
    manifest. *)
Definition manifest_name (project_name : string) : string :=
  replace_char " " "-" (lower project_name).

(** A JSON object whose one string value holds a fence of three
    backquotes. *)
Definition backquote_payload : string :=
  "{" +:+ dq +:+ "a" +:+ dq +:+ ": " +:+ dq +:+ "```" +:+ dq +:+ "}".

(** A parser that rejects every text. *)
Definition rejecting_json : Json :=
  {| loads_analysis := fun _ => None;
     loads_files := fun _ => None;
     loads_fix := fun _ => None |}.

Definition curl_main : string :=
"#include <curl/curl.h>
int main() { return 0; }
".

End Spec.


(** ** Vocabulary of the loop *)

Module LoopSpec.
Import Str ClaudeCoordinator GitHubAPI Env BuildAutomationGUI.

(** The three paths the worker writes build files to. *)
Definition build_file_paths : list string :=
  ["vcpkg.json"; "CMakeLists.txt"; ".github/workflows/build.yml"].

(** The values of [attempt] at the run-discovery queries of a trace, in
    order. *)
Fixpoint discovery_stamps (t : list (Z * Event)) : list Z :=
  match t with
  | [] => []
  | (a, GetWorkflowRuns) :: t' => a :: discovery_stamps t'
  | _ :: t' => discovery_stamps t'
  end.

(** The requests to the advisor in a trace, each with the value of
    [attempt] at which it was made. *)
Fixpoint advisor_requests (t : list (Z * Event)) : list (Z * Request) :=
  match t with
  | [] => []
  | (a, MessagesCreate r) :: t' => (a, r) :: advisor_requests t'
  | _ :: t' => advisor_requests t'
  end.

(** The source context a fix request carries. *)
Definition request_context (r : Request) : option string :=
  match r with
  | FixRequest _ _ _ _ ctx => Some ctx
  | _ => None
  end.

(** Logging, status display, sleeping and polling the status of a run. *)
Definition benign (e : Event) : Prop :=
  match e with
  | Log _ _ | ClaudeLog _ | UpdateStatus _ _ | Sleep _ | GetRunStatus _ => True
  | _ => False
  end.

(** The events of one pass of the loop after its run-discovery query, at
    the value [a] of [attempt]: a write goes to one of the three build
    file paths, a code change is shown only one attempt before the last,
    a request to the advisor is a fix request without source context. *)
Definition round_event (max_attempts a : Z) (e : Event) : Prop :=
  match e with
  | GetWorkflowRuns => False
  | CreateOrUpdateFile path _ _ => In path build_file_paths
  | ClaudeLogCodeChange _ _ => a = max_attempts - 1
  | MessagesCreate r => request_context r = Some ""
  | _ => True
  end.

(** The events of the loop. *)
Definition loop_event (max_attempts a : Z) (e : Event) : Prop :=
  match e with
  | GetWorkflowRuns => True
  | _ => round_event max_attempts a e
  end.

(** [m'] continues [m] at the same value of [attempt], by events that all
    satisfy [G] and carry that value as their stamp. *)
Definition extends (G : Z → Event → Prop) (m m' : Machine) : Prop :=
  attempt m' = attempt m
  ∧ ∃ evs, trace m' = trace m ++ evs
           ∧ Forall (λ se, se.1 = attempt m ∧ G se.1 se.2) evs.

(** A computation started at the value [a] of [attempt] only issues
    events that satisfy [G], and leaves [attempt] as it is. *)
Definition keeps_at {A} (G : Z → Event → Prop) (a : Z) (c : M A) : Prop :=
  ∀ m, attempt m = a → extends G m (c m).2.

(** The two warnings of the failure branch: that no fix could be applied
    in this pass ([files_updated] is false), and that the advisor has low
    confidence in its fixes. *)
Definition gives_up_warning (e : Event) : bool :=
  match e with
  | Log message _ =>
      String.eqb message "No fixes could be applied"
      || String.eqb message "Claude has low confidence in fixes"
  | _ => false
  end.


(** The result of a computation satisfies [P], from every machine. *)
Definition yields {A} (P : A → Prop) (c : M A) : Prop := ∀ m, P (c m).1.

(** The machine after the first lines of a pass of the loop, up to and
    with its run-discovery query. *)
Definition after_discovery (w : World) (max_attempts : Z) (m : Machine)
    : Machine :=
  let a := attempt m + 1 in
  {| tick := S (S (tick m));
     clock := clock m + 15 + Z.of_nat (latency w (tick m))
              + Z.of_nat (latency w (S (tick m)));
     attempt := a;
     trace :=
       trace m ++
       [(a, Log ("Build attempt " +:+ pretty a +:+ "/" +:+ pretty max_attempts) "INFO");
        (a, ClaudeLog ("Monitoring build attempt " +:+ pretty a +:+ "..."));
        (a, UpdateStatus
              ("Waiting for GitHub Actions (attempt " +:+ pretty a +:+ ")...") "blue");
        (a, Sleep 15);
        (a, GetWorkflowRuns)] |}.

(** [m'] continues [m] by passes of the loop: [attempt] has grown by one
    for each run-discovery query, and the events are those of the loop,
    stamped with the values [attempt] went through. *)
Definition loop_extends (max_attempts : Z) (m m' : Machine) : Prop :=
  attempt m ≤ attempt m'
  ∧ ∃ evs, trace m' = trace m ++ evs
           ∧ Forall (λ se, attempt m ≤ se.1 ≤ attempt m'
                           ∧ loop_event max_attempts se.1 se.2) evs
           ∧ discovery_stamps evs
             = seqZ (attempt m + 1) (attempt m' - attempt m).

(** The machine after one read of [self.automation_running]. *)
Definition ticked (m : Machine) : Machine :=
  {| tick := S (tick m); clock := clock m; attempt := attempt m;
     trace := trace m |}.

(** The machine after [attempt = 0]. *)
Definition restarted (m : Machine) : Machine :=
  {| tick := tick m; clock := clock m; attempt := 0; trace := trace m |}.

(** How a pass that reached the failure branch can end. *)
Definition round_control (c : Control) : Prop :=
  c = Continue ∨ c = Break LowConfidence ∨ c = Break NoFixApplied.

(** How a pass can end when its inner loop returns: as the failure branch
    does, with success, or stopped; not stopped when the flag
    [self.automation_running] is never cleared. *)
Definition pass_result (w : World)
    (r : option (Control * gmap string string)) : Prop :=
  ∃ c files, r = Some (c, files)
    ∧ (round_control c ∨ c = Break BuildSucceeded ∨ c = Break StoppedByUser)
    ∧ ((∀ n, automation_running w n = true) → c ≠ Break StoppedByUser).

(** The terminal states of the specification's state machine. *)
Inductive Terminal := Success | Exhausted | Stopped.

(** [Exhausted] is the end of the loop without success: through its
    condition once [attempt] has reached the maximum, or early through
    one of the two [break]s of the failure branch. *)
Definition terminal (max_attempts attempt : Z) (e : Exit) : Terminal :=
  match e with
  | BuildSucceeded => Success
  | LowConfidence | NoFixApplied => Exhausted
  | StoppedByUser => Stopped
  | ConditionFalse => if max_attempts <=? attempt then Exhausted else Stopped
  end.

(** Fuel that suffices: more passes than [max_attempts], and more polls
    than a tenth of the timeout, each poll sleeping ten seconds. *)
Definition enough_fuel (cfg : Config) (fuel : nat) : Prop :=
  0 < Z.of_nat fuel
  ∧ default 5 (max_fix_attempts cfg) < Z.of_nat fuel
  ∧ default 300 (github_timeout cfg) < 10 * (Z.of_nat fuel - 1).

(** [fixes] with another [code_changes] payload. *)
Definition with_code_changes (fixes : FixResult)
    (cc : option (list (string * CodeChange))) : FixResult :=
  {| diagnosis := diagnosis fixes;
     vcpkg_changes := vcpkg_changes fixes;
     cmake_changes := cmake_changes fixes;
     workflow_changes := workflow_changes fixes;
     code_changes := cc;
     confidence := confidence fixes;
     requires_code_change := requires_code_change fixes |}.

End LoopSpec.

(** ** Scenarios *)

Module Scenarios.
Import Str ClaudeCoordinator GitHubAPI Env BuildAutomationGUI.

Definition no_fix : FixResult :=
  {| diagnosis := Some "nothing to change";
     vcpkg_changes := None; cmake_changes := None; workflow_changes := None;
     code_changes := None; confidence := Some (1 # 10)%Q;
     requires_code_change := None |}.

Definition workflow_fix : FixResult :=
  {| diagnosis := Some "wrong runner";
     vcpkg_changes := None; cmake_changes := None;
     workflow_changes := Some "name: Build (fixed)";
     code_changes := None; confidence := Some (8 # 10)%Q;
     requires_code_change := None |}.

Definition cmake_fix_unsure : FixResult :=
  {| diagnosis := Some "missing target";
     vcpkg_changes := None;
     cmake_changes := Some "cmake_minimum_required(VERSION 3.20)";
     workflow_changes := None;
     code_changes := None; confidence := Some (1 # 10)%Q;
     requires_code_change := None |}.

(** A parser that knows three texts. *)
Definition scenario_json : Json :=
  {| loads_analysis := fun _ => None;
     loads_files := fun _ => None;
     loads_fix := fun s =>
       if String.eqb s "{workflow}" then Some workflow_fix
       else if String.eqb s "{cmake}" then Some cmake_fix_unsure
       else if String.eqb s "{}" then Some no_fix
       else None |}.

Definition the_run : Run := {| id := 7; html_url := "https://github.com/o/r/actions/runs/7" |}.

Definition failed : RunStatus :=
  {| status := Some "completed"; conclusion := Some "failure"; url := None |}.

Definition succeeded : RunStatus :=
  {| status := Some "completed"; conclusion := Some "success"; url := None |}.

Definition in_progress : RunStatus :=
  {| status := Some "in_progress"; conclusion := None; url := None |}.

Definition compiler_log : string := "src/main.cpp:3:10: fatal error: curl/curl.h: No such file".

Definition sources : files_dict := [("src/main.cpp", Spec.curl_main)].

(** Every build fails; the advisor answers every fix request with a new
    workflow, in a fenced block; every write succeeds. *)
Definition failing_world : World :=
  {| automation_running := fun _ => true;
     get_workflow_runs := fun _ => [the_run];
     get_run_status := fun _ _ => failed;
     get_run_logs := fun _ _ => compiler_log;
     create_or_update_file := fun _ _ _ _ => true;
     messages_create := fun _ r =>
       match r with
       | FixRequest _ _ _ _ _ => Some ("```json" +:+ nl +:+ "{workflow}" +:+ nl +:+ "```")
       | _ => None
       end;
     json := scenario_json;
     latency := fun _ => 1%nat |}.

(** No run is listed at first; the run listed later succeeds. *)
Definition late_world : World :=
  {| automation_running := fun _ => true;
     get_workflow_runs := fun n => if (n <? 4)%nat then [] else [the_run];
     get_run_status := fun _ _ => succeeded;
     get_run_logs := fun _ _ => "";
     create_or_update_file := fun _ _ _ _ => true;
     messages_create := fun _ _ => None;
     json := scenario_json;
     latency := fun _ => 0%nat |}.

(** The run never completes. *)
Definition hanging_world : World :=
  {| automation_running := fun _ => true;
     get_workflow_runs := fun _ => [the_run];
     get_run_status := fun _ _ => in_progress;
     get_run_logs := fun _ _ => compiler_log;
     create_or_update_file := fun _ _ _ _ => true;
     messages_create := fun _ _ => Some "{workflow}";
     json := scenario_json;
     latency := fun _ => 0%nat |}.


Definition config (max_attempts timeout : Z) : Config :=
  {| target_os := ["ubuntu"; "windows"; "macos"];
     max_fix_attempts := Some max_attempts;
     github_timeout := Some timeout |}.

Definition default_config : Config :=
  {| target_os := ["ubuntu"; "windows"; "macos"];
     max_fix_attempts := None;
     github_timeout := None |}.

(** The build files as first published: the three paths. *)
Definition published : gmap string string :=
  <[".github/workflows/build.yml" := fallback_workflow]>
    (<["CMakeLists.txt" := "cmake_minimum_required(VERSION 3.16)"]>
       (<["vcpkg.json" := "{}"]> ∅)).

(** The exit and the build files a run of the loop returns. *)
Definition final_exit (r : option (Exit * gmap string string) * Machine)
    : option Exit :=
  fst <$> r.1.

Definition final_files (r : option (Exit * gmap string string) * Machine)
    : gmap string string :=
  default ∅ (snd <$> r.1).

(** The stamps of a trace. *)
Definition stamps (t : list (Z * Event)) : list Z := map fst t.

(** The writes of a trace: stamp and path. *)
Fixpoint writes (t : list (Z * Event)) : list (Z * string) :=
  match t with
  | [] => []
  | (a, CreateOrUpdateFile path _ _) :: t' => (a, path) :: writes t'
  | _ :: t' => writes t'
  end.

Definition is_remediation (e : Event) : bool :=
  match e with
  | GetRunLogs _ | MessagesCreate _ | CreateOrUpdateFile _ _ _ => true
  | _ => false
  end.

Definition remediation_events (t : list (Z * Event)) : list (Z * Event) :=
  filter (λ se, is_remediation se.2 = true) t.

End Scenarios.


(** ** What a run of the loop costs and what it leaves alone *)

Module LoopMore.
Import Str ClaudeCoordinator GitHubAPI Env BuildAutomationGUI LoopSpec Scenarios.

Definition is_request (e : Event) : bool :=
  match e with MessagesCreate _ => true | _ => false end.

Definition is_write (e : Event) : bool :=
  match e with CreateOrUpdateFile _ _ _ => true | _ => false end.

Definition is_log_fetch (e : Event) : bool :=
  match e with GetRunLogs _ => true | _ => false end.

Definition cost (f : Event → bool) (e : Event) : nat :=
  if f e then 1%nat else 0%nat.

(** The number of events of a trace that [f] selects. *)
Fixpoint count (f : Event → bool) (t : list (Z * Event)) : nat :=
  match t with
  | [] => 0%nat
  | se :: t' => (cost f se.2 + count f t')%nat
  end.

(** The number of events of a trace that [f] selects among those stamped
    with the value [a] of [attempt]. *)
Fixpoint count_at (f : Event → bool) (a : Z) (t : list (Z * Event)) : nat :=
  match t with
  | [] => 0%nat
  | se :: t' =>
      Nat.add (if se.1 =? a then cost f se.2 else 0%nat) (count_at f a t')
  end.

(** A computation issues at most [n] events that [f] selects. *)
Definition spends {A} (f : Event → bool) (n : nat) (c : M A) : Prop :=
  ∀ m, (count f (trace (c m).2) ≤ count f (trace m) + n)%nat.

(** The events other than the three requests of the failure branch: for
    the log of the run, to the advisor, and to write a file. *)
Definition free (e : Event) : Prop :=
  match e with
  | GetRunLogs _ | MessagesCreate _ | CreateOrUpdateFile _ _ _ => False
  | _ => True
  end.

(** [f] selects none of the free events. *)
Definition failure_branch_only (f : Event → bool) : Prop :=
  ∀ e, free e → f e = false.

Definition is_poll (e : Event) : bool :=
  match e with GetRunStatus _ => true | _ => false end.

(** The events that are no request to the repository or to the advisor,
    the run-discovery query apart. *)
Definition quiet (e : Event) : Prop :=
  match e with
  | GetRunStatus _ | GetRunLogs _ | MessagesCreate _
  | CreateOrUpdateFile _ _ _ => False
  | _ => True
  end.

(** [f] selects none of the quiet events. *)
Definition requests_only (f : Event → bool) : Prop :=
  ∀ e, quiet e → f e = false.

(** The most status requests one attempt makes: one for every ten
    seconds of the timeout, one more at its start, and the one after the
    polling loop. *)
Definition polls_per_attempt (cfg : Config) : Z :=
  Z.max 0 (default 300 (github_timeout cfg) + 10) / 10 + 1.

(** The keys of [current_files] the loop assigns. *)
Definition assigned_keys : list string :=
  ["vcpkg.json"; "CMakeLists.txt"; "workflow.yml"].

(** [files'] has every key of [files], and differs from it at most at the
    keys the loop assigns. *)
Definition grows_from (files files' : gmap string string) : Prop :=
  (∀ k, k ∉ assigned_keys → files' !! k = files !! k)
  ∧ (∀ k, is_Some (files !! k) → is_Some (files' !! k)).

(** What the branch for the conclusion [success] issues, at the value [a]
    of [attempt]. *)
Definition success_report (cfg : Config) (a : Z) : list (Z * Event) :=
  [(a, Log "Build succeeded!" "SUCCESS");
   (a, ClaudeLog "Build successful! All targets compiled successfully.");
   (a, UpdateStatus "Build successful!" "green");
   (a, ClaudeLog (success_msg cfg a))].

(** What the check after the loop issues when [attempt >= max_attempts]. *)
Definition failure_report (max_attempts a : Z) : list (Z * Event) :=
  [(a, Log ("Max attempts (" +:+ pretty max_attempts +:+ ") reached") "ERROR");
   (a, ClaudeLog "Maximum fix attempts reached. Manual intervention may be required.");
   (a, UpdateStatus "Build failed - manual intervention needed" "red");
   (a, ClaudeLog (summary a max_attempts))].

(** Every build fails and every request to the advisor raises. *)
Definition unreachable_advisor_world : World :=
  {| automation_running := fun _ => true;
     get_workflow_runs := fun _ => [the_run];
     get_run_status := fun _ _ => failed;
     get_run_logs := fun _ _ => compiler_log;
     create_or_update_file := fun _ _ _ _ => true;
     messages_create := fun _ _ => None;
     json := scenario_json;
     latency := fun _ => 0%nat |}.

(** Every build fails and the log of a run cannot be retrieved. *)
Definition no_logs_world : World :=
  {| automation_running := fun _ => true;
     get_workflow_runs := fun _ => [the_run];
     get_run_status := fun _ _ => failed;
     get_run_logs := fun _ _ => "";
     create_or_update_file := fun _ _ _ _ => true;
     messages_create := fun _ _ => Some "{workflow}";
     json := scenario_json;
     latency := fun _ => 0%nat |}.

End LoopMore.

(** ** Rounds of remediation *)

Module Rounds.
Import Str ClaudeCoordinator GitHubAPI Env BuildAutomationGUI LoopSpec Scenarios.

(** A write the repository accepts at some time. *)
Definition accepted (w : World) (e : Event) : Prop :=
  match e with
  | CreateOrUpdateFile path content message =>
      ∃ n, create_or_update_file w n path content message = true
  | _ => False
  end.






End Rounds.

(** ** Vocabulary for the advisor's deterministic parts *)

Module CoordinatorMore.
Import Str Re ClaudeCoordinator.

(** [r] is a contiguous part of [text]. *)
Definition occurs_in (r text : string) : Prop :=
  ∃ a b, text = a +:+ r +:+ b.

(** The file names [_fallback_analysis] lists as source files. *)
Definition is_translation_unit (filename : string) : bool :=
  endswith ".cpp" filename || endswith ".cc" filename.

(** The most characters [code_context] can have: for each file its name,
    2000 characters of content and 15 of frame. *)
Fixpoint context_bound (files : files_dict) : nat :=
  match files with
  | [] => 0%nat
  | (filename, _) :: rest =>
      (String.length filename + 2015 + context_bound rest)%nat
  end.

(** The parts of a fix request. *)
Definition request_error_log (r : Request) : string :=
  match r with FixRequest _ error_log _ _ _ => error_log | _ => "" end.

Definition request_vcpkg (r : Request) : string :=
  match r with FixRequest _ _ vcpkg _ _ => vcpkg | _ => "" end.

Definition request_cmake (r : Request) : string :=
  match r with FixRequest _ _ _ cmake _ => cmake | _ => "" end.

(** An ASCII capital letter. *)
Definition is_ascii_upper (c : ascii) : bool :=
  let n := nat_of_ascii c in (65 <=? n)%nat && (n <=? 90)%nat.

Fixpoint all_chars (f : ascii → bool) (s : string) : bool :=
  match s with
  | EmptyString => true
  | String c s' => f c && all_chars f s'
  end.

End CoordinatorMore.

(** ** More of [str] *)

Module StrMore.
Import Str.

(** [s.replace(old, new)] for a non-empty [old]: the occurrences of [old]
    are taken from left to right and do not overlap; [skip] counts the
    characters of the current occurrence still to pass. *)
Fixpoint replace_go (old new : string) (skip : nat) (s : string) : string :=
  match s with
  | EmptyString => EmptyString
  | String c s' =>
      match skip with
      | S k => replace_go old new k s'
      | O =>
          if startswith old s
          then new +:+ replace_go old new (Nat.pred (String.length old)) s'
          else String c (replace_go old new 0 s')
      end
  end.

Definition replace_str (old new s : string) : string := replace_go old new 0 s.

(** [s.split(sep)] for a one-character [sep]: the pieces between the
    separators, empty ones included; never the empty list. *)
Fixpoint split (sep : ascii) (s : string) : list string :=
  match s with
  | EmptyString => [EmptyString]
  | String c s' =>
      if Ascii.eqb c sep then EmptyString :: split sep s'
      else match split sep s' with
           | piece :: pieces => String c piece :: pieces
           | [] => [String c EmptyString]
           end
  end.

End StrMore.

(** ** The repository client: [GitHubAPI.__init__] *)

Module GitHubClient.
Import Str StrMore.

(** The attributes [__init__] sets. *)
Record Client := {
  token : string;
  headers : list (string * string);
  owner : string;
  repo : string;
  base_url : string
}.

(** [None] stands for the [IndexError] that [parts[1]] raises when the
    address, with the prefix and [.git] taken out, has no slash. *)
Definition __init__ (token repo_url : string) : option Client :=
  let parts :=
    split "/" (replace_str ".git" "" (replace_str "https://github.com/" "" repo_url)) in
  match parts with
  | owner :: repo :: _ =>
      Some {| token := token;
              headers := [("Authorization", "token " +:+ token);
                          ("Accept", "application/vnd.github.v3+json")];
              owner := owner;
              repo := repo;
              base_url := "https://api.github.com/repos/" +:+ owner +:+ "/" +:+ repo |}
  | _ => None
  end.

(** [c in s] for a character. *)
Fixpoint has_char (c : ascii) (s : string) : bool :=
  match s with
  | EmptyString => false
  | String x s' => Ascii.eqb x c || has_char c s'
  end.

(** The characters of the names of accounts and repositories: ASCII
    letters and digits, the hyphen, the underscore and the dot. *)
Definition is_name_char (c : ascii) : bool :=
  let n := nat_of_ascii c in
  ((48 <=? n)%nat && (n <=? 57)%nat) || ((65 <=? n)%nat && (n <=? 90)%nat)
  || ((97 <=? n)%nat && (n <=? 122)%nat)
  || (n =? 45)%nat || (n =? 95)%nat || (n =? 46)%nat.

Fixpoint is_name (s : string) : bool :=
  match s with
  | EmptyString => true
  | String c s' => is_name_char c && is_name s'
  end.

(** A name the constructor reads back: of name characters, and without
    the text .git in it. *)
Definition plain_name (s : string) : bool :=
  is_name s && negb (contains ".git" s).

(** What may follow a name for the text .git not to begin inside the
    name: nothing, or a character other than g, i and t. *)
Definition follows (rest : string) : bool :=
  match rest with
  | EmptyString => true
  | String c _ =>
      negb (Ascii.eqb "g" c) && negb (Ascii.eqb "i" c) && negb (Ascii.eqb "t" c)
  end.

(** The client the constructor is meant to build. *)
Definition client_of (token owner repo : string) : Client :=
  {| token := token;
     headers := [("Authorization", "token " +:+ token);
                 ("Accept", "application/vnd.github.v3+json")];
     owner := owner;
     repo := repo;
     base_url := "https://api.github.com/repos/" +:+ owner +:+ "/" +:+ repo |}.

End GitHubClient.

(** ** [fetch_code_files] *)

Module Fetch.
Import Str ClaudeCoordinator.

(** One entry of a directory listing, with the three keys the program
    reads. *)
Record Item := {
  type : string;
  name : string;
  path : string
}.

(** The repository service and the flag [self.automation_running], as
    answers indexed by the number of interactions made so far.
    [list_files] returns the empty list and [get_file] returns [None]
    when the response is not 200. *)
Record Repository := {
  list_files : nat → string → list Item;
  get_file : nat → string → option string;
  automation_running : nat → bool
}.

Inductive Call :=
| ListFiles (path : string)
| GetFile (path : string)
| LogFetched (path : string).

(** The number of interactions made, the dictionary [files], and the
    calls made so far. *)
Record State := {
  tick : nat;
  files : files_dict;
  calls : list Call
}.

(** [d[k] = v] on a dictionary in insertion order. *)
Fixpoint dict_set (k v : string) (d : files_dict) : files_dict :=
  match d with
  | [] => [(k, v)]
  | (k', v') :: d' =>
      if String.eqb k' k then (k', v) :: d' else (k', v') :: dict_set k v d'
  end.

(** [any(name.endswith(ext) for ext in ['.cpp', '.h', '.hpp', '.cc', '.c'])] *)
Definition has_code_extension (name : string) : bool :=
  existsb (fun ext => endswith ext name) [".cpp"; ".h"; ".hpp"; ".cc"; ".c"].

Definition start : State := {| tick := 0; files := []; calls := [] |}.

(** After a read of the flag. *)
Definition flag_read (st : State) : State :=
  {| tick := S (tick st); files := files st; calls := calls st |}.

(** After a call to the repository. *)
Definition called (c : Call) (st : State) : State :=
  {| tick := S (tick st); files := files st; calls := calls st ++ [c] |}.

(** After [files[path] = content] and the log line. *)
Definition fetched (path content : string) (st : State) : State :=
  {| tick := tick st;
     files := dict_set path content (files st);
     calls := calls st ++ [LogFetched path] |}.

Section Worker.
Variable r : Repository.

(** The [for] loop of [fetch_recursive]; [rec] is the recursive call,
    [None] its failure to return. *)
Fixpoint for_items (rec : string → State → option State)
    (items : list Item) (st : State) : option State :=
  match items with
  | [] => Some st
  | item :: rest =>
      if negb (automation_running r (tick st)) then Some (flag_read st)
      else
        let st := flag_read st in
        if String.eqb (type item) "file" then
          if has_code_extension (name item) then
            let content := get_file r (tick st) (path item) in
            let st := called (GetFile (path item)) st in
            match content with
            | Some (String _ _ as content) =>
                for_items rec rest (fetched (path item) content st)
            | _ => for_items rec rest st
            end
          else for_items rec rest st
        else if String.eqb (type item) "dir"
                && negb (startswith "." (name item)) then
          match rec (path item) st with
          | Some st' => for_items rec rest st'
          | None => None
          end
        else for_items rec rest st
  end.

(** [fetch_recursive(path)]; [depth] bounds the depth of the recursion,
    as the interpreter's recursion limit does. *)
Fixpoint fetch_recursive (depth : nat) (path : string) (st : State)
    : option State :=
  match depth with
  | O => None
  | S depth' =>
      let items := list_files r (tick st) path in
      for_items (fetch_recursive depth') items (called (ListFiles path) st)
  end.

Definition fetch_code_files (depth : nat) : option State :=
  fetch_recursive depth "" start.

End Worker.

(** A listing shows [p] as a file whose name ends like a C or C++
    file. *)
Definition listed_code_file (r : Repository) (p : string) : Prop :=
  ∃ n dir item,
    item ∈ list_files r n dir
    ∧ type item = "file" ∧ path item = p
    ∧ has_code_extension (name item) = true.

(** A listing shows [p] as a directory whose name does not begin with a
    dot, or [p] is the root. *)
Definition open_directory (r : Repository) (p : string) : Prop :=
  p = ""
  ∨ ∃ n dir item,
      item ∈ list_files r n dir
      ∧ type item = "dir" ∧ path item = p
      ∧ startswith "." (name item) = false.

(** What a call of the worker may be. *)
Definition allowed (r : Repository) (c : Call) : Prop :=
  match c with
  | ListFiles p => open_directory r p
  | GetFile p => listed_code_file r p
  | LogFetched p => listed_code_file r p
  end.

(** What an entry of the result may be: a non-empty content that a
    request for a listed C or C++ file returned. *)
Definition fetched_entry (r : Repository) (entry : string * string) : Prop :=
  entry.2 ≠ ""
  ∧ listed_code_file r entry.1
  ∧ ∃ n, get_file r n entry.1 = Some entry.2.

(** A repository that does not change while the worker reads it, and a
    worker nobody stops. *)
Definition stable (r : Repository) : Prop :=
  (∀ n p, list_files r n p = list_files r 0 p)
  ∧ (∀ n p, get_file r n p = get_file r 0 p)
  ∧ (∀ n, automation_running r n = true).

(** The directories below [p] that are reached through directories whose
    names do not begin with a dot, [p] included. *)
Inductive reach (r : Repository) : string → string → Prop :=
| reach_here p : reach r p p
| reach_down p item d :
    item ∈ list_files r 0 p →
    type item = "dir" → startswith "." (name item) = false →
    reach r (path item) d → reach r p d.

(** [files] holds every C or C++ file that the directory [dir] lists and
    that has a content. *)
Definition holds_files_of (r : Repository) (files : files_dict)
    (dir : string) : Prop :=
  ∀ item content,
    item ∈ list_files r 0 dir →
    type item = "file" → has_code_extension (name item) = true →
    get_file r 0 (path item) = Some content → content ≠ "" →
    dict_get (path item) files = Some content.

(** The entries and the calls of a state are as they may be. *)
Definition sound (r : Repository) (st : State) : Prop :=
  Forall (fetched_entry r) (files st) ∧ Forall (allowed r) (calls st).

(** The entries of [st] that agree with the repository are entries of
    [st']. *)
Definition keeps (r : Repository) (st st' : State) : Prop :=
  ∀ p c, get_file r 0 p = Some c →
         dict_get p (files st) = Some c → dict_get p (files st') = Some c.

(** A small repository: a C++ file, a text file, a hidden directory with
    a C++ file, and a source directory with a header. *)
Definition sample_repository : Repository :=
  {| list_files := fun _ p =>
       if String.eqb p "" then
         [ {| type := "file"; name := "main.cpp"; path := "main.cpp" |};
           {| type := "file"; name := "README.md"; path := "README.md" |};
           {| type := "dir"; name := ".git"; path := ".git" |};
           {| type := "dir"; name := "src"; path := "src" |} ]
       else if String.eqb p "src" then
         [ {| type := "file"; name := "util.h"; path := "src/util.h" |} ]
       else if String.eqb p ".git" then
         [ {| type := "file"; name := "hook.c"; path := ".git/hook.c" |} ]
       else [];
     get_file := fun _ p => Some ("// " +:+ p);
     automation_running := fun _ => true |}.

(** What the worker fetches from it. *)
Definition sample_state : State :=
  default start (fetch_code_files sample_repository 3).

End Fetch.

(** ** Sample inputs *)

Module Samples.
Import Str ClaudeCoordinator.

(** A text of [n] dots. *)
Fixpoint dots (n : nat) : string :=
  match n with
  | O => EmptyString
  | S n' => String "."%char (dots n')
  end.

(** A C project: no file name ends in .cpp or .cc. *)
Definition c_project : files_dict :=
  [("main.c", "int main(void) { return 0; }"); ("util.h", "#pragma once")].

End Samples.

(** ** The first publication *)

Module PublishMore.
Import Str ClaudeCoordinator Env BuildAutomationGUI.

(** The path each key of [build_files] is published under. *)
Definition publication : list (string * string) :=
  [("vcpkg.json", "vcpkg.json");
   ("CMakeLists.txt", "CMakeLists.txt");
   ("workflow.yml", ".github/workflows/build.yml")].

(** The number of build files there are to publish: the keys with a
    non-empty content. *)
Definition to_publish (build_files : gmap string string) : nat :=
  length (List.filter (fun kp => truthy (build_files !! kp.1)) publication).

(** What is published when the advisor cannot be reached: the three
    fallback files, under the paths they are written to. *)
Definition fallback_publication (project_name : string)
    (source_files : files_dict) (target : list string) : gmap string string :=
  let build_files :=
    _fallback_generation project_name (_fallback_analysis source_files) target in
  <[".github/workflows/build.yml" := default "" (build_files !! "workflow.yml")]>
    (<["CMakeLists.txt" := default "" (build_files !! "CMakeLists.txt")]>
       (<["vcpkg.json" := default "" (build_files !! "vcpkg.json")]> ∅)).

End PublishMore.
(** * Properties *)

(** ** Strings *)

Module StrFacts.
Import Str Re Spec.

Lemma startswith_app p s : startswith p (p +:+ s) = true.
Proof.
  induction p as [|a p IH]; simpl; [reflexivity|].
  rewrite Ascii.eqb_refl. exact IH.
Qed.

Lemma slice_from_app p s : slice_from (String.length p) (p +:+ s) = s.
Proof. induction p as [|a p IH]; simpl; [by destruct s|exact IH]. Qed.

Lemma app_cons c (a b : string) : String c a +:+ b = String c (a +:+ b).
Proof. reflexivity. Qed.

Lemma app_empty_r (a : string) : a +:+ "" = a.
Proof. induction a as [|x a IH]; [reflexivity|by rewrite app_cons, IH]. Qed.

(** A longer pattern occurs only where its prefix occurs. *)
Lemma startswith_prefix p q s :
  startswith (p +:+ q) s = true → startswith p s = true.
Proof.
  revert s. induction p as [|a p IH]; intros s; simpl; [done|].
  destruct s as [|b s]; [done|].
  intros [-> H]%andb_true_iff. rewrite (IH _ H). done.
Qed.

Lemma contains_prefix p q s :
  contains (p +:+ q) s = true → contains p s = true.
Proof.
  induction s as [|b s IH].
  - cbn [contains]. rewrite !orb_false_r. apply startswith_prefix.
  - cbn [contains]. intros [H|H]%orb_true_iff.
    + by rewrite (startswith_prefix _ _ _ H).
    + rewrite (IH H). apply orb_true_r.
Qed.

Lemma space_not_backquote c : is_space c = true → Ascii.eqb "`" c = false.
Proof. destruct c as [[] [] [] [] [] [] [] []]; vm_compute; congruence. Qed.

Lemma space_not_j c : is_space c = true → Ascii.eqb "j" c = false.
Proof. destruct c as [[] [] [] [] [] [] [] []]; vm_compute; congruence. Qed.

Lemma space_not_close c : is_space c = true → Ascii.eqb c "}" = false.
Proof. destruct c as [[] [] [] [] [] [] [] []]; vm_compute; congruence. Qed.

Lemma drop_ws_all_space w s : all_space w = true → drop_ws (w +:+ s) = drop_ws s.
Proof.
  induction w as [|c w IH]; simpl; [done|].
  intros [Hc Hw]%andb_true_iff. rewrite Hc. auto.
Qed.

Lemma tail_ok_inv c s : tail_ok (String c s) → s = "" ∨ tail_ok s.
Proof.
  intros [He Hc]. destruct s as [|d s]; [by left|right].
  cbn [endswith] in He. cbn [contains] in Hc.
  apply orb_false_iff in Hc as [_ Hc]. split; [|exact Hc].
  apply orb_true_iff in He as [He|He]; [|exact He].
  apply String.eqb_eq in He. discriminate.
Qed.

Lemma tail_ok_single c : tail_ok (String c "") → c = "}"%char.
Proof.
  intros [He _]. cbn in He. rewrite orb_false_r in He.
  destruct (Ascii.eqb_spec c "}"); [done|].
  destruct c as [[] [] [] [] [] [] [] []]; vm_compute in He; congruence.
Qed.

Lemma tail_ok_no_fence s rest :
  tail_ok s → startswith "```" (s +:+ rest) = false.
Proof.
  intros Hs. destruct s as [|c1 s]; [destruct Hs; discriminate|].
  destruct (tail_ok_inv _ _ Hs) as [->|H1].
  { apply tail_ok_single in Hs as ->. reflexivity. }
  destruct s as [|c2 s]; [destruct H1; discriminate|].
  destruct (tail_ok_inv _ _ H1) as [->|H2].
  { apply tail_ok_single in H1 as ->. rewrite !app_cons. cbn [startswith].
    change (Ascii.eqb "`" "}") with false.
    by rewrite andb_false_l, andb_false_r. }
  destruct s as [|c3 s]; [destruct H2; discriminate|].
  destruct Hs as [_ Hc]. cbn [contains] in Hc.
  apply orb_false_iff in Hc as [Hc _].
  rewrite !app_cons. cbn [startswith] in *.
  by rewrite !andb_true_r in *.
Qed.

Lemma tail_ok_drop_ws s rest :
  tail_ok s → ∃ s', drop_ws (s +:+ rest) = s' +:+ rest ∧ tail_ok s'.
Proof.
  induction s as [|c s IH]; intros Hs; [destruct Hs; discriminate|].
  simpl. destruct (is_space c) eqn:Hc; [|by exists (String c s)].
  destruct (tail_ok_inv _ _ Hs) as [->|H1]; [|by apply IH].
  apply tail_ok_single in Hs as ->. discriminate.
Qed.

Lemma tail_ok_not_closes s rest : tail_ok s → closes (s +:+ rest) = false.
Proof.
  intros Hs. unfold closes.
  destruct (tail_ok_drop_ws s rest Hs) as (s' & -> & Hs').
  by apply tail_ok_no_fence.
Qed.

(** The lazy group stops exactly at the end of the payload. *)
Lemma lazy_group_unfold s :
  lazy_group s =
  if closes s then Some EmptyString
  else match s with
       | EmptyString => None
       | String c s' => option_map (String c) (lazy_group s')
       end.
Proof. by destruct s. Qed.

Lemma lazy_group_payload s w2 :
  s = "" ∨ tail_ok s → all_space w2 = true →
  lazy_group (s +:+ w2 +:+ "```") = Some s.
Proof.
  intros Hs Hw. induction s as [|c s IH].
  - rewrite lazy_group_unfold.
    assert (closes ("" +:+ w2 +:+ "```") = true) as ->; [|done].
    unfold closes. change ("" +:+ w2 +:+ "```") with (w2 +:+ "```").
    by rewrite drop_ws_all_space.
  - destruct Hs as [Hs|Hs]; [discriminate|].
    rewrite lazy_group_unfold, (tail_ok_not_closes _ _ Hs), app_cons.
    rewrite IH; [reflexivity|]. by apply tail_ok_inv in Hs.
Qed.

Lemma object_text_tail p :
  object_text p = true → contains "```" p = false →
  tail_ok p ∧ ∃ body, p = String "{" body.
Proof.
  unfold object_text. intros [Hs He]%andb_true_iff Hc. split; [done|].
  destruct p as [|c p]; [discriminate|]. cbn [startswith] in Hs.
  rewrite andb_true_r in Hs. apply Ascii.eqb_eq in Hs as <-. by eexists.
Qed.

Lemma fenced_body_payload w1 p w2 :
  object_text p = true → contains "```" p = false →
  all_space w1 = true → all_space w2 = true →
  fenced_body (w1 +:+ p +:+ w2 +:+ "```") = Some p.
Proof.
  intros Hp Hc H1 H2. unfold fenced_body.
  rewrite drop_ws_all_space by done.
  destruct (object_text_tail p Hp Hc) as [Ht [body ->]].
  rewrite app_cons. cbn [drop_ws]. change (is_space "{") with false.
  cbv iota. rewrite <- app_cons. apply lazy_group_payload; auto.
Qed.

Lemma search_fence_cons opening c t :
  startswith opening (String c t) = false →
  search_fence opening (String c t) = search_fence opening t.
Proof. intros H. cbn [search_fence]. by rewrite H. Qed.

(** No fence opens where the text has none. *)
Section NoOpening.
Variable opening : string.
Hypothesis opening_fence :
  ∀ x, startswith opening x = true → startswith "```" x = true.
Hypothesis opening_nonempty : startswith opening "" = false.

Lemma search_fence_skip_tail s rest :
  s = "" ∨ tail_ok s →
  search_fence opening (s +:+ rest) = search_fence opening rest.
Proof.
  induction s as [|c s IH]; intros Hs; [reflexivity|].
  destruct Hs as [Hs|Hs]; [discriminate|].
  assert (startswith opening (String c s +:+ rest) = false) as Hno.
  { destruct (startswith opening (String c s +:+ rest)) eqn:E; [|done].
    apply opening_fence in E. by rewrite tail_ok_no_fence in E. }
  rewrite app_cons in *. rewrite search_fence_cons by done.
  apply IH. by apply tail_ok_inv in Hs.
Qed.

Lemma search_fence_skip_space w rest :
  all_space w = true →
  search_fence opening (w +:+ rest) = search_fence opening rest.
Proof.
  induction w as [|c w IH]; [reflexivity|].
  cbn [all_space]. intros [Hc Hw]%andb_true_iff.
  assert (startswith opening (String c w +:+ rest) = false) as Hno.
  { destruct (startswith opening (String c w +:+ rest)) eqn:E; [|done].
    apply opening_fence in E. rewrite app_cons in E. cbn [startswith] in E.
    by rewrite (space_not_backquote _ Hc) in E. }
  rewrite app_cons in *. rewrite search_fence_cons by done. by apply IH.
Qed.

Lemma search_fence_none p :
  tail_ok p → search_fence opening p = None.
Proof.
  intros Hp. rewrite <- (app_empty_r p).
  rewrite search_fence_skip_tail by auto.
  cbn [search_fence]. by rewrite opening_nonempty.
Qed.
End NoOpening.

Lemma json_opening_fence x :
  startswith "```json" x = true → startswith "```" x = true.
Proof. apply (startswith_prefix "```" "json"). Qed.

Lemma upto_last_brace_full s : endswith "}" s = true → upto_last_brace s = Some s.
Proof.
  induction s as [|c s IH]; [discriminate|].
  cbn [endswith upto_last_brace]. intros [H|H]%orb_true_iff.
  - apply String.eqb_eq in H. injection H as -> ->. reflexivity.
  - by rewrite IH.
Qed.

End StrFacts.

(** ** The advisor's deterministic parts *)

Module CoordinatorFacts.
Import Str Re ClaudeCoordinator Spec StrFacts.

Lemma search_fence_at_start opening rest g :
  fenced_body rest = Some g →
  search_fence opening (opening +:+ rest) = Some g.
Proof.
  intros H.
  assert (∀ text, search_fence opening text =
    match
      (if startswith opening text
       then fenced_body (slice_from (String.length opening) text) else None)
    with
    | Some g => Some g
    | None => match text with
              | EmptyString => None
              | String _ t' => search_fence opening t'
              end
    end) as -> by (by intros []).
  by rewrite startswith_app, slice_from_app, H.
Qed.

Lemma plain_opening_no_json c rest :
  Ascii.eqb "`" c = false → Ascii.eqb "j" c = false →
  search_fence "```json" ("```" +:+ String c rest)
  = search_fence "```json" (String c rest).
Proof.
  intros Hb Hj. rewrite !app_cons.
  change ("" +:+ String c rest) with (String c rest).
  rewrite !search_fence_cons; [done|..]; cbn [startswith];
    rewrite ?Ascii.eqb_refl, ?Hb, ?Hj, ?andb_false_r; done.
Qed.

Lemma plain_fence_no_json w1 p w2 :
  object_text p = true → contains "```" p = false →
  all_space w1 = true → all_space w2 = true →
  search_fence "```json" (fenced "" w1 p w2) = None.
Proof.
  intros Hp Hc H1 H2.
  destruct (object_text_tail p Hp Hc) as [Ht [body Hbody]].
  unfold fenced. change ("" +:+ w1 +:+ p +:+ w2 +:+ "```")
    with (w1 +:+ p +:+ w2 +:+ "```").
  assert (search_fence "```json" (w1 +:+ p +:+ w2 +:+ "```") = None) as Hrest.
  { rewrite (search_fence_skip_space _ json_opening_fence) by done.
    rewrite (search_fence_skip_tail _ json_opening_fence) by auto.
    by rewrite (search_fence_skip_space _ json_opening_fence). }
  assert (∃ c rest, w1 +:+ p +:+ w2 +:+ "```" = String c rest
                    ∧ Ascii.eqb "`" c = false ∧ Ascii.eqb "j" c = false)
    as (c & rest & E & Hb & Hj).
  { destruct w1 as [|c w1].
    - subst p. by eexists _, _.
    - cbn [all_space] in H1. apply andb_true_iff in H1 as [Hc1 _].
      eexists _, _. split; [apply app_cons|].
      eauto using space_not_backquote, space_not_j. }
  rewrite E in *. by rewrite plain_opening_no_json.
Qed.

(** C9, the order of the attempts: the fenced block labelled json, then
    any fenced block, then the outermost braces, then the text itself. *)
Lemma extract_json_order text :
  match search_fence "```json" text, search_fence "```" text,
        search_braces text with
  | Some g, _, _ => _extract_json text = g
  | None, Some g, _ => _extract_json text = g
  | None, None, Some g => _extract_json text = g
  | None, None, None => _extract_json text = text
  end.
Proof.
  unfold _extract_json.
  destruct (search_fence "```json" text); [done|].
  destruct (search_fence "```" text); [done|].
  by destruct (search_braces text).
Qed.

(** C9, as amended: a JSON object text that holds no run of three
    backquotes is returned unchanged by the extraction, from a block
    fenced with the label json, from a block fenced without a label, and
    from the bare text; so whatever [json.loads] makes of the payload it
    makes of the extracted string. *)
Theorem extract_json_returns_payload (J : Json) (p w1 w2 : string) :
  object_text p = true → contains "```" p = false →
  all_space w1 = true → all_space w2 = true →
  _extract_json (fenced "json" w1 p w2) = p
  ∧ _extract_json (fenced "" w1 p w2) = p
  ∧ _extract_json p = p
  ∧ loads_fix J (_extract_json (fenced "json" w1 p w2)) = loads_fix J p
  ∧ loads_fix J (_extract_json (fenced "" w1 p w2)) = loads_fix J p
  ∧ loads_fix J (_extract_json p) = loads_fix J p.
Proof.
  intros Hp Hc H1 H2.
  assert (_extract_json (fenced "json" w1 p w2) = p) as E1.
  { unfold _extract_json.
    change (fenced "json" w1 p w2)
      with ("```json" +:+ (w1 +:+ p +:+ w2 +:+ "```")).
    by rewrite (search_fence_at_start _ _ p)
      by by apply fenced_body_payload. }
  assert (_extract_json (fenced "" w1 p w2) = p) as E2.
  { unfold _extract_json. rewrite plain_fence_no_json by done.
    change (fenced "" w1 p w2) with ("```" +:+ (w1 +:+ p +:+ w2 +:+ "```")).
    by rewrite (search_fence_at_start _ _ p)
      by by apply fenced_body_payload. }
  assert (_extract_json p = p) as E3.
  { destruct (object_text_tail p Hp Hc) as [Ht [body Hbody]].
    unfold _extract_json.
    rewrite (search_fence_none _ json_opening_fence) by done.
    rewrite (search_fence_none "```") by done.
    subst p. cbn [search_braces]. rewrite Ascii.eqb_refl.
    destruct Ht as [He _]. cbn [endswith] in He.
    change (String.eqb (String "{" body) "}") with false in He.
    by rewrite upto_last_brace_full. }
  by rewrite E1, E2, E3.
Qed.

Lemma extract_json_returns_payload_witness :
  _extract_json (fenced "json" nl "{}" nl) = "{}"
  ∧ _extract_json (fenced "" nl "{}" nl) = "{}"
  ∧ _extract_json "{}" = "{}"
  ∧ loads_fix rejecting_json (_extract_json (fenced "json" nl "{}" nl))
    = loads_fix rejecting_json "{}"
  ∧ loads_fix rejecting_json (_extract_json (fenced "" nl "{}" nl))
    = loads_fix rejecting_json "{}"
  ∧ loads_fix rejecting_json (_extract_json "{}") = loads_fix rejecting_json "{}".
Proof.
  exact (extract_json_returns_payload rejecting_json "{}" nl nl
           eq_refl eq_refl eq_refl eq_refl).
Defined.

(** C9, as stated, fails: a JSON object whose string value holds three
    backquotes, wrapped in a block fenced with the label json, is cut at
    those backquotes; what is returned is not the text of an object. *)
Lemma extract_json_cuts_at_inner_backquotes :
  object_text backquote_payload = true
  ∧ json_object_shape backquote_payload = true
  ∧ _extract_json (fenced "json" nl backquote_payload nl)
    = "{" +:+ dq +:+ "a" +:+ dq +:+ ": " +:+ dq
  ∧ json_object_shape (_extract_json (fenced "json" nl backquote_payload nl))
    = false.
Proof. vm_compute. done. Qed.

(** *** The fallback analysis *)

Lemma heuristic_nil d : ¬ heuristic_dependency [] d.
Proof. intros (f & c & H & _). by apply elem_of_nil in H. Qed.

Lemma heuristic_cons f c files d :
  heuristic_dependency ((f, c) :: files) d
  ↔ file_suggests c d ∨ heuristic_dependency files d.
Proof.
  unfold heuristic_dependency. split.
  - intros (f' & c' & [H|H]%elem_of_cons & Hs).
    + injection H as -> ->. by left.
    + right. eauto.
  - intros [Hs|(f' & c' & H & Hs)].
    + exists f, c. split; [by left|done].
    + exists f', c'. split; [by right|done].
Qed.

Lemma fallback_scan_deps files : ∀ deps srcs d,
  d ∈ (fallback_scan files deps srcs).1 ↔ d ∈ deps ∨ heuristic_dependency files d.
Proof.
  induction files as [|[f c] files IH]; intros deps srcs d.
  - cbn. pose proof (heuristic_nil d). tauto.
  - cbn [fallback_scan]. rewrite IH, heuristic_cons. unfold file_suggests.
    destruct (contains "#include <boost" c), (contains "#include <openssl" c),
      (contains "#include <curl" c), (contains "nlohmann/json" c);
      rewrite ?elem_of_union, ?elem_of_singleton; intuition congruence.
Qed.

Lemma fallback_analysis_deps files :
  ∃ deps, dependencies (_fallback_analysis files) = Some deps
          ∧ NoDup deps
          ∧ ∀ d, d ∈ deps ↔ heuristic_dependency files d.
Proof.
  unfold _fallback_analysis.
  pose proof (fallback_scan_deps files ∅ []) as H.
  destruct (fallback_scan files ∅ []) as [deps srcs]. cbn in *.
  exists (elements deps). split; [done|]. split; [apply NoDup_elements|].
  intros d. rewrite elem_of_elements, H, elem_of_empty. tauto.
Qed.

(** C8: when the request for the analysis fails, or its answer does not
    parse, the result is the fallback analysis; the dependencies of the
    fallback analysis are exactly those the four patterns suggest, the
    standard is 17; for the single file main.cpp that includes
    <curl/curl.h> and matches no other pattern the result is
    dependencies [curl], standard 17, source files [main.cpp]. *)
Theorem fallback_analysis_is_heuristic (J : Json) (files : files_dict)
    (content : string) :
  analyze_response J files None = _fallback_analysis files
  ∧ (∀ text, loads_analysis J (_extract_json text) = None →
       analyze_response J files (Some text) = _fallback_analysis files)
  ∧ (∃ deps, dependencies (_fallback_analysis files) = Some deps
             ∧ NoDup deps
             ∧ ∀ d, d ∈ deps ↔ heuristic_dependency files d)
  ∧ cpp_standard (_fallback_analysis files) = Some "17"
  ∧ (contains "#include <curl/curl.h>" content = true →
     contains "#include <boost" content = false →
     contains "#include <openssl" content = false →
     contains "nlohmann/json" content = false →
     analyze_response J [("main.cpp", content)] None =
       {| dependencies := Some ["curl"];
          cpp_standard := Some "17";
          source_files := Some ["main.cpp"];
          special_requirements := Some "";
          cmake_flags := None |}).
Proof.
  split; [done|]. split.
  { intros text H. unfold analyze_response. by rewrite H. }
  split; [apply fallback_analysis_deps|]. split.
  { unfold _fallback_analysis. by destruct (fallback_scan files ∅ []). }
  intros Hcurl Hboost Hssl Hjson.
  apply (contains_prefix "#include <curl" "/curl.h>") in Hcurl.
  unfold analyze_response, _fallback_analysis. cbn [fallback_scan].
  rewrite Hcurl, Hboost, Hssl, Hjson.
  change (endswith ".cpp" "main.cpp" || endswith ".cc" "main.cpp") with true.
  cbv iota. rewrite (left_id_L ∅ (∪)), elements_singleton. done.
Qed.

Lemma fallback_analysis_is_heuristic_witness :
  analyze_response rejecting_json [("main.cpp", curl_main)] None =
    {| dependencies := Some ["curl"];
       cpp_standard := Some "17";
       source_files := Some ["main.cpp"];
       special_requirements := Some "";
       cmake_flags := None |}.
Proof.
  exact (proj2 (proj2 (proj2 (proj2
    (fallback_analysis_is_heuristic rejecting_json [] curl_main))))
    eq_refl eq_refl eq_refl eq_refl).
Defined.

(** *** The fallback generation *)

(** C10: the workflow of the fallback generation is one fixed text that
    names ubuntu-latest and no other platform, whatever the project
    name, the analysis and the target list; the whole result does not
    depend on the target list; the manifest is the rendering of the
    normalised project name and the dependency list, so two calls that
    agree on these two agree on the manifest. *)
Theorem fallback_generation_ignores_target_os
    (name1 name2 : string) (a1 a2 : Analysis) (os1 os2 : list string) :
  _fallback_generation name1 a1 os1 !! "workflow.yml" = Some fallback_workflow
  ∧ _fallback_generation name1 a1 os2 !! "workflow.yml" = Some fallback_workflow
  ∧ _fallback_generation name1 a1 os1 = _fallback_generation name1 a1 os2
  ∧ contains "runs-on: ubuntu-latest" fallback_workflow = true
  ∧ contains "windows" fallback_workflow = false
  ∧ contains "macos" fallback_workflow = false
  ∧ _fallback_generation name1 a1 os1 !! "vcpkg.json"
    = Some (dumps_vcpkg (manifest_name name1) "1.0.0"
              (default [] (dependencies a1)))
  ∧ (manifest_name name1 = manifest_name name2 →
     default [] (dependencies a1) = default [] (dependencies a2) →
     _fallback_generation name1 a1 os1 !! "vcpkg.json"
     = _fallback_generation name2 a2 os2 !! "vcpkg.json").
Proof.
  assert (∀ n a os, _fallback_generation n a os !! "vcpkg.json"
    = Some (dumps_vcpkg (manifest_name n) "1.0.0" (default [] (dependencies a))))
    as Hv.
  { intros. unfold _fallback_generation.
    by rewrite !lookup_insert_ne, lookup_insert_eq by done. }
  assert (∀ n a os, _fallback_generation n a os !! "workflow.yml"
    = Some fallback_workflow) as Hw.
  { intros. unfold _fallback_generation. by rewrite lookup_insert_eq. }
  repeat split; try done.
  intros Hn Hd. by rewrite !Hv, Hn, Hd.
Qed.

Lemma fallback_generation_ignores_target_os_witness :
  _fallback_generation "My App"
    {| dependencies := Some ["curl"]; cpp_standard := Some "17";
       source_files := Some ["main.cpp"]; special_requirements := None;
       cmake_flags := None |} ["ubuntu"] !! "vcpkg.json"
  = _fallback_generation "my-app"
      {| dependencies := Some ["curl"]; cpp_standard := Some "20";
         source_files := None; special_requirements := None;
         cmake_flags := None |} ["windows"; "macos"] !! "vcpkg.json".
Proof.
  exact (proj2 (proj2 (proj2 (proj2 (proj2 (proj2 (proj2
    (fallback_generation_ignores_target_os "My App" "my-app"
       {| dependencies := Some ["curl"]; cpp_standard := Some "17";
          source_files := Some ["main.cpp"]; special_requirements := None;
          cmake_flags := None |}
       {| dependencies := Some ["curl"]; cpp_standard := Some "20";
          source_files := None; special_requirements := None;
          cmake_flags := None |} ["ubuntu"] ["windows"; "macos"])))))))
    eq_refl eq_refl).
Defined.

End CoordinatorFacts.

(** ** The loop *)

Module LoopFacts.
Import Str ClaudeCoordinator GitHubAPI Env BuildAutomationGUI LoopSpec.

(** *** Computations that keep to a set of events *)

Section Keeps.
Variable w : World.
Variable G : Z → Event → Prop.

Lemma extends_refl m : extends G m m.
Proof. split; [done|]. exists []. by rewrite app_nil_r. Qed.

Lemma extends_trans m1 m2 m3 :
  extends G m1 m2 → extends G m2 m3 → extends G m1 m3.
Proof.
  intros [Ha (e1 & Ht1 & F1)] [Hb (e2 & Ht2 & F2)]. split; [congruence|].
  exists (e1 ++ e2). split; [by rewrite Ht2, Ht1, app_assoc|].
  apply Forall_app. split; [done|]. by rewrite Ha in F2.
Qed.

Lemma extends_event m m' e :
  attempt m' = attempt m → trace m' = trace m ++ [(attempt m, e)] →
  G (attempt m) e → extends G m m'.
Proof.
  intros Ha Ht He. split; [done|]. exists [(attempt m, e)].
  split; [done|]. by repeat constructor.
Qed.

Lemma keeps_ret {A} a (x : A) : keeps_at G a (ret x).
Proof. intros m _. apply extends_refl. Qed.

Lemma keeps_bind {A B} a (c : M A) (k : A → M B) :
  keeps_at G a c → (∀ x, keeps_at G a (k x)) → keeps_at G a (bind c k).
Proof.
  intros Hc Hk m Hm. unfold bind. specialize (Hc m Hm).
  destruct (c m) as [x m1]. cbn in Hc.
  eapply extends_trans; [exact Hc|]. apply Hk.
  destruct Hc as [-> _]. done.
Qed.

Lemma keeps_get_attempt {B} a (k : Z → M B) :
  keeps_at G a (k a) → keeps_at G a (bind get_attempt k).
Proof. intros Hk m Hm. unfold bind, get_attempt. rewrite Hm. by apply Hk. Qed.

Lemma keeps_emit a e : G a e → keeps_at G a (emit e).
Proof. intros He m <-. by apply (extends_event _ _ e). Qed.

Lemma keeps_interact {A} a e (answer : nat → A) :
  G a e → keeps_at G a (interact w e answer).
Proof. intros He m <-. by apply (extends_event _ _ e). Qed.

Lemma keeps_interact_bind {A B} a e (answer : nat → A) (k : A → M B) :
  G a e → (∀ n, keeps_at G a (k (answer n))) →
  keeps_at G a (bind (interact w e answer) k).
Proof.
  intros He Hk m Hm. unfold bind. cbn [interact].
  eapply extends_trans; [|apply Hk; cbn; exact Hm].
  subst a. by apply (extends_event _ _ e).
Qed.

Lemma keeps_sleep a s : G a (Sleep s) → keeps_at G a (sleep w s).
Proof. intros He m <-. by apply (extends_event _ _ (Sleep s)). Qed.

Lemma keeps_time a : keeps_at G a time.
Proof. intros m _. apply extends_refl. Qed.

Lemma keeps_running a : keeps_at G a (running w).
Proof. intros m _. split; [done|]. exists []. by rewrite app_nil_r. Qed.

Lemma keeps_running_bind {B} a (k : bool → M B) :
  (∀ n, keeps_at G a (k (automation_running w n))) →
  keeps_at G a (bind (running w) k).
Proof.
  intros Hk m Hm. unfold bind. cbn [running].
  eapply extends_trans; [|apply Hk; cbn; exact Hm].
  split; [done|]. exists []. by rewrite app_nil_r.
Qed.

End Keeps.

Ltac keeps_step :=
  lazymatch goal with
  | |- keeps_at _ _ (Env.bind get_attempt _) => apply keeps_get_attempt
  | |- keeps_at _ _ (Env.bind _ _) => apply keeps_bind; [|intros ?]
  | |- keeps_at _ _ (ret _) => apply keeps_ret
  | |- keeps_at _ _ (emit _) => apply keeps_emit
  | |- keeps_at _ _ (interact _ _ _) => apply keeps_interact
  | |- keeps_at _ _ (sleep _ _) => apply keeps_sleep
  | |- keeps_at _ _ time => apply keeps_time
  | |- keeps_at _ _ (running _) => apply keeps_running
  | |- keeps_at _ _ (if ?b then _ else _) => destruct b eqn:?
  | |- keeps_at _ _ (match ?x with _ => _ end) => destruct x eqn:?
  end.

Ltac keeps_auto :=
  unfold log, claude_log, update_status, github_get_run_status,
    github_get_run_logs, github_create_or_update_file,
    github_get_workflow_runs, claude_fix_build_errors;
  repeat keeps_step.

Section Leaves.
Variable w : World.
Variable max_attempts : Z.
Variable G : Z → Event → Prop.
Hypothesis G_round :
  ∀ a e, round_event max_attempts a e → gives_up_warning e = false → G a e.

Lemma keeps_wait_for_completion a fuel timeout run_id start_time :
  keeps_at G a (wait_for_completion w fuel timeout run_id start_time).
Proof.
  induction fuel as [|fuel IH]; cbn [wait_for_completion];
    keeps_auto; try (by apply G_round); exact IH.
Qed.

Lemma keeps_update_if_needed a changes announce path key message st :
  In path build_file_paths →
  String.eqb announce "No fixes could be applied"
  || String.eqb announce "Claude has low confidence in fixes" = false →
  keeps_at G a (update_if_needed w changes announce path key message st).
Proof.
  intros Hp Ha. unfold update_if_needed. keeps_auto; by apply G_round.
Qed.

Lemma keeps_update_build_files a fixes attempt files :
  keeps_at G a (update_build_files w fixes attempt files).
Proof.
  unfold update_build_files.
  repeat (apply keeps_bind; [|intros ?]);
    (apply keeps_update_if_needed; [cbn; tauto|reflexivity]).
Qed.

Lemma keeps_log_code_changes changes :
  keeps_at G (max_attempts - 1) (log_code_changes changes).
Proof.
  induction changes as [|[f c] changes IH]; cbn [log_code_changes];
    keeps_auto; first [exact IH|by apply G_round].
Qed.

Lemma keeps_show_code_changes a fixes :
  keeps_at G a
    (if has_code_changes fixes && (a =? max_attempts - 1)
     then log "Claude suggests code changes:" "WARNING" ;;;
          log_code_changes (default [] (code_changes fixes))
     else ret tt).
Proof.
  destruct (has_code_changes fixes); cbn [andb]; [|apply keeps_ret].
  destruct (Z.eqb_spec a (max_attempts - 1)) as [->|]; [|apply keeps_ret].
  apply keeps_bind; [apply keeps_emit; by apply G_round|intros _].
  apply keeps_log_code_changes.
Qed.

End Leaves.

Section Round.
Variable w : World.
Variable max_attempts : Z.

Let G := round_event max_attempts.

Lemma round_benign a e : benign e → G a e.
Proof. by destruct e. Qed.

Lemma keeps_conclude_round a fixes st :
  keeps_at G a (conclude_round w max_attempts a fixes st).
Proof.
  unfold conclude_round. destruct st as [files updated].
  apply keeps_bind; [by apply (keeps_show_code_changes max_attempts)|].
  intros _. keeps_auto; done.
Qed.

Lemma keeps_apply_fixes a fixes files :
  keeps_at G a (apply_fixes w max_attempts fixes files).
Proof.
  unfold apply_fixes. keeps_auto; try done.
  - by apply (keeps_update_build_files w max_attempts).
  - apply keeps_conclude_round.
Qed.

Lemma keeps_remediate a run_id files :
  keeps_at G a (remediate w max_attempts run_id files).
Proof.
  unfold remediate. keeps_auto; try done; apply keeps_apply_fixes.
Qed.

Lemma keeps_monitor_run a fuel cfg attempt files latest_run :
  keeps_at G a (monitor_run w fuel cfg max_attempts attempt files latest_run).
Proof.
  unfold monitor_run. keeps_auto; try done.
  - by apply (keeps_wait_for_completion w max_attempts).
  - apply keeps_remediate.
Qed.

End Round.




(** *** One pass of the loop *)

Section Pass.
Variable w : World.
Variable max_attempts : Z.

Lemma iteration_runs fuel cfg files m :
  iteration w fuel cfg max_attempts files m =
  match get_workflow_runs w (S (tick m)) with
  | [] =>
      (log "No workflow runs found, waiting..." "WARNING" ;;;
       sleep w 10 ;;;
       ret (Some (Continue, files))) (after_discovery w max_attempts m)
  | latest_run :: _ =>
      monitor_run w fuel cfg max_attempts (attempt m + 1) files latest_run
        (after_discovery w max_attempts m)
  end.
Proof.
  unfold iteration, after_discovery.
  cbv beta iota zeta delta
    [bind get_attempt set_attempt log claude_log update_status emit sleep
     github_get_workflow_runs interact ret].
  cbn [tick clock attempt trace].
  destruct (get_workflow_runs w (S (tick m)));
    cbn [tick clock attempt trace]; rewrite <- !app_assoc; reflexivity.
Qed.

Lemma iteration_extends fuel cfg files m :
  extends (round_event max_attempts) (after_discovery w max_attempts m)
    (iteration w fuel cfg max_attempts files m).2.
Proof.
  rewrite iteration_runs.
  destruct (get_workflow_runs w (S (tick m))) as [|latest_run ?].
  - assert (keeps_at (round_event max_attempts) (attempt m + 1)
      (log "No workflow runs found, waiting..." "WARNING" ;;;
       sleep w 10 ;;; ret (Some (Continue, files)))) as H
      by (keeps_auto; done).
    by apply H.
  - by apply (keeps_monitor_run w max_attempts (attempt m + 1)).
Qed.

Lemma iteration_attempt fuel cfg files m :
  attempt (iteration w fuel cfg max_attempts files m).2 = attempt m + 1.
Proof. by destruct (iteration_extends fuel cfg files m) as [-> _]. Qed.

End Pass.


(** *** Results *)

Section Yields.
Variable w : World.

Lemma yields_ret {A} (P : A → Prop) x : P x → yields P (ret x).
Proof. by intros H m. Qed.

Lemma yields_bind {A B} (P : B → Prop) (c : M A) (k : A → M B) :
  (∀ x, yields P (k x)) → yields P (bind c k).
Proof. intros H m. unfold bind. destruct (c m) as [x m1]. apply H. Qed.

Lemma yields_bind_with {A B} (Q : A → Prop) (P : B → Prop) (c : M A)
    (k : A → M B) :
  yields Q c → (∀ x, Q x → yields P (k x)) → yields P (bind c k).
Proof.
  intros Hc H m. unfold bind. specialize (Hc m).
  destruct (c m) as [x m1]. by apply H.
Qed.

Lemma yields_interact_bind {A B} (P : B → Prop) e (answer : nat → A)
    (k : A → M B) :
  (∀ n, yields P (k (answer n))) → yields P (bind (interact w e answer) k).
Proof. intros H m. unfold bind. cbn [interact]. apply H. Qed.

Lemma yields_running_bind {B} (P : B → Prop) (k : bool → M B) :
  (∀ n, yields P (k (automation_running w n))) →
  yields P (bind (running w) k).
Proof. intros H m. unfold bind. cbn [running]. apply H. Qed.

End Yields.

Ltac yields_step :=
  lazymatch goal with
  | |- yields _ (Env.bind (running _) _) =>
      apply yields_running_bind; intros ?
  | |- yields _ (Env.bind (interact _ _ _) _) =>
      apply yields_interact_bind; intros ?
  | |- yields _ (Env.bind _ _) => apply yields_bind; intros ?
  | |- yields _ (ret _) => apply yields_ret
  | |- yields _ (if ?b then _ else _) => destruct b eqn:?
  | |- yields _ (match ?x with _ => _ end) => destruct x eqn:?
  end.

Ltac yields_auto :=
  unfold github_get_run_status, github_get_run_logs,
    github_create_or_update_file, github_get_workflow_runs,
    claude_fix_build_errors;
  repeat yields_step.

Lemma bind_eq {A B} (c : M A) (k : A → M B) m x m1 :
  c m = (x, m1) → bind c k m = k x m1.
Proof. intros H. unfold bind. by rewrite H. Qed.

(** Runs the primitive steps at the head of a computation. *)
Ltac run_prims :=
  cbv beta iota zeta delta
    [bind running time log claude_log emit github_get_run_status
     github_get_run_logs github_create_or_update_file interact
     update_status sleep ret get_attempt set_attempt];
  cbn [tick clock attempt trace negb fst snd].

Section Results.
Variable w : World.
Variable max_attempts : Z.

Lemma wait_for_completion_unfold fuel timeout run_id start_time :
  wait_for_completion w (S fuel) timeout run_id start_time =
  (let* r := running w in
   if negb r then ret (Some tt) else
   let* now := time in
   if timeout <? now - start_time then
     log "Build timeout reached" "WARNING" ;;; ret (Some tt)
   else
     let* st := github_get_run_status w run_id in
     if get_is (status st) "completed" then ret (Some tt) else
     let* now := time in
     update_status
       ("Build running... (" +:+ pretty (now - start_time) +:+ "s)") "blue" ;;;
     sleep w 10 ;;;
     wait_for_completion w fuel timeout run_id start_time).
Proof. reflexivity. Qed.

(** The inner loop returns once the clock has passed the timeout; each
    pass that does not return sleeps ten seconds. *)
Lemma wait_for_completion_returns timeout run_id start_time fuel : ∀ m,
  timeout - (clock m - start_time) < 10 * Z.of_nat fuel →
  (wait_for_completion w (S fuel) timeout run_id start_time m).1 = Some tt.
Proof.
  induction fuel as [|fuel IH]; intros m Hm;
    rewrite wait_for_completion_unfold; run_prims;
    (destruct (automation_running w (tick m)); run_prims; [|done]);
    (destruct (Z.ltb_spec timeout (clock m - start_time)); run_prims;
     [done|]);
    try lia;
    (destruct (get_is _ "completed"); run_prims; [done|]).
  apply IH. cbn [clock]. lia.
Qed.

Lemma yields_timed_wait {B} (P : B → Prop) fuel timeout run_id
    (k : option unit → M B) :
  timeout < 10 * Z.of_nat fuel →
  yields P (k (Some tt)) →
  yields P (let* start_time := time in
            let* waited :=
              wait_for_completion w (S fuel) timeout run_id start_time in
            k waited).
Proof.
  intros Hf Hk m. unfold bind at 1, time. unfold bind.
  pose proof (wait_for_completion_returns timeout run_id (clock m) fuel m)
    as H.
  destruct (wait_for_completion w (S fuel) timeout run_id (clock m) m)
    as [r m1]. cbn in H. rewrite H by lia. apply Hk.
Qed.

Lemma conclude_round_control a fixes st :
  yields (λ r, round_control r.1) (conclude_round w max_attempts a fixes st).
Proof.
  unfold conclude_round, round_control. destruct st as [files updated].
  yields_auto; cbn; auto.
Qed.

Lemma apply_fixes_control fixes files :
  yields (λ r, round_control r.1) (apply_fixes w max_attempts fixes files).
Proof.
  unfold apply_fixes. yields_auto. apply conclude_round_control.
Qed.

Lemma remediate_control run_id files :
  yields (λ r, round_control r.1) (remediate w max_attempts run_id files).
Proof.
  unfold remediate. yields_auto;
    try apply apply_fixes_control; unfold round_control; cbn; auto.
Qed.

Lemma monitor_run_result fuel cfg attempt files latest_run :
  default 300 (github_timeout cfg) < 10 * Z.of_nat fuel →
  yields (pass_result w)
    (monitor_run w (S fuel) cfg max_attempts attempt files latest_run).
Proof.
  intros Hf. unfold monitor_run.
  apply yields_bind; intros _. apply yields_bind; intros _.
  apply yields_timed_wait; [done|].
  apply yields_running_bind; intros n.
  destruct (automation_running w n) eqn:Hn; cbn [negb].
  2: { apply yields_ret. eexists _, _. split; [done|]. split; [auto|].
       intros Hr. by rewrite Hr in Hn. }
  unfold github_get_run_status. apply yields_interact_bind; intros k.
  destruct (get_is _ "success").
  { repeat yields_step. eexists _, _. split; [done|]. split; [auto|done]. }
  destruct (_ || _).
  - apply (yields_bind_with _ _ _ _ (remediate_control _ _)).
    intros [c f] Hc. apply yields_ret. eexists _, _. split; [done|].
    split; [auto|]. intros _ ->. unfold round_control in Hc.
    cbn in Hc. destruct Hc as [?|[?|?]]; discriminate.
  - repeat yields_step. eexists _, _. split; [done|].
    unfold round_control. split; [auto|done].
Qed.

Lemma iteration_result fuel cfg files m :
  default 300 (github_timeout cfg) < 10 * Z.of_nat fuel →
  pass_result w (iteration w (S fuel) cfg max_attempts files m).1.
Proof.
  intros Hf. rewrite iteration_runs.
  destruct (get_workflow_runs w (S (tick m))) as [|latest_run ?].
  - cbn. eexists _, _. split; [done|]. unfold round_control.
    split; [auto|done].
  - by apply monitor_run_result.
Qed.

End Results.


(** *** The whole loop *)

Section Loop.
Variable w : World.
Variable max_attempts : Z.

Lemma discovery_stamps_app t1 t2 :
  discovery_stamps (t1 ++ t2) = discovery_stamps t1 ++ discovery_stamps t2.
Proof.
  induction t1 as [|[a e] t1 IH]; [done|].
  destruct e; cbn; by rewrite ?IH.
Qed.

Lemma discovery_stamps_round (P : Z * Event → Prop) evs :
  Forall (λ se, P se ∧ round_event max_attempts se.1 se.2) evs →
  discovery_stamps evs = [].
Proof.
  induction 1 as [|[a e] evs [_ He] _ IH]; [done|].
  destruct e; cbn in *; done.
Qed.

Lemma round_loop_event a e :
  round_event max_attempts a e → loop_event max_attempts a e.
Proof. by destruct e. Qed.

Lemma loop_extends_refl m : loop_extends max_attempts m m.
Proof.
  split; [lia|]. exists []. rewrite app_nil_r, Z.sub_diag.
  by repeat split.
Qed.

Lemma loop_extends_same m1 m2 m' :
  attempt m1 = attempt m2 → trace m1 = trace m2 →
  loop_extends max_attempts m1 m' → loop_extends max_attempts m2 m'.
Proof. unfold loop_extends. by intros -> ->. Qed.

Lemma loop_extends_trans m1 m2 m3 :
  loop_extends max_attempts m1 m2 → loop_extends max_attempts m2 m3 →
  loop_extends max_attempts m1 m3.
Proof.
  intros [Ha (e1 & Ht1 & F1 & D1)] [Hb (e2 & Ht2 & F2 & D2)].
  split; [lia|]. exists (e1 ++ e2).
  split; [by rewrite Ht2, Ht1, app_assoc|]. split.
  - apply Forall_app. split.
    + eapply Forall_impl; [exact F1|]. cbn. intros ? [? ?].
      split; [lia|done].
    + eapply Forall_impl; [exact F2|]. cbn. intros ? [? ?].
      split; [lia|done].
  - rewrite discovery_stamps_app, D1, D2.
    replace (attempt m3 - attempt m1)
      with ((attempt m2 - attempt m1) + (attempt m3 - attempt m2)) by lia.
    rewrite seqZ_app by lia. do 2 f_equal. lia.
Qed.

Lemma loop_extends_pass fuel cfg files m :
  loop_extends max_attempts m
    (iteration w fuel cfg max_attempts files m).2.
Proof.
  destruct (iteration_extends w max_attempts fuel cfg files m)
    as [Ha (post & Ht & F)].
  cbn [after_discovery attempt trace] in *.
  split; [lia|]. eexists. split.
  { rewrite Ht, <- app_assoc. reflexivity. }
  rewrite Ha. split.
  - apply Forall_app. split.
    + repeat constructor; cbn; lia.
    + eapply Forall_impl; [exact F|]. cbn. intros [s e] [-> He].
      split; [cbn; lia|by apply round_loop_event].
  - rewrite discovery_stamps_app, (discovery_stamps_round _ _ F).
    replace (attempt m + 1 - attempt m) with 1 by lia.
    rewrite seqZ_cons, seqZ_nil by lia. reflexivity.
Qed.

Lemma fix_loop_unfold rounds fuel cfg files m :
  fix_loop w (S rounds) fuel cfg max_attempts files m =
  if negb (attempt m <? max_attempts)
  then (Some (ConditionFalse, files), m)
  else if negb (automation_running w (tick m))
  then (Some (ConditionFalse, files), ticked m)
  else
    match iteration w fuel cfg max_attempts files (ticked m) with
    | (None, m') => (None, m')
    | (Some (Break why, files'), m') => (Some (why, files'), m')
    | (Some (Continue, files'), m') =>
        fix_loop w rounds fuel cfg max_attempts files' m'
    end.
Proof.
  cbn [fix_loop]. unfold bind at 1, get_attempt.
  destruct (negb (attempt m <? max_attempts)); [done|].
  unfold bind at 1, running. fold (ticked m).
  destruct (negb (automation_running w (tick m))); [done|].
  unfold bind at 1.
  destruct (iteration w fuel cfg max_attempts files (ticked m))
    as [[[[|why] files']|] m']; reflexivity.
Qed.

Lemma fix_loop_extends fuel cfg rounds : ∀ files m,
  loop_extends max_attempts m
    (fix_loop w rounds fuel cfg max_attempts files m).2.
Proof.
  induction rounds as [|rounds IH]; intros files m;
    [apply loop_extends_refl|].
  rewrite fix_loop_unfold.
  destruct (negb (attempt m <? max_attempts)); [apply loop_extends_refl|].
  destruct (negb (automation_running w (tick m))).
  { apply (loop_extends_same (ticked m)); [done..|].
    apply loop_extends_refl. }
  pose proof (loop_extends_pass fuel cfg files (ticked m)) as Hp.
  apply (loop_extends_same (ticked m) m) in Hp; [|done..].
  destruct (iteration w fuel cfg max_attempts files (ticked m))
    as [[[[|why] files']|] m']; cbn [snd] in *; try done.
  eapply loop_extends_trans; [exact Hp|apply IH].
Qed.

(** With enough passes and enough polls the loop returns; [attempt] has
    not gone beyond the maximum; if nobody clears the flag, the loop
    does not end as stopped. *)
Lemma fix_loop_result fuel cfg rounds : ∀ files m,
  default 300 (github_timeout cfg) < 10 * Z.of_nat fuel →
  Z.max 0 (max_attempts - attempt m) < Z.of_nat rounds →
  let r := fix_loop w rounds (S fuel) cfg max_attempts files m in
  ∃ e files', r.1 = Some (e, files')
    ∧ attempt r.2 ≤ Z.max (attempt m) max_attempts
    ∧ ((∀ n, automation_running w n = true) →
       terminal max_attempts (attempt r.2) e ≠ Stopped).
Proof.
  induction rounds as [|rounds IH]; intros files m Hf Hr; [lia|].
  cbv zeta. rewrite fix_loop_unfold.
  destruct (Z.ltb_spec (attempt m) max_attempts) as [Hlt|Hge]; cbn [negb].
  2: { eexists _, _. split; [done|]. split; [cbn; lia|]. intros _.
       cbn. by destruct (Z.leb_spec max_attempts (attempt m)); [|lia]. }
  destruct (automation_running w (tick m)) eqn:Hrun; cbn [negb].
  2: { eexists _, _. split; [done|]. split; [cbn; lia|].
       intros Hall. by rewrite Hall in Hrun. }
  pose proof (iteration_result w max_attempts fuel cfg files (ticked m) Hf)
    as (c & files' & Hres & Hc & Hstop).
  pose proof (iteration_attempt w max_attempts (S fuel) cfg files (ticked m))
    as Ha.
  destruct (iteration w (S fuel) cfg max_attempts files (ticked m))
    as [res m']. cbn [fst snd ticked attempt] in *. subst res.
  destruct c as [|why].
  - destruct (IH files' m' Hf) as (e & f & He & Hb & Ht); [lia|].
    eexists _, _. split; [exact He|]. split; [lia|exact Ht].
  - eexists _, _. split; [done|]. split; [cbn; lia|].
    intros Hall. specialize (Hstop Hall). cbn [snd].
    destruct Hc as [[?|[?|?]]|[?|?]]; simplify_eq; done.
Qed.

Lemma monitor_unfold fuel cfg files m :
  max_attempts = default 5 (max_fix_attempts cfg) →
  monitor_and_fix_with_claude w fuel cfg files m =
  match fix_loop w fuel fuel cfg max_attempts files (restarted m) with
  | (None, m') => (None, m')
  | (Some r, m') =>
      ((if max_attempts <=? attempt m' then
          log ("Max attempts (" +:+ pretty max_attempts +:+ ") reached") "ERROR" ;;;
          claude_log "Maximum fix attempts reached. Manual intervention may be required." ;;;
          update_status "Build failed - manual intervention needed" "red" ;;;
          claude_log (summary (attempt m') max_attempts)
        else ret tt) ;;; ret (Some r)) m'
  end.
Proof.
  intros ->. unfold monitor_and_fix_with_claude.
  unfold bind at 1, set_attempt. fold (restarted m). unfold bind at 1.
  destruct (fix_loop w fuel fuel cfg _ files (restarted m)) as [[r|] m'];
    reflexivity.
Qed.

Lemma monitor_extends fuel cfg files m :
  max_attempts = default 5 (max_fix_attempts cfg) →
  loop_extends max_attempts (restarted m)
    (monitor_and_fix_with_claude w fuel cfg files m).2.
Proof.
  intros Hmax. rewrite (monitor_unfold _ _ _ _ Hmax).
  pose proof (fix_loop_extends fuel cfg fuel files (restarted m)) as Hl.
  destruct (fix_loop w fuel fuel cfg max_attempts files (restarted m))
    as [[r|] m']; cbn [snd] in *; [|done].
  eapply loop_extends_trans; [exact Hl|].
  assert (keeps_at (λ _ e, benign e) (attempt m')
    ((if max_attempts <=? attempt m' then
        log ("Max attempts (" +:+ pretty max_attempts +:+ ") reached") "ERROR" ;;;
        claude_log "Maximum fix attempts reached. Manual intervention may be required." ;;;
        update_status "Build failed - manual intervention needed" "red" ;;;
        claude_log (summary (attempt m') max_attempts)
      else ret tt) ;;; ret (Some r))) as Hk by (keeps_auto; done).
  destruct (Hk m' eq_refl) as [Ha (evs & Ht & F)].
  split; [lia|]. exists evs. split; [done|]. rewrite Ha, Z.sub_diag. split.
  - eapply Forall_impl; [exact F|]. cbn. intros [s e] [-> He].
    split; [cbn; lia|by destruct e].
  - clear -F. induction F as [|[s e] evs [_ He] _ IH]; [done|].
    by destruct e.
Qed.

End Loop.

End LoopFacts.

(** ** The claims about the loop *)

Module LoopClaims.
Import Str Re ClaudeCoordinator GitHubAPI Env BuildAutomationGUI LoopSpec
  Scenarios LoopFacts.

Lemma iteration_discovery w max_attempts fuel cfg files m :
  discovery_stamps (trace (iteration w fuel cfg max_attempts files m).2)
  = discovery_stamps (trace m) ++ [attempt m + 1].
Proof.
  destruct (loop_extends_pass w max_attempts fuel cfg files m)
    as [_ (evs & -> & _ & D)].
  rewrite discovery_stamps_app, D, iteration_attempt.
  replace (attempt m + 1 - attempt m) with 1 by lia.
  by rewrite seqZ_cons, seqZ_nil by lia.
Qed.

Lemma monitor_result w cfg files fuel m :
  enough_fuel cfg fuel →
  let max_attempts := default 5 (max_fix_attempts cfg) in
  let r := monitor_and_fix_with_claude w fuel cfg files m in
  ∃ e files', r.1 = Some (e, files')
    ∧ attempt r.2 ≤ Z.max 0 max_attempts
    ∧ ((∀ n, automation_running w n = true) →
       terminal max_attempts (attempt r.2) e ≠ Stopped).
Proof.
  intros (Hpos & Hmax & Htime). cbv zeta.
  rewrite (monitor_unfold w _ fuel cfg files m eq_refl).
  destruct fuel as [|fuel]; [lia|].
  destruct (fix_loop_result w (default 5 (max_fix_attempts cfg)) fuel cfg
              (S fuel) files (restarted m))
    as (e & files' & He & Hb & Ht); [lia|cbn [restarted attempt]; lia|].
  destruct (fix_loop _ _ _ _ _ _ _) as [res m']. cbn [fst snd] in *.
  subst res. cbn [restarted attempt] in Hb.
  assert (keeps_at (λ _ e, benign e) (attempt m')
    ((if default 5 (max_fix_attempts cfg) <=? attempt m' then
        log ("Max attempts (" +:+ pretty (default 5 (max_fix_attempts cfg))
             +:+ ") reached") "ERROR" ;;;
        claude_log "Maximum fix attempts reached. Manual intervention may be required." ;;;
        update_status "Build failed - manual intervention needed" "red" ;;;
        claude_log (summary (attempt m') (default 5 (max_fix_attempts cfg)))
      else ret tt) ;;; ret (Some (e, files')))) as Hk by (keeps_auto; done).
  destruct (Hk m' eq_refl) as [Ha _].
  assert (yields (λ r, r = Some (e, files'))
    ((if default 5 (max_fix_attempts cfg) <=? attempt m' then
        log ("Max attempts (" +:+ pretty (default 5 (max_fix_attempts cfg))
             +:+ ") reached") "ERROR" ;;;
        claude_log "Maximum fix attempts reached. Manual intervention may be required." ;;;
        update_status "Build failed - manual intervention needed" "red" ;;;
        claude_log (summary (attempt m') (default 5 (max_fix_attempts cfg)))
      else ret tt) ;;; ret (Some (e, files')))) as Hy
    by (apply yields_bind; intros _; by apply yields_ret).
  specialize (Hy m'). cbn beta in Hy.
  exists e, files'. rewrite Ha. by repeat split.
Qed.

(** C6: every pass of the loop adds exactly one to [attempt]; with enough
    fuel the loop returns, for every environment; the values of [attempt]
    at the run-discovery queries, one query a pass, are 1, 2, ... up to
    the final value, which is at most [max_attempts]; and if nobody stops
    the run, it ends as Success or as Exhausted. *)
Theorem loop_terminates_within_max_attempts
    (w : World) (cfg : Config) (files : gmap string string) (fuel : nat)
    (m : Machine) :
  enough_fuel cfg fuel →
  let max_attempts := default 5 (max_fix_attempts cfg) in
  let r := monitor_and_fix_with_claude w fuel cfg files m in
  (∀ fuel' files' m',
     attempt (iteration w fuel' cfg max_attempts files' m').2 = attempt m' + 1)
  ∧ ∃ e files', r.1 = Some (e, files')
      ∧ 0 ≤ attempt r.2 ≤ Z.max 0 max_attempts
      ∧ discovery_stamps (trace r.2)
        = discovery_stamps (trace m) ++ seqZ 1 (attempt r.2)
      ∧ ((∀ n, automation_running w n = true) →
         terminal max_attempts (attempt r.2) e = Success
         ∨ terminal max_attempts (attempt r.2) e = Exhausted).
Proof.
  intros Hfuel. cbv zeta. split.
  { intros. apply iteration_attempt. }
  destruct (monitor_result w cfg files fuel m Hfuel)
    as (e & files' & He & Hb & Ht).
  destruct (monitor_extends w _ fuel cfg files m eq_refl)
    as [Ha (evs & Hev & _ & D)].
  cbn [restarted attempt trace] in *.
  exists e, files'. split; [done|]. split; [lia|]. split.
  - rewrite Hev, discovery_stamps_app, D. do 2 f_equal; lia.
  - intros Hrun. specialize (Ht Hrun).
    destruct (terminal _ _ e); auto. done.
Qed.

Lemma loop_terminates_within_max_attempts_witness :
  ∃ e files',
    (monitor_and_fix_with_claude hanging_world 40 default_config published
       initial).1 = Some (e, files')
    ∧ (terminal 5
         (attempt (monitor_and_fix_with_claude hanging_world 40
                     default_config published initial).2) e = Success
       ∨ terminal 5
           (attempt (monitor_and_fix_with_claude hanging_world 40
                       default_config published initial).2) e = Exhausted).
Proof.
  assert (enough_fuel default_config 40) as H
    by (unfold enough_fuel; cbn; lia).
  destruct (loop_terminates_within_max_attempts hanging_world default_config
              published 40 initial H)
    as (_ & e & files' & He & _ & _ & Ht).
  exists e, files'. split; [exact He|]. apply Ht. intros n. reflexivity.
Defined.


(** *** What the loop writes and asks *)

(** The events of a whole run of the loop are events of the loop. *)
Lemma monitor_events w cfg files fuel m :
  let max_attempts := default 5 (max_fix_attempts cfg) in
  ∃ evs,
    trace (monitor_and_fix_with_claude w fuel cfg files m).2 = trace m ++ evs
    ∧ Forall (λ se, loop_event max_attempts se.1 se.2) evs.
Proof.
  destruct (monitor_extends w _ fuel cfg files m eq_refl)
    as [_ (evs & Hev & F & _)].
  exists evs. split; [exact Hev|].
  eapply Forall_impl; [exact F|]. by intros ? [_ ?].
Qed.

Lemma conclude_round_code_changes w max_attempts a fixes cc st :
  a ≠ max_attempts - 1 →
  conclude_round w max_attempts a (with_code_changes fixes cc) st
  = conclude_round w max_attempts a fixes st.
Proof.
  intros Ha. unfold conclude_round. destruct st as [files updated].
  apply Z.eqb_neq in Ha. by rewrite Ha, !andb_false_r.
Qed.

Lemma apply_fixes_code_changes w max_attempts fixes cc files m :
  attempt m ≠ max_attempts - 1 →
  apply_fixes w max_attempts (with_code_changes fixes cc) files m
  = apply_fixes w max_attempts fixes files m.
Proof.
  intros Ha. unfold apply_fixes. unfold bind at 1 5, get_attempt.
  unfold bind.
  change (update_build_files w (with_code_changes fixes cc))
    with (update_build_files w fixes).
  cbn [diagnosis with_code_changes].
  destruct (log _ _ m) as [? m1].
  destruct (claude_log _ m1) as [? m2].
  destruct (update_build_files w fixes (attempt m) files m2) as [st m3].
  by rewrite conclude_round_code_changes.
Qed.

(** C2: below [max_attempts - 1] the steps that apply a fix result do
    the same, to the last event, whatever the proposed code changes are;
    and in every run of the loop, at every attempt, each write goes to one
    of the three build file paths and a proposed code change is at most
    shown in the log, at attempt [max_attempts - 1]. *)
Theorem code_changes_are_never_applied
    (w : World) (cfg : Config) (fuel : nat)
    (fixes : FixResult) (cc : option (list (string * CodeChange)))
    (files : gmap string string) (m : Machine) :
  let max_attempts := default 5 (max_fix_attempts cfg) in
  attempt m < max_attempts - 1 →
  apply_fixes w max_attempts (with_code_changes fixes cc) files m
  = apply_fixes w max_attempts fixes files m
  ∧ ∃ evs,
      trace (monitor_and_fix_with_claude w fuel cfg files m).2
      = trace m ++ evs
      ∧ ∀ a e, In (a, e) evs →
          match e with
          | CreateOrUpdateFile path _ _ => In path build_file_paths
          | ClaudeLogCodeChange _ _ => a = max_attempts - 1
          | _ => True
          end.
Proof.
  cbv zeta. intros Ha. split.
  { apply apply_fixes_code_changes. lia. }
  destruct (monitor_events w cfg files fuel m) as (evs & Hev & F).
  exists evs. split; [exact Hev|]. intros a e Hin.
  rewrite Forall_forall in F. apply list_elem_of_In, F in Hin.
  by destruct e.
Qed.

Lemma code_changes_are_never_applied_witness :
  apply_fixes failing_world 5
    (with_code_changes workflow_fix
       (Some [("src/main.cpp",
               {| action := "replace"; find := "curl/curl.h";
                  replace := "curl.h"; line_number := Some 1;
                  explanation := "header path" |})]))
    published (restarted initial)
  = apply_fixes failing_world 5 workflow_fix published (restarted initial).
Proof.
  assert (attempt (restarted initial)
          < default 5 (max_fix_attempts default_config) - 1) as H
    by (cbn; lia).
  exact (proj1 (code_changes_are_never_applied failing_world default_config
                  40 workflow_fix _ published (restarted initial) H)).
Defined.

(** Every request the loop makes to the advisor is a fix request without
    source context, at every attempt and in every environment. *)
Lemma loop_requests_without_context w cfg files fuel m :
  ∃ evs,
    trace (monitor_and_fix_with_claude w fuel cfg files m).2 = trace m ++ evs
    ∧ ∀ a r, In (a, MessagesCreate r) evs → request_context r = Some "".
Proof.
  destruct (monitor_events w cfg files fuel m) as (evs & Hev & F).
  exists evs. split; [exact Hev|]. intros a r Hin.
  rewrite Forall_forall in F. by apply list_elem_of_In, F in Hin.
Qed.

(** C3 fails on the code: the loop calls the fix operation without the
    source files, so no request carries a snippet.  In the run below every
    build fails with a compiler diagnostic for src/main.cpp; the requests
    of attempts 3, 4 and 5 have an empty source context, while the fix
    operation, given the source files, would have included a snippet. *)
Theorem fix_requests_carry_no_snippets :
  map (λ ar, (ar.1, request_context ar.2))
    (advisor_requests
       (trace (monitor_and_fix_with_claude failing_world 40 (config 5 300)
                 published initial).2))
  = [(1, Some ""); (2, Some ""); (3, Some ""); (4, Some ""); (5, Some "")]
  ∧ findall_diagnostics compiler_log = ["src/main.cpp"]
  ∧ source_context compiler_log 3 None = ""
  ∧ source_context compiler_log 3 (Some sources)
    = nl +:+ "=== src/main.cpp (snippet) ===" +:+ nl +:+ Spec.curl_main
      +:+ nl +:+ "..." +:+ nl
  ∧ source_context compiler_log 2 (Some sources) = "".
Proof. vm_compute. done. Qed.

Lemma update_if_needed_other w changes announce path key message st k :
  key ≠ k →
  yields (λ st', st'.1 !! k = st.1 !! k)
    (update_if_needed w changes announce path key message st).
Proof.
  intros Hk. unfold update_if_needed. yields_auto; cbn; try done.
  by rewrite lookup_insert_ne.
Qed.

Lemma update_build_files_other w fixes a files k :
  "vcpkg.json" ≠ k → "CMakeLists.txt" ≠ k → "workflow.yml" ≠ k →
  yields (λ st, st.1 !! k = files !! k) (update_build_files w fixes a files).
Proof.
  intros H1 H2 H3. unfold update_build_files.
  eapply yields_bind_with; [by apply update_if_needed_other|].
  intros st1 E1. eapply yields_bind_with; [by apply update_if_needed_other|].
  intros st2 E2. intros m.
  pose proof (update_if_needed_other w (workflow_changes fixes)
    "Updating workflow..." ".github/workflows/build.yml" "workflow.yml"
    ("Claude fix " +:+ pretty a +:+ ": Update workflow") st2 k H3 m) as E3.
  cbn in *. congruence.
Qed.

Lemma conclude_round_files w max_attempts a fixes st :
  yields (λ r, r.2 = st.1) (conclude_round w max_attempts a fixes st).
Proof. unfold conclude_round. destruct st. yields_auto; done. Qed.

(** C1 fails on the code: the workflow is first published, and kept in
    [current_files], under the key .github/workflows/build.yml, while an
    accepted workflow fix is written to that path but stored under the key
    workflow.yml.  So the steps that apply a fix result leave the entry
    .github/workflows/build.yml as it was, whatever the fix result holds
    and whatever the repository answers.  In the run below the advisor is
    unreachable for the analysis and the generation, so the three fallback
    files are published; the first build fails and the advisor's fix
    replaces the workflow; the write succeeds.  The live mapping then has
    four entries: the new workflow under workflow.yml and still the old
    one under .github/workflows/build.yml. *)
Theorem workflow_fix_leaves_stale_entry :
  (∀ w max_attempts fixes files,
     yields (λ r, r.2 !! ".github/workflows/build.yml"
                  = files !! ".github/workflows/build.yml")
       (apply_fixes w max_attempts fixes files))
  ∧ let r := run_claude_automation failing_world 40 (config 2 300) "demo"
               sources initial in
    final_exit r = Some ConditionFalse
    ∧ size (final_files r) = 4%nat
    ∧ final_files r !! ".github/workflows/build.yml" = Some fallback_workflow
    ∧ final_files r !! "workflow.yml" = Some "name: Build (fixed)"
    ∧ writes (trace r.2)
      = [(0, "vcpkg.json"); (0, "CMakeLists.txt");
         (0, ".github/workflows/build.yml");
         (1, ".github/workflows/build.yml");
         (2, ".github/workflows/build.yml")].
Proof.
  split.
  { intros. unfold apply_fixes. apply yields_bind; intros x.
    do 2 (apply yields_bind; intros _).
    eapply yields_bind_with;
      [by apply (update_build_files_other _ _ _ _
                   ".github/workflows/build.yml")|].
    intros st E m.
    pose proof (conclude_round_files w max_attempts x fixes st m) as E'.
    cbn in *. congruence. }
  vm_compute. repeat split.
Qed.

(** *** When no run is listed *)

(** C4, as stated, fails: in the run below the first run-discovery query,
    made at attempt 1, is answered by the empty list; the next query is
    made at attempt 2. *)
Lemma empty_run_list_consumes_an_attempt :
  get_workflow_runs late_world 2 = []
  ∧ take 12 (trace (monitor_and_fix_with_claude late_world 40 (config 5 300)
                      published initial).2)
    = [(1, Log "Build attempt 1/5" "INFO");
       (1, ClaudeLog "Monitoring build attempt 1...");
       (1, UpdateStatus "Waiting for GitHub Actions (attempt 1)..." "blue");
       (1, Sleep 15);
       (1, GetWorkflowRuns);
       (1, Log "No workflow runs found, waiting..." "WARNING");
       (1, Sleep 10);
       (2, Log "Build attempt 2/5" "INFO");
       (2, ClaudeLog "Monitoring build attempt 2...");
       (2, UpdateStatus "Waiting for GitHub Actions (attempt 2)..." "blue");
       (2, Sleep 15);
       (2, GetWorkflowRuns)]
  ∧ discovery_stamps
      (trace (monitor_and_fix_with_claude late_world 40 (config 5 300)
                published initial).2) = [1; 2].
Proof. vm_compute. done. Qed.

(** C4, as amended: when the run-discovery query of a pass is answered by
    the empty list, the pass logs a warning, sleeps ten seconds after the
    fifteen it slept before the query, and ends at its [continue] with the
    build files as they were; the attempt is consumed: the query was made
    at [attempt + 1], and the query of the next pass is made at
    [attempt + 2]. *)
Theorem empty_run_list_retries_at_next_attempt
    (w : World) (fuel fuel' : nat) (cfg cfg' : Config) (max_attempts : Z)
    (files files' : gmap string string) (m : Machine) :
  get_workflow_runs w (S (tick m)) = [] →
  let r := iteration w fuel cfg max_attempts files m in
  r.1 = Some (Continue, files)
  ∧ attempt r.2 = attempt m + 1
  ∧ trace r.2
    = trace (after_discovery w max_attempts m)
      ++ [(attempt m + 1, Log "No workflow runs found, waiting..." "WARNING");
          (attempt m + 1, Sleep 10)]
  ∧ clock m + 25 ≤ clock r.2
  ∧ discovery_stamps (trace r.2) = discovery_stamps (trace m) ++ [attempt m + 1]
  ∧ discovery_stamps
      (trace (iteration w fuel' cfg' max_attempts files' r.2).2)
    = discovery_stamps (trace m) ++ [attempt m + 1; attempt m + 2].
Proof.
  intros Hruns. cbv zeta.
  assert (discovery_stamps (trace (iteration w fuel cfg max_attempts files m).2)
          = discovery_stamps (trace m) ++ [attempt m + 1]) as Hd
    by apply iteration_discovery.
  assert (attempt (iteration w fuel cfg max_attempts files m).2
          = attempt m + 1) as Ha by apply iteration_attempt.
  split; [|split; [exact Ha|split; [|split; [|split; [exact Hd|]]]]].
  - rewrite iteration_runs, Hruns. reflexivity.
  - rewrite iteration_runs, Hruns. run_prims. by rewrite <- app_assoc.
  - rewrite iteration_runs, Hruns. run_prims.
    unfold after_discovery. cbn [clock]. lia.
  - rewrite iteration_discovery, Hd, Ha, <- app_assoc.
    by replace (attempt m + 1 + 1) with (attempt m + 2) by lia.
Qed.

Lemma empty_run_list_retries_at_next_attempt_witness :
  (iteration late_world 40 (config 5 300) 5 published
     (ticked (restarted initial))).1 = Some (Continue, published).
Proof.
  exact (proj1 (empty_run_list_retries_at_next_attempt late_world 40 40
                  (config 5 300) (config 5 300) 5 published published
                  (ticked (restarted initial)) eq_refl)).
Defined.

(** *** When the run does not complete *)

Section Timeout.
Variable w : World.
Hypothesis never_stopped : ∀ n, automation_running w n = true.
Hypothesis never_completed :
  ∀ n run_id, get_is (status (get_run_status w n run_id)) "completed" = false.
Hypothesis never_concluded :
  ∀ n run_id, conclusion (get_run_status w n run_id) = None.

Lemma wait_for_completion_times_out timeout run_id start_time fuel : ∀ m,
  timeout - (clock m - start_time) < 10 * Z.of_nat fuel →
  let r := wait_for_completion w (S fuel) timeout run_id start_time m in
  r.1 = Some tt
  ∧ attempt r.2 = attempt m
  ∧ ∃ evs,
      trace r.2 = trace m ++ evs
                  ++ [(attempt m, Log "Build timeout reached" "WARNING")]
      ∧ Forall (λ se, se.1 = attempt m ∧ benign se.2) evs.
Proof.
  induction fuel as [|fuel IH]; intros m Hm; cbv zeta;
    rewrite wait_for_completion_unfold; run_prims;
    rewrite never_stopped; run_prims;
    (destruct (Z.ltb_spec timeout (clock m - start_time)); run_prims;
     [split; [done|]; split; [done|]; by exists []|]);
    try lia.
  rewrite never_completed. run_prims.
  match goal with
  | |- context [wait_for_completion w (S fuel) _ _ _ ?m'] =>
      destruct (IH m') as (Hr & Ha & evs & Ht & F); [cbn [clock]; lia|]
  end.
  cbn [attempt trace] in *. split; [exact Hr|]. split; [exact Ha|].
  eexists ([_; _; _] ++ evs). split.
  - rewrite Ht, <- !app_assoc. reflexivity.
  - apply Forall_app. split; [|exact F]. by repeat constructor.
Qed.


Lemma monitor_run_times_out fuel cfg max_attempts a files latest_run m :
  default 300 (github_timeout cfg) < 10 * Z.of_nat fuel →
  ∃ m' evs,
    monitor_run w (S fuel) cfg max_attempts a files latest_run m
    = (Some (Continue, files), m')
    ∧ attempt m' = attempt m
    ∧ trace m'
      = trace m ++ evs
        ++ [(attempt m, Log "Build timeout reached" "WARNING");
            (attempt m, GetRunStatus (id latest_run));
            (attempt m, Log "Unknown build status: None" "WARNING")]
    ∧ Forall (λ se, se.1 = attempt m ∧ benign se.2) evs.
Proof.
  intros Hf. unfold monitor_run.
  erewrite bind_eq by reflexivity.
  match goal with
  | |- context [Env.bind ?c _ ?m0] =>
      assert (keeps_at (λ _ e, benign e) (attempt m) c) as K
        by (keeps_auto; done);
      destruct (K m0 eq_refl) as [Ha1 (evs1 & Ht1 & F1)];
      destruct (c m0) as [[] m1] eqn:E1;
      rewrite (bind_eq _ _ _ _ _ E1)
  end.
  cbn [snd attempt trace] in *.
  erewrite bind_eq by reflexivity.
  destruct (wait_for_completion_times_out
              (default 300 (github_timeout cfg)) (id latest_run) (clock m1)
              fuel m1) as (Hr & Ha2 & evs2 & Ht2 & F2); [lia|].
  destruct (wait_for_completion w (S fuel) _ _ _ m1) as [waited m2] eqn:E2.
  rewrite (bind_eq _ _ _ _ _ E2). cbn [fst snd] in *. subst waited.
  erewrite bind_eq by reflexivity. rewrite never_stopped. cbn [negb].
  unfold github_get_run_status.
  erewrite bind_eq by reflexivity. rewrite !never_concluded.
  cbn [get_is orb default]. run_prims.
  eexists _, ([_] ++ evs1 ++ evs2). split; [reflexivity|].
  cbn [attempt trace]. split; [congruence|]. split.
  - rewrite Ht2, Ht1, Ha2, Ha1, <- !app_assoc. reflexivity.
  - apply Forall_app. split; [by repeat constructor|].
    apply Forall_app. split; [exact F1|]. by rewrite <- Ha1.
Qed.

End Timeout.

(** C5, as stated, fails: in the run below the run never completes and
    the timeout is twenty seconds.  The first pass polls three times,
    warns that the timeout is reached, asks for the status once more and
    logs it as unknown; the second pass does the same; no log is fetched,
    the advisor is not asked and nothing is written. *)
Lemma timeout_skips_remediation :
  let r := monitor_and_fix_with_claude hanging_world 40 (config 2 20)
             published initial in
  final_exit r = Some ConditionFalse
  ∧ attempt r.2 = 2
  ∧ remediation_events (trace r.2) = []
  ∧ take 3 (drop 16 (trace r.2))
    = [(1, Log "Build timeout reached" "WARNING");
       (1, GetRunStatus 7);
       (1, Log "Unknown build status: None" "WARNING")]
  ∧ take 1 (drop 19 (trace r.2)) = [(2, Log "Build attempt 2/2" "INFO")].
Proof. vm_compute. repeat (split; [reflexivity|]). reflexivity. Qed.

(** C5, as amended: when a run is listed, never completes and has no
    conclusion, and nobody stops the worker, the pass returns (it neither
    hangs nor raises), with the build files as they were and at its end,
    so that the loop goes on to the next attempt if one is left; its last
    three events are the warning that the timeout is reached, the query
    for the status and the warning that the status is unknown; before
    them it only logs, sleeps and polls: it fetches no log, does not ask
    the advisor and writes nothing. *)
Theorem timeout_is_logged_as_unknown_status
    (w : World) (fuel : nat) (cfg : Config) (max_attempts : Z)
    (files : gmap string string) (m : Machine)
    (latest_run : Run) (others : list Run) :
  (∀ n, automation_running w n = true) →
  (∀ n run_id, get_is (status (get_run_status w n run_id)) "completed" = false) →
  (∀ n run_id, conclusion (get_run_status w n run_id) = None) →
  get_workflow_runs w (S (tick m)) = latest_run :: others →
  default 300 (github_timeout cfg) < 10 * Z.of_nat fuel →
  let r := iteration w (S fuel) cfg max_attempts files m in
  r.1 = Some (Continue, files)
  ∧ attempt r.2 = attempt m + 1
  ∧ ∃ evs,
      trace r.2
      = trace (after_discovery w max_attempts m) ++ evs
        ++ [(attempt m + 1, Log "Build timeout reached" "WARNING");
            (attempt m + 1, GetRunStatus (id latest_run));
            (attempt m + 1, Log "Unknown build status: None" "WARNING")]
      ∧ Forall (λ se, se.1 = attempt m + 1 ∧ benign se.2) evs.
Proof.
  intros Hrun Hstatus Hconclusion Hruns Hf. cbv zeta.
  rewrite iteration_runs, Hruns.
  destruct (monitor_run_times_out w Hrun Hstatus Hconclusion fuel cfg
              max_attempts (attempt m + 1) files latest_run
              (after_discovery w max_attempts m) Hf)
    as (m' & evs & -> & Ha & Ht & F).
  cbn [fst snd]. split; [done|]. split; [exact Ha|]. by exists evs.
Qed.

Lemma timeout_is_logged_as_unknown_status_witness :
  (iteration hanging_world 40 (config 2 20) 2 published
     (ticked (restarted initial))).1 = Some (Continue, published).
Proof.
  assert (∀ n, automation_running hanging_world n = true) as H1
    by (intros; reflexivity).
  assert (∀ n run_id,
            get_is (status (get_run_status hanging_world n run_id))
              "completed" = false) as H2 by (intros; reflexivity).
  assert (∀ n run_id,
            conclusion (get_run_status hanging_world n run_id) = None) as H3
    by (intros; reflexivity).
  assert (default 300 (github_timeout (config 2 20)) < 10 * Z.of_nat 39) as H4
    by (cbn; lia).
  exact (proj1 (timeout_is_logged_as_unknown_status hanging_world 39
                  (config 2 20) 2 published (ticked (restarted initial))
                  the_run [] H1 H2 H3 eq_refl H4)).
Defined.


End LoopClaims.

(** ** Rounds that update no build file *)

Module RoundClaims.
Import Str Re ClaudeCoordinator GitHubAPI Env BuildAutomationGUI LoopSpec
  Scenarios LoopFacts LoopMore Rounds.

(** *** Computations that end, or find an event *)

Section Finds.
Context {A R : Type}.
Variable F : Event → Prop.
Variable G : Z → Event → Prop.





End Finds.

Section Settles.
Context {A R : Type}.
Variable F N : Event → Prop.
Variable ends : R → Prop.






End Settles.

(** *** The failure branch at or past [max_attempts - 1] *)

Section Round.
Variable w : World.
Variable max_attempts : Z.

Let F := accepted w.











End Round.




End RoundClaims.

(** ** The loop: cost, frame and reports *)

Module LoopExtras.
Import Str ClaudeCoordinator GitHubAPI Env BuildAutomationGUI LoopSpec Scenarios.
Import LoopMore PublishMore LoopFacts.

(** *** Counting events *)

Section Spends.
Variable w : World.
Variable f : Event → bool.

Lemma count_app t1 t2 : count f (t1 ++ t2) = (count f t1 + count f t2)%nat.
Proof. induction t1 as [|se t1 IH]; cbn; [done|]. rewrite IH. lia. Qed.

Lemma count_event (t : list (Z * Event)) a e :
  count f (t ++ [(a, e)]) = (count f t + cost f e)%nat.
Proof. rewrite count_app. cbn. lia. Qed.

Lemma spends_weaken {A} n n' (c : M A) :
  (n ≤ n')%nat → spends f n c → spends f n' c.
Proof. intros Hn H m. specialize (H m). lia. Qed.

Lemma spends_ret {A} n (x : A) : spends f n (ret x).
Proof. intros m. cbn. lia. Qed.

Lemma spends_bind {A B} n1 n2 (c : M A) (k : A → M B) :
  spends f n1 c → (∀ x, spends f n2 (k x)) → spends f (n1 + n2) (bind c k).
Proof.
  intros Hc Hk m. unfold bind. specialize (Hc m).
  destruct (c m) as [x m1]. specialize (Hk x m1). cbn in *. lia.
Qed.

Lemma spends_bind_free {A B} n (c : M A) (k : A → M B) :
  spends f 0 c → (∀ x, spends f n (k x)) → spends f n (bind c k).
Proof. apply (spends_bind 0 n). Qed.

Lemma spends_bind_last {A B} n (c : M A) (k : A → M B) :
  spends f n c → (∀ x, spends f 0 (k x)) → spends f n (bind c k).
Proof.
  intros Hc Hk. apply (spends_weaken (n + 0)); [lia|]. by apply spends_bind.
Qed.

Lemma spends_bind_with {A B} (Q : A → Prop) n (c : M A) (k : A → M B) :
  yields Q c → spends f 0 c → (∀ x, Q x → spends f n (k x)) →
  spends f n (bind c k).
Proof.
  intros HQ Hc Hk m. unfold bind. specialize (Hc m). specialize (HQ m).
  destruct (c m) as [x m1]. specialize (Hk x HQ m1). cbn in *. lia.
Qed.

Lemma spends_emit n e : f e = false → spends f n (emit e).
Proof.
  intros He m. cbn [emit snd trace]. rewrite count_event.
  unfold cost. rewrite He. lia.
Qed.

Lemma spends_interact {A} n e (answer : nat → A) :
  f e = false → spends f n (interact w e answer).
Proof.
  intros He m. cbn [interact snd trace]. rewrite count_event.
  unfold cost. rewrite He. lia.
Qed.

Lemma spends_interact_bind {A B} n e (answer : nat → A) (k : A → M B) :
  f e = false → (∀ i, spends f n (k (answer i))) →
  spends f n (bind (interact w e answer) k).
Proof.
  intros He Hk m. unfold bind. cbn [interact].
  match goal with |- context [k _ ?m1] => specialize (Hk (tick m) m1) end.
  cbn [trace] in Hk. rewrite count_event in Hk. unfold cost in Hk.
  rewrite He in Hk. lia.
Qed.

Lemma spends_interact_bind_cost {A B} b n e (answer : nat → A)
    (k : A → M B) :
  (cost f e ≤ b)%nat → (∀ i, spends f n (k (answer i))) →
  spends f (b + n) (bind (interact w e answer) k).
Proof.
  intros He Hk m. unfold bind. cbn [interact].
  match goal with |- context [k _ ?m1] => specialize (Hk (tick m) m1) end.
  cbn [trace] in Hk. rewrite count_event in Hk. lia.
Qed.

Lemma spends_sleep n s : f (Sleep s) = false → spends f n (sleep w s).
Proof.
  intros He m. cbn [sleep snd trace]. rewrite count_event.
  unfold cost. rewrite He. lia.
Qed.

Lemma spends_time n : spends f n time.
Proof. intros m. cbn. lia. Qed.

Lemma spends_running n : spends f n (running w).
Proof. intros m. cbn. lia. Qed.

Lemma spends_running_bind {B} n (k : bool → M B) :
  (∀ i, spends f n (k (automation_running w i))) →
  spends f n (bind (running w) k).
Proof.
  intros Hk m. unfold bind. cbn [running].
  match goal with |- context [k _ ?m1] => specialize (Hk (tick m) m1) end.
  cbn [trace] in Hk. exact Hk.
Qed.

Lemma spends_get_attempt n : spends f n get_attempt.
Proof. intros m. cbn. lia. Qed.

Lemma spends_set_attempt n a : spends f n (set_attempt a).
Proof. intros m. cbn. lia. Qed.

End Spends.

(** An event that costs nothing: by computation, or because it is none of
    the requests of the failure branch. *)
Ltac spends_free :=
  first
    [ reflexivity
    | match goal with
      | H : failure_branch_only _ |- _ => apply H; exact I
      | H : requests_only _ |- _ => apply H; exact I
      end ].

Ltac spends_step :=
  lazymatch goal with
  | |- spends _ _ (Env.bind (running _) _) =>
      apply spends_running_bind; intros ?
  | |- spends _ _ (Env.bind (interact _ _ _) _) =>
      apply spends_interact_bind; [spends_free|intros ?]
  | |- spends _ _ (Env.bind _ _) => apply spends_bind_free; [|intros ?]
  | |- spends _ _ (ret _) => apply spends_ret
  | |- spends _ _ (emit _) => apply spends_emit; spends_free
  | |- spends _ _ (interact _ _ _) => apply spends_interact; spends_free
  | |- spends _ _ (sleep _ _) => apply spends_sleep; spends_free
  | |- spends _ _ time => apply spends_time
  | |- spends _ _ (running _) => apply spends_running
  | |- spends _ _ get_attempt => apply spends_get_attempt
  | |- spends _ _ (set_attempt _) => apply spends_set_attempt
  | |- spends _ _ (if ?b then _ else _) => destruct b eqn:?
  | |- spends _ _ (match ?x with _ => _ end) => destruct x eqn:?
  end.

Ltac spends_auto :=
  unfold log, claude_log, update_status, github_get_run_status,
    github_get_run_logs, github_create_or_update_file,
    github_get_workflow_runs;
  repeat spends_step.

Lemma free_quiet f : failure_branch_only f → requests_only f.
Proof. intros H e He. apply H. by destruct e. Qed.

Lemma free_poll f : failure_branch_only f → ∀ id, f (GetRunStatus id) = false.
Proof. intros H id. by apply H. Qed.

(** *** What the steps of a pass cost *)

Section Budget.
Variable w : World.
Variable max_attempts : Z.
Variable f : Event → bool.
Hypothesis f_quiet : requests_only f.

Lemma spends_wait_for_completion n fuel timeout run_id start_time :
  (∀ id, f (GetRunStatus id) = false) →
  spends f n (wait_for_completion w fuel timeout run_id start_time).
Proof.
  intros f_poll. induction fuel as [|fuel IH]; [apply spends_ret|].
  rewrite wait_for_completion_unfold.
  apply spends_running_bind; intros i. destruct (negb _); [apply spends_ret|].
  apply spends_bind_free; [apply spends_time|intros now].
  destruct (_ <? _); [spends_auto|].
  unfold github_get_run_status.
  apply spends_interact_bind; [apply f_poll|intros j].
  destruct (get_is _ _); [apply spends_ret|].
  spends_auto. exact IH.
Qed.

Lemma spends_log_code_changes n changes :
  spends f n (log_code_changes changes).
Proof.
  induction changes as [|[filename c] rest IH]; cbn [log_code_changes];
    spends_auto. exact IH.
Qed.

Lemma spends_conclude_round n a fixes st :
  spends f n (conclude_round w max_attempts a fixes st).
Proof.
  unfold conclude_round. destruct st as [files updated].
  spends_auto; apply spends_log_code_changes.
Qed.

(** The cost of a pass, from the cost [l] of fetching the log, [q] of a
    request to the advisor and [b] of a write. *)
Variables l q b : nat.
Hypothesis f_logs : ∀ run_id, (cost f (GetRunLogs run_id) ≤ l)%nat.
Hypothesis f_request : ∀ r, (cost f (MessagesCreate r) ≤ q)%nat.
Hypothesis f_write :
  ∀ path content message,
    (cost f (CreateOrUpdateFile path content message) ≤ b)%nat.

Lemma spends_update_if_needed changes announce path key message st :
  spends f b (update_if_needed w changes announce path key message st).
Proof.
  unfold update_if_needed. destruct changes as [[|c content]|];
    try apply spends_ret.
  unfold log. apply spends_bind_free; [by apply spends_emit; spends_free|].
  intros _. unfold github_create_or_update_file.
  apply (spends_weaken f (b + 0)); [lia|].
  apply spends_interact_bind_cost; [apply f_write|].
  intros i. spends_auto.
Qed.

Lemma spends_update_build_files fixes a files :
  spends f (b + (b + b)) (update_build_files w fixes a files).
Proof.
  unfold update_build_files.
  apply spends_bind; [apply spends_update_if_needed|intros st1].
  apply spends_bind; [apply spends_update_if_needed|intros st2].
  apply spends_update_if_needed.
Qed.

Lemma spends_apply_fixes fixes files :
  spends f (b + (b + b)) (apply_fixes w max_attempts fixes files).
Proof.
  unfold apply_fixes.
  apply spends_bind_free; [apply spends_get_attempt|intros a].
  unfold log, claude_log.
  do 2 (apply spends_bind_free; [by apply spends_emit; spends_free|intros _]).
  apply spends_bind_last; [apply spends_update_build_files|].
  intros st. apply spends_conclude_round.
Qed.

Lemma spends_remediate run_id files :
  spends f (l + (q + (b + (b + b)))) (remediate w max_attempts run_id files).
Proof.
  unfold remediate.
  apply spends_bind_free; [apply spends_get_attempt|intros a].
  unfold log, claude_log.
  do 2 (apply spends_bind_free; [by apply spends_emit; spends_free|intros _]).
  unfold github_get_run_logs.
  apply spends_interact_bind_cost; [apply f_logs|intros i].
  destruct (negb _); [spends_auto|].
  apply spends_bind_free; [by apply spends_emit; spends_free|intros _].
  unfold claude_fix_build_errors.
  apply spends_bind.
  { apply (spends_weaken f (q + 0)); [lia|].
    apply spends_interact_bind_cost; [apply f_request|].
    intros j. apply spends_ret. }
  intros fixes. destruct (low_confidence fixes).
  - do 3 (apply spends_bind_free;
          [by apply spends_emit; spends_free|intros _]).
    destruct (_ <=? _); [apply spends_ret|apply spends_apply_fixes].
  - apply spends_apply_fixes.
Qed.

End Budget.

(** *** What a pass costs, from the cost of its failure branch *)

Section PassBudget.
Variable w : World.
Variable max_attempts : Z.
Variable f : Event → bool.
Hypothesis f_free : failure_branch_only f.
Variable B : nat.
Hypothesis remediate_cost :
  ∀ run_id files, spends f B (remediate w max_attempts run_id files).

Lemma spends_monitor_run fuel cfg a files latest_run :
  spends f B (monitor_run w fuel cfg max_attempts a files latest_run).
Proof.
  unfold monitor_run. unfold log at 1.
  apply spends_bind_free; [by apply spends_emit; spends_free|intros _].
  apply spends_bind_free; [spends_auto|intros _].
  apply spends_bind_free; [apply spends_time|intros start].
  apply spends_bind_free;
    [apply spends_wait_for_completion;
       [by apply free_quiet|by apply free_poll]|intros waited].
  destruct waited as [[]|]; [|apply spends_ret].
  apply spends_running_bind; intros i.
  destruct (negb _); [apply spends_ret|].
  unfold github_get_run_status.
  apply spends_interact_bind; [spends_free|intros j].
  destruct (get_is _ "success"); [spends_auto|].
  destruct (_ || _); [|spends_auto].
  apply spends_bind_last; [apply remediate_cost|]. intros r. apply spends_ret.
Qed.

Lemma spends_iteration fuel cfg files :
  spends f B (iteration w fuel cfg max_attempts files).
Proof.
  unfold iteration. spends_auto. apply spends_monitor_run.
Qed.

End PassBudget.

(** *** What the loop costs, from the cost of a pass *)

Section LoopBudget.
Variable w : World.
Variable max_attempts : Z.
Variable cfg : Config.
Variable f : Event → bool.
Hypothesis f_quiet : requests_only f.
Variable B : nat.
Hypothesis pass_cost :
  ∀ fuel files, spends f B (iteration w fuel cfg max_attempts files).

(** Each pass adds one to [attempt] and costs at most [B]. *)
Lemma fix_loop_cost fuel rounds : ∀ files m,
  let r := fix_loop w rounds fuel cfg max_attempts files m in
  attempt m ≤ attempt r.2 ≤ Z.max (attempt m) max_attempts
  ∧ Z.of_nat (count f (trace r.2))
    ≤ Z.of_nat (count f (trace m)) + Z.of_nat B * (attempt r.2 - attempt m).
Proof.
  induction rounds as [|rounds IH]; intros files m; cbv zeta.
  { cbn. lia. }
  rewrite fix_loop_unfold.
  destruct (Z.ltb_spec (attempt m) max_attempts) as [Hlt|Hge]; cbn [negb].
  2: { cbn. lia. }
  destruct (automation_running w (tick m)); cbn [negb].
  2: { cbn. lia. }
  pose proof (pass_cost fuel files (ticked m)) as Hc.
  pose proof (iteration_attempt w max_attempts fuel cfg files (ticked m))
    as Ha.
  destruct (iteration w fuel cfg max_attempts files (ticked m))
    as [[[[|why] files']|] m']; cbn [snd ticked attempt trace] in *.
  - specialize (IH files' m'). cbv zeta in IH. nia.
  - nia.
  - nia.
Qed.

Lemma monitor_cost_from_pass fuel files m :
  max_attempts = default 5 (max_fix_attempts cfg) →
  let r := monitor_and_fix_with_claude w fuel cfg files m in
  0 ≤ attempt r.2 ≤ Z.max 0 max_attempts
  ∧ Z.of_nat (count f (trace r.2))
    ≤ Z.of_nat (count f (trace m)) + Z.of_nat B * attempt r.2.
Proof.
  intros Hmax. cbv zeta. rewrite (monitor_unfold _ _ _ _ _ _ Hmax).
  pose proof (fix_loop_cost fuel fuel files (restarted m)) as Hl.
  cbv zeta in Hl.
  destruct (fix_loop w fuel fuel cfg max_attempts files (restarted m))
    as [[r|] m']; cbn [snd restarted attempt trace] in *.
  2: { rewrite Z.sub_0_r in Hl. exact Hl. }
  assert (spends f 0
    ((if max_attempts <=? attempt m' then
        log ("Max attempts (" +:+ pretty max_attempts +:+ ") reached") "ERROR" ;;;
        claude_log "Maximum fix attempts reached. Manual intervention may be required." ;;;
        update_status "Build failed - manual intervention needed" "red" ;;;
        claude_log (summary (attempt m') max_attempts)
      else ret tt) ;;; ret (Some r))) as Hs by spends_auto.
  assert (keeps_at (λ _ e, benign e) (attempt m')
    ((if max_attempts <=? attempt m' then
        log ("Max attempts (" +:+ pretty max_attempts +:+ ") reached") "ERROR" ;;;
        claude_log "Maximum fix attempts reached. Manual intervention may be required." ;;;
        update_status "Build failed - manual intervention needed" "red" ;;;
        claude_log (summary (attempt m') max_attempts)
      else ret tt) ;;; ret (Some r))) as Hk by (keeps_auto; done).
  specialize (Hs m'). destruct (Hk m' eq_refl) as [Ha _].
  rewrite Ha. rewrite Z.sub_0_r in Hl. lia.
Qed.

End LoopBudget.

Lemma monitor_cost w max_attempts f :
  failure_branch_only f → ∀ B,
  (∀ run_id files, spends f B (remediate w max_attempts run_id files)) →
  ∀ fuel cfg files m,
  max_attempts = default 5 (max_fix_attempts cfg) →
  let r := monitor_and_fix_with_claude w fuel cfg files m in
  0 ≤ attempt r.2 ≤ Z.max 0 max_attempts
  ∧ Z.of_nat (count f (trace r.2))
    ≤ Z.of_nat (count f (trace m)) + Z.of_nat B * attempt r.2.
Proof.
  intros Hf B Hrem fuel cfg files m.
  apply (monitor_cost_from_pass w max_attempts cfg f (free_quiet f Hf) B).
  intros fuel' files'. by apply spends_iteration.
Qed.

(** *** What each attempt costs *)

Section AttemptBudget.
Variable w : World.
Variable max_attempts : Z.
Variable cfg : Config.
Variable f : Event → bool.
Hypothesis f_quiet : requests_only f.
Variable B : nat.
Hypothesis pass_cost :
  ∀ fuel files, spends f B (iteration w fuel cfg max_attempts files).

Lemma count_at_app a t1 t2 :
  count_at f a (t1 ++ t2) = (count_at f a t1 + count_at f a t2)%nat.
Proof. induction t1 as [|se t1 IH]; cbn; [done|]. rewrite IH. lia. Qed.

Lemma count_at_le a t : (count_at f a t ≤ count f t)%nat.
Proof.
  induction t as [|se t IH]; cbn; [done|].
  destruct (se.1 =? a); lia.
Qed.

Lemma count_at_other a t :
  Forall (λ se : Z * Event, se.1 ≠ a) t → count_at f a t = 0%nat.
Proof.
  induction 1 as [|se t Hse _ IH]; cbn; [done|].
  destruct (Z.eqb_spec se.1 a); [done|]. by rewrite IH.
Qed.

(** The events of a pass carry its value of [attempt], and [f] selects
    at most [B] of them. *)
Lemma pass_events fuel files m :
  ∃ evs, trace (iteration w fuel cfg max_attempts files m).2 = trace m ++ evs
    ∧ Forall (λ se, se.1 = attempt m + 1) evs
    ∧ (count f evs ≤ B)%nat.
Proof.
  destruct (iteration_extends w max_attempts fuel cfg files m)
    as [_ (post & Ht & Hs)].
  cbn [after_discovery attempt trace] in Ht, Hs.
  eexists. split; [rewrite Ht, <- app_assoc; reflexivity|]. split.
  - apply Forall_app. split; [by repeat constructor|].
    eapply Forall_impl; [exact Hs|]. by intros ? [? _].
  - pose proof (pass_cost fuel files m) as Hc.
    rewrite Ht, <- app_assoc, count_app in Hc. lia.
Qed.

Lemma fix_loop_cost_at fuel rounds : ∀ files m,
  ∃ evs,
    trace (fix_loop w rounds fuel cfg max_attempts files m).2 = trace m ++ evs
    ∧ Forall (λ se, attempt m < se.1) evs
    ∧ ∀ a, (count_at f a evs ≤ B)%nat.
Proof.
  assert (∀ t : list (Z * Event), ∃ evs : list (Z * Event),
            t = t ++ evs ∧ Forall (λ se, True) evs ∧ evs = []) as Hnil.
  { intros t. exists []. by rewrite app_nil_r. }
  induction rounds as [|rounds IH]; intros files m.
  { exists []. cbn. rewrite app_nil_r. split; [done|]. split; [done|].
    intros a. lia. }
  rewrite fix_loop_unfold.
  destruct (negb (attempt m <? max_attempts)).
  { exists []. cbn. rewrite app_nil_r. split; [done|]. split; [done|].
    intros a. lia. }
  destruct (negb (automation_running w (tick m))).
  { exists []. cbn. rewrite app_nil_r. split; [done|]. split; [done|].
    intros a. lia. }
  destruct (pass_events fuel files (ticked m)) as (pevs & Hp & Hs & Hc).
  pose proof (iteration_attempt w max_attempts fuel cfg files (ticked m))
    as Ha.
  cbn [ticked attempt trace] in Hp, Hs, Ha.
  assert (Forall (λ se : Z * Event, attempt m < se.1) pevs) as Hlt.
  { eapply Forall_impl; [exact Hs|]. cbn. intros ? ->. lia. }
  assert (∀ a, (count_at f a pevs ≤ B)%nat) as Hat.
  { intros a. pose proof (count_at_le a pevs). lia. }
  destruct (iteration w fuel cfg max_attempts files (ticked m))
    as [[[[|why] files']|] m']; cbn [fst snd] in *;
    [|by exists pevs..].
  destruct (IH files' m') as (evs' & Hr & Hs' & Hc').
  exists (pevs ++ evs'). split; [by rewrite Hr, Hp, app_assoc|]. split.
  { apply Forall_app. split; [done|].
    eapply Forall_impl; [exact Hs'|]. cbn. intros ?. lia. }
  intros a. rewrite count_at_app.
  destruct (decide (a = attempt m + 1)) as [->|Hne].
  - rewrite (count_at_other _ evs'); [specialize (Hat (attempt m + 1)); lia|].
    eapply Forall_impl; [exact Hs'|]. cbn. intros ?. lia.
  - rewrite (count_at_other _ pevs); [apply Hc'|].
    eapply Forall_impl; [exact Hs|]. cbn. intros ? ->. done.
Qed.

Lemma monitor_cost_at fuel files m :
  max_attempts = default 5 (max_fix_attempts cfg) →
  ∃ evs,
    trace (monitor_and_fix_with_claude w fuel cfg files m).2 = trace m ++ evs
    ∧ ∀ a, (count_at f a evs ≤ B)%nat.
Proof.
  intros Hmax. rewrite (monitor_unfold _ _ _ _ _ _ Hmax).
  destruct (fix_loop_cost_at fuel fuel files (restarted m))
    as (evs & Ht & _ & Hc).
  destruct (fix_loop w fuel fuel cfg max_attempts files (restarted m))
    as [[r|] m']; cbn [snd restarted attempt trace] in *.
  2: { by exists evs. }
  assert (spends f 0
    ((if max_attempts <=? attempt m' then
        log ("Max attempts (" +:+ pretty max_attempts +:+ ") reached") "ERROR" ;;;
        claude_log "Maximum fix attempts reached. Manual intervention may be required." ;;;
        update_status "Build failed - manual intervention needed" "red" ;;;
        claude_log (summary (attempt m') max_attempts)
      else ret tt) ;;; ret (Some r))) as Hs by spends_auto.
  assert (keeps_at (λ _ e, benign e) (attempt m')
    ((if max_attempts <=? attempt m' then
        log ("Max attempts (" +:+ pretty max_attempts +:+ ") reached") "ERROR" ;;;
        claude_log "Maximum fix attempts reached. Manual intervention may be required." ;;;
        update_status "Build failed - manual intervention needed" "red" ;;;
        claude_log (summary (attempt m') max_attempts)
      else ret tt) ;;; ret (Some r))) as Hk by (keeps_auto; done).
  specialize (Hs m'). destruct (Hk m' eq_refl) as [_ (fl & Hfl & _)].
  rewrite Hfl, count_app in Hs.
  exists (evs ++ fl). split; [by rewrite Hfl, Ht, app_assoc|].
  intros a. rewrite count_at_app. pose proof (count_at_le a fl).
  specialize (Hc a). lia.
Qed.

End AttemptBudget.

Lemma request_only : failure_branch_only is_request.
Proof. by intros []. Qed.

Lemma write_only : failure_branch_only is_write.
Proof. by intros []. Qed.

Lemma log_fetch_only : failure_branch_only is_log_fetch.
Proof. by intros []. Qed.

(** *** What the loop does to the build files, from what its failure
    branch does *)

Section LoopFiles.
Variable w : World.
Variable max_attempts : Z.
Variable R : gmap string string → gmap string string → Prop.
Hypothesis R_refl : ∀ files, R files files.
Hypothesis R_trans : ∀ f1 f2 f3, R f1 f2 → R f2 f3 → R f1 f3.
Hypothesis remediate_files :
  ∀ run_id files,
    yields (λ r, R files r.2) (remediate w max_attempts run_id files).

Lemma monitor_run_files fuel cfg a files latest_run :
  yields (λ r, ∀ c files', r = Some (c, files') → R files files')
    (monitor_run w fuel cfg max_attempts a files latest_run).
Proof.
  unfold monitor_run.
  do 4 (apply yields_bind; intros ?).
  destruct x2 as [[]|]; [|by apply yields_ret].
  apply yields_running_bind; intros i.
  destruct (negb _).
  { apply yields_ret. intros c f' [= _ <-]. apply R_refl. }
  unfold github_get_run_status. apply yields_interact_bind; intros j.
  destruct (get_is _ "success").
  { repeat yields_step. intros c f' [= _ <-]. apply R_refl. }
  destruct (_ || _).
  - apply (yields_bind_with _ _ _ _ (remediate_files _ _)).
    intros [c f'] Hr. apply yields_ret. by intros ? ? [= _ <-].
  - repeat yields_step. intros c f' [= _ <-]. apply R_refl.
Qed.

Lemma iteration_files fuel cfg files m c files' :
  (iteration w fuel cfg max_attempts files m).1 = Some (c, files') →
  R files files'.
Proof.
  rewrite iteration_runs.
  destruct (get_workflow_runs w (S (tick m))) as [|latest_run ?].
  - cbn. intros [= _ <-]. apply R_refl.
  - apply monitor_run_files.
Qed.

Lemma fix_loop_files fuel cfg rounds : ∀ files m e files',
  (fix_loop w rounds fuel cfg max_attempts files m).1 = Some (e, files') →
  R files files'.
Proof.
  induction rounds as [|rounds IH]; intros files m e files'; [done|].
  rewrite fix_loop_unfold.
  destruct (negb (attempt m <? max_attempts)).
  { cbn. intros [= _ <-]. apply R_refl. }
  destruct (negb (automation_running w (tick m))).
  { cbn. intros [= _ <-]. apply R_refl. }
  pose proof (iteration_files fuel cfg files (ticked m)) as Hp.
  destruct (iteration w fuel cfg max_attempts files (ticked m))
    as [[[[|why] f1]|] m1]; cbn [fst] in *.
  - intros H. eapply R_trans; [by eapply Hp|]. by eapply IH.
  - intros [= _ <-]. by eapply Hp.
  - done.
Qed.

Lemma monitor_files fuel cfg files m e files' :
  max_attempts = default 5 (max_fix_attempts cfg) →
  (monitor_and_fix_with_claude w fuel cfg files m).1 = Some (e, files') →
  R files files'.
Proof.
  intros Hmax. rewrite (monitor_unfold _ _ _ _ _ _ Hmax).
  pose proof (fix_loop_files fuel cfg fuel files (restarted m)) as Hl.
  destruct (fix_loop w fuel fuel cfg max_attempts files (restarted m))
    as [[[e1 f1]|] m1]; cbn [fst] in *; [|done].
  unfold bind. destruct (max_attempts <=? attempt m1); cbn;
    intros [= _ <-]; by eapply Hl.
Qed.

End LoopFiles.

(** *** The entries of [current_files] the loop assigns *)

Lemma grows_from_refl files : grows_from files files.
Proof. by split. Qed.

Lemma grows_from_trans f1 f2 f3 :
  grows_from f1 f2 → grows_from f2 f3 → grows_from f1 f3.
Proof.
  intros [H1 K1] [H2 K2]. split.
  - intros k Hk. by rewrite H2, H1.
  - intros k Hk. auto.
Qed.

Lemma grows_from_insert files key content :
  key ∈ assigned_keys → grows_from files (<[key := content]> files).
Proof.
  intros Hkey. split.
  - intros k Hk. apply lookup_insert_ne. by intros ->.
  - intros k Hk. destruct (decide (key = k)) as [->|Hne].
    + by rewrite lookup_insert_eq.
    + by rewrite lookup_insert_ne.
Qed.

Lemma update_if_needed_grows w changes announce path key message st :
  key ∈ assigned_keys →
  yields (λ st', grows_from st.1 st'.1)
    (update_if_needed w changes announce path key message st).
Proof.
  intros Hkey. unfold update_if_needed.
  yields_auto; cbn [fst]; try apply grows_from_refl.
  by apply grows_from_insert.
Qed.

Lemma update_build_files_grows w fixes a files :
  yields (λ st, grows_from files st.1) (update_build_files w fixes a files).
Proof.
  unfold update_build_files.
  eapply yields_bind_with;
    [apply update_if_needed_grows; unfold assigned_keys; set_solver|].
  intros st1 H1. eapply yields_bind_with;
    [apply update_if_needed_grows; unfold assigned_keys; set_solver|].
  intros st2 H2 m.
  pose proof (update_if_needed_grows w (workflow_changes fixes)
    "Updating workflow..." ".github/workflows/build.yml" "workflow.yml"
    ("Claude fix " +:+ pretty a +:+ ": Update workflow") st2) as H3.
  cbn [fst] in *.
  eapply grows_from_trans; [exact H1|].
  eapply grows_from_trans; [exact H2|].
  apply H3. unfold assigned_keys. set_solver.
Qed.

Lemma conclude_round_returns_files w max_attempts a fixes st :
  yields (λ r, r.2 = st.1) (conclude_round w max_attempts a fixes st).
Proof. unfold conclude_round. destruct st. yields_auto; done. Qed.

Lemma apply_fixes_grows w max_attempts fixes files :
  yields (λ r, grows_from files r.2) (apply_fixes w max_attempts fixes files).
Proof.
  unfold apply_fixes. apply yields_bind; intros a.
  do 2 (apply yields_bind; intros _).
  eapply yields_bind_with; [apply update_build_files_grows|].
  intros st Hst m.
  pose proof (conclude_round_returns_files w max_attempts a fixes st m) as E.
  cbn in E. by rewrite E.
Qed.

Lemma remediate_grows w max_attempts run_id files :
  yields (λ r, grows_from files r.2) (remediate w max_attempts run_id files).
Proof.
  unfold remediate. yields_auto;
    try apply apply_fixes_grows; apply grows_from_refl.
Qed.


(** *** When the advisor's answer cannot be used *)

Section FailedAdvice.
Variable w : World.
Variable max_attempts : Z.
Hypothesis advice_fails :
  ∀ n request, fix_response (json w) (messages_create w n request) = fix_failed.

Lemma claude_fix_build_errors_fails error_log files a source_files :
  yields (λ fixes, fixes = fix_failed)
    (claude_fix_build_errors w error_log files a source_files).
Proof. intros m. cbn. apply advice_fails. Qed.

Lemma update_build_files_failed a files :
  update_build_files w fix_failed a files = ret (files, false).
Proof. reflexivity. Qed.

Lemma apply_failed_fixes_writes_nothing files :
  spends is_write 0 (apply_fixes w max_attempts fix_failed files).
Proof.
  unfold apply_fixes.
  apply spends_bind_free; [apply spends_get_attempt|intros a].
  unfold log, claude_log.
  do 2 (apply spends_bind_free; [by apply spends_emit|intros _]).
  rewrite update_build_files_failed.
  apply spends_bind_free; [apply spends_ret|intros st].
  apply spends_conclude_round, free_quiet, write_only.
Qed.

Lemma apply_failed_fixes_keeps_files files :
  yields (λ r, r.2 = files) (apply_fixes w max_attempts fix_failed files).
Proof.
  unfold apply_fixes. apply yields_bind; intros a.
  do 2 (apply yields_bind; intros _).
  rewrite update_build_files_failed. intros m.
  apply (conclude_round_returns_files w max_attempts a fix_failed
           (files, false)).
Qed.

Lemma low_confidence_failed : low_confidence fix_failed = true.
Proof. reflexivity. Qed.

Lemma failed_advice_writes_nothing run_id files :
  spends is_write 0 (remediate w max_attempts run_id files).
Proof.
  unfold remediate.
  apply spends_bind_free; [apply spends_get_attempt|intros a].
  unfold log, claude_log.
  do 2 (apply spends_bind_free; [by apply spends_emit|intros _]).
  unfold github_get_run_logs.
  apply spends_interact_bind; [reflexivity|intros i].
  destruct (negb _); [spends_auto|].
  apply spends_bind_free; [by apply spends_emit|intros _].
  apply (spends_bind_with is_write (λ fixes, fixes = fix_failed)).
  - apply claude_fix_build_errors_fails.
  - unfold claude_fix_build_errors. spends_auto.
  - intros fixes ->. rewrite low_confidence_failed.
    do 3 (apply spends_bind_free; [by apply spends_emit|intros _]).
    destruct (_ <=? _);
      [apply spends_ret|apply apply_failed_fixes_writes_nothing].
Qed.

Lemma failed_advice_keeps_files run_id files :
  yields (λ r, r.2 = files) (remediate w max_attempts run_id files).
Proof.
  unfold remediate. apply yields_bind; intros a.
  do 2 (apply yields_bind; intros _).
  unfold github_get_run_logs. apply yields_interact_bind; intros i.
  destruct (negb _); [by repeat yields_step|].
  apply yields_bind; intros _.
  apply (yields_bind_with _ _ _ _
           (claude_fix_build_errors_fails _ _ _ _)).
  intros fixes ->. rewrite low_confidence_failed.
  do 3 (apply yields_bind; intros _).
  destruct (_ <=? _);
    [by apply yields_ret|apply apply_failed_fixes_keeps_files].
Qed.

End FailedAdvice.

(** *** When the log of a failed run cannot be retrieved *)

Section NoLogs.
Variable w : World.
Variable max_attempts : Z.
Hypothesis no_logs : ∀ n run_id, get_run_logs w n run_id = "".

Lemma no_logs_costs_nothing f :
  failure_branch_only f → (∀ id, f (GetRunLogs id) = false) →
  ∀ run_id files, spends f 0 (remediate w max_attempts run_id files).
Proof.
  intros f_free f_logs run_id files. unfold remediate.
  apply spends_bind_free; [apply spends_get_attempt|intros a].
  unfold log, claude_log.
  do 2 (apply spends_bind_free; [by apply spends_emit; spends_free|intros _]).
  unfold github_get_run_logs.
  apply spends_interact_bind; [apply f_logs|intros i].
  rewrite no_logs. cbn [nonempty negb]. spends_auto.
Qed.

Lemma no_logs_keeps_files run_id files :
  yields (λ r, r.2 = files) (remediate w max_attempts run_id files).
Proof.
  unfold remediate. apply yields_bind; intros a.
  do 2 (apply yields_bind; intros _).
  unfold github_get_run_logs. apply yields_interact_bind; intros i.
  rewrite no_logs. cbn [nonempty negb]. by repeat yields_step.
Qed.

End NoLogs.

Lemma same_files_trans (f1 f2 f3 : gmap string string) :
  f2 = f1 → f3 = f2 → f3 = f1.
Proof. congruence. Qed.

(** The new events of a run of the loop. *)
Lemma monitor_new_events w cfg files fuel m :
  ∃ evs, trace (monitor_and_fix_with_claude w fuel cfg files m).2
         = trace m ++ evs.
Proof.
  destruct (monitor_extends w _ fuel cfg files m eq_refl)
    as [_ (evs & Ht & _)].
  by exists evs.
Qed.

(** X1.  A run of the loop counts at most [max_attempts] attempts; at
    each value of [attempt] it makes at most one request for a log, at
    most one request to the advisor and at most three writes, and so, in
    the whole run, at most as many as the attempts it has counted, and
    three times as many writes: the cost of a run is bounded by the
    configuration, whatever the repository and the advisor answer and
    wherever the run stops. *)
Theorem run_cost_is_bounded_by_max_attempts
    (w : World) (cfg : Config) (files : gmap string string) (fuel : nat)
    (m : Machine) :
  let max_attempts := default 5 (max_fix_attempts cfg) in
  let r := monitor_and_fix_with_claude w fuel cfg files m in
  ∃ evs, trace r.2 = trace m ++ evs
    ∧ 0 ≤ attempt r.2 ≤ Z.max 0 max_attempts
    ∧ Z.of_nat (count is_log_fetch evs) ≤ attempt r.2
    ∧ Z.of_nat (count is_request evs) ≤ attempt r.2
    ∧ Z.of_nat (count is_write evs) ≤ 3 * attempt r.2
    ∧ ∀ a, (count_at is_log_fetch a evs ≤ 1)%nat
           ∧ (count_at is_request a evs ≤ 1)%nat
           ∧ (count_at is_write a evs ≤ 3)%nat.
Proof.
  cbv zeta. destruct (monitor_new_events w cfg files fuel m) as [evs Ht].
  exists evs. split; [exact Ht|].
  pose proof (monitor_cost w _ is_log_fetch log_fetch_only 1
    (spends_remediate w _ is_log_fetch (free_quiet _ log_fetch_only) 1 0 0
       (λ _, le_n _) (λ _, le_n _) (λ _ _ _, le_n _))
    fuel cfg files m eq_refl) as [Ha H1].
  pose proof (monitor_cost w _ is_request request_only 1
    (spends_remediate w _ is_request (free_quiet _ request_only) 0 1 0
       (λ _, le_n _) (λ _, le_n _) (λ _ _ _, le_n _))
    fuel cfg files m eq_refl) as [_ H2].
  pose proof (monitor_cost w _ is_write write_only 3
    (spends_remediate w _ is_write (free_quiet _ write_only) 0 0 1
       (λ _, le_n _) (λ _, le_n _) (λ _ _ _, le_n _))
    fuel cfg files m eq_refl) as [_ H3].
  assert (∀ f B, failure_branch_only f →
            (∀ run_id files',
               spends f B (remediate w (default 5 (max_fix_attempts cfg))
                             run_id files')) →
            ∀ a, (count_at f a evs ≤ B)%nat) as Hat.
  { intros f B Hf Hrem.
    destruct (monitor_cost_at w _ cfg f (free_quiet f Hf) B
                (λ fuel' files', spends_iteration w _ f Hf B Hrem fuel' cfg
                                   files')
                fuel files m eq_refl) as (evs' & Ht' & Hc).
    rewrite Ht in Ht'. by apply app_inv_head in Ht' as <-. }
  rewrite Ht, count_app in H1, H2, H3.
  repeat (split; [lia|]). intros a. split; [|split].
  - apply (Hat _ _ log_fetch_only).
    apply (spends_remediate w _ is_log_fetch (free_quiet _ log_fetch_only)
             1 0 0 (λ _, le_n _) (λ _, le_n _) (λ _ _ _, le_n _)).
  - apply (Hat _ _ request_only).
    apply (spends_remediate w _ is_request (free_quiet _ request_only)
             0 1 0 (λ _, le_n _) (λ _, le_n _) (λ _ _ _, le_n _)).
  - apply (Hat _ _ write_only).
    apply (spends_remediate w _ is_write (free_quiet _ write_only)
             0 0 1 (λ _, le_n _) (λ _, le_n _) (λ _ _ _, le_n _)).
Qed.

(** X2.  The build files the loop returns have every key of the build
    files it was given, and differ from them at most at the three keys
    the loop assigns: vcpkg.json, CMakeLists.txt and workflow.yml. *)
Theorem loop_changes_only_assigned_keys
    (w : World) (cfg : Config) (files : gmap string string) (fuel : nat)
    (m : Machine) (e : Exit) :
  let r := monitor_and_fix_with_claude w fuel cfg files m in
  final_exit r = Some e → grows_from files (final_files r).
Proof.
  cbv zeta. unfold final_exit, final_files.
  pose proof (λ e' files',
    monitor_files w _ grows_from grows_from_refl grows_from_trans
      (remediate_grows w _) fuel cfg files m e' files' eq_refl) as H.
  destruct (monitor_and_fix_with_claude w fuel cfg files m).1
    as [[e' files']|]; [|done].
  intros _. by apply (H e' files').
Qed.

(** X3.  When every request to the advisor raises or returns a text that
    does not parse, the run writes nothing to the repository and returns
    the build files it was given. *)
Theorem failed_advice_changes_nothing
    (w : World) (cfg : Config) (files : gmap string string) (fuel : nat)
    (m : Machine) :
  (∀ n request,
     fix_response (json w) (messages_create w n request) = fix_failed) →
  let r := monitor_and_fix_with_claude w fuel cfg files m in
  (∃ evs, trace r.2 = trace m ++ evs ∧ count is_write evs = 0%nat)
  ∧ ∀ e files', r.1 = Some (e, files') → files' = files.
Proof.
  intros H. cbv zeta. split.
  - destruct (monitor_new_events w cfg files fuel m) as [evs Ht].
    exists evs. split; [exact Ht|].
    pose proof (monitor_cost w _ is_write write_only 0
      (failed_advice_writes_nothing w _ H) fuel cfg files m eq_refl)
      as [_ H1].
    rewrite Ht, count_app in H1. lia.
  - intros e files'.
    apply (monitor_files w _ (λ f f', f' = f) (λ _, eq_refl)
             same_files_trans (failed_advice_keeps_files w _ H)
             fuel cfg files m e files' eq_refl).
Qed.

Lemma failed_advice_changes_nothing_witness :
  let r := monitor_and_fix_with_claude unreachable_advisor_world 40
             (config 3 300) published initial in
  (∃ evs, trace r.2 = trace initial ++ evs ∧ count is_write evs = 0%nat)
  ∧ ∀ e files', r.1 = Some (e, files') → files' = published.
Proof.
  apply (failed_advice_changes_nothing unreachable_advisor_world
           (config 3 300) published 40 initial).
  intros n request. reflexivity.
Defined.

(** X4.  When the log of a failed run cannot be retrieved (the request
    returns the empty text), the advisor is not asked, nothing is
    written, and the run returns the build files it was given. *)
Theorem missing_logs_skip_the_advisor
    (w : World) (cfg : Config) (files : gmap string string) (fuel : nat)
    (m : Machine) :
  (∀ n run_id, get_run_logs w n run_id = "") →
  let r := monitor_and_fix_with_claude w fuel cfg files m in
  (∃ evs, trace r.2 = trace m ++ evs
          ∧ count is_request evs = 0%nat ∧ count is_write evs = 0%nat)
  ∧ ∀ e files', r.1 = Some (e, files') → files' = files.
Proof.
  intros H. cbv zeta. split.
  - destruct (monitor_new_events w cfg files fuel m) as [evs Ht].
    exists evs. split; [exact Ht|].
    pose proof (monitor_cost w _ is_request request_only 0
      (no_logs_costs_nothing w _ H is_request request_only
         (λ _, eq_refl)) fuel cfg files m eq_refl) as [_ H1].
    pose proof (monitor_cost w _ is_write write_only 0
      (no_logs_costs_nothing w _ H is_write write_only
         (λ _, eq_refl)) fuel cfg files m eq_refl) as [_ H2].
    rewrite Ht, count_app in H1, H2. lia.
  - intros e files'.
    apply (monitor_files w _ (λ f f', f' = f) (λ _, eq_refl)
             same_files_trans (no_logs_keeps_files w _ H)
             fuel cfg files m e files' eq_refl).
Qed.

Lemma missing_logs_skip_the_advisor_witness :
  let r := monitor_and_fix_with_claude no_logs_world 40
             (config 3 300) published initial in
  (∃ evs, trace r.2 = trace initial ++ evs
          ∧ count is_request evs = 0%nat ∧ count is_write evs = 0%nat)
  ∧ ∀ e files', r.1 = Some (e, files') → files' = published.
Proof.
  apply (missing_logs_skip_the_advisor no_logs_world (config 3 300)
           published 40 initial).
  intros n run_id. reflexivity.
Defined.


Lemma loop_changes_only_assigned_keys_witness :
  grows_from published
    (final_files (monitor_and_fix_with_claude failing_world 40
                    (config 2 300) published initial)).
Proof.
  apply (loop_changes_only_assigned_keys failing_world (config 2 300)
           published 40 initial ConditionFalse).
  vm_compute. reflexivity.
Defined.

(** *** How a successful run ends *)

Section SuccessReport.
Variable w : World.
Variable max_attempts : Z.

Lemma wait_for_completion_appends fuel timeout run_id start_time : ∀ m,
  let r := wait_for_completion w fuel timeout run_id start_time m in
  attempt r.2 = attempt m ∧ ∃ evs, trace r.2 = trace m ++ evs.
Proof.
  assert (∀ a, keeps_at (λ _ _, True) a
                 (wait_for_completion w fuel timeout run_id start_time)) as K.
  { intros a. induction fuel as [|fuel' IH]; [apply keeps_ret|].
    rewrite wait_for_completion_unfold. keeps_auto; done. }
  intros m. destruct (K _ m eq_refl) as [Ha (evs & Ht & _)].
  split; [exact Ha|]. by exists evs.
Qed.

Lemma monitor_run_success fuel cfg a files latest_run m files' :
  let r := monitor_run w fuel cfg max_attempts a files latest_run m in
  attempt m = a →
  r.1 = Some (Break BuildSucceeded, files') →
  ∃ evs, trace r.2 = trace m ++ evs ++ success_report cfg a.
Proof.
  cbv zeta. intros Ha. unfold monitor_run.
  erewrite bind_eq by reflexivity.
  match goal with
  | |- context [Env.bind ?c _ ?m0] =>
      assert (keeps_at (λ _ e, benign e) (attempt m) c) as K
        by (keeps_auto; done);
      destruct (K m0 eq_refl) as [Ha1 (evs1 & Ht1 & _)];
      destruct (c m0) as [[] m1] eqn:E1;
      rewrite (bind_eq _ _ _ _ _ E1)
  end.
  cbn [snd attempt trace] in *.
  erewrite bind_eq by reflexivity.
  destruct (wait_for_completion_appends fuel
              (default 300 (github_timeout cfg)) (id latest_run) (clock m1)
              m1) as [Ha2 [evs2 Ht2]].
  destruct (wait_for_completion w fuel _ _ _ m1) as [waited m2] eqn:E2.
  rewrite (bind_eq _ _ _ _ _ E2). cbn [snd] in Ht2, Ha2.
  destruct waited as [[]|]; [|done].
  erewrite bind_eq by reflexivity.
  destruct (automation_running w (tick m2)); cbn [negb]; [|done].
  unfold github_get_run_status. erewrite bind_eq by reflexivity.
  destruct (get_is _ "success").
  - intros _. run_prims. eexists ([_] ++ evs1 ++ evs2 ++ [_]).
    rewrite Ht2, Ht1, Ha2, Ha1, <- Ha, <- !app_assoc. reflexivity.
  - destruct (_ || _).
    + match goal with
      | |- context [Env.bind (remediate w max_attempts ?i ?fs) _ ?m3] =>
          pose proof (remediate_control w max_attempts i fs m3) as Hc;
          unfold bind;
          destruct (remediate w max_attempts i fs m3) as [[c f1] m4]
      end.
      cbn in *. intros [= -> _].
      destruct Hc as [?|[?|?]]; discriminate.
    + by run_prims.
Qed.

Lemma iteration_success fuel cfg files m files' :
  let r := iteration w fuel cfg max_attempts files m in
  r.1 = Some (Break BuildSucceeded, files') →
  ∃ evs, trace r.2 = trace m ++ evs ++ success_report cfg (attempt m + 1).
Proof.
  cbv zeta. rewrite iteration_runs.
  destruct (get_workflow_runs w (S (tick m))) as [|latest_run ?];
    [done|].
  intros H.
  destruct (monitor_run_success fuel cfg (attempt m + 1) files latest_run
              (after_discovery w max_attempts m) files' eq_refl H)
    as [evs Ht].
  cbn [after_discovery trace] in Ht.
  eexists ([_; _; _; _; _] ++ evs). rewrite Ht, <- !app_assoc. reflexivity.
Qed.

Lemma fix_loop_success fuel cfg rounds : ∀ files m files',
  let r := fix_loop w rounds fuel cfg max_attempts files m in
  r.1 = Some (BuildSucceeded, files') →
  ∃ evs, trace r.2 = trace m ++ evs ++ success_report cfg (attempt r.2).
Proof.
  induction rounds as [|rounds IH]; intros files m files'; cbv zeta;
    [done|].
  rewrite fix_loop_unfold.
  destruct (negb (attempt m <? max_attempts)); [done|].
  destruct (negb (automation_running w (tick m))); [done|].
  pose proof (iteration_success fuel cfg files (ticked m)) as Hs.
  pose proof (iteration_attempt w max_attempts fuel cfg files (ticked m))
    as Ha.
  pose proof (iteration_extends w max_attempts fuel cfg files (ticked m))
    as [_ (evs0 & Ht0 & _)].
  cbv zeta in Hs.
  destruct (iteration w fuel cfg max_attempts files (ticked m))
    as [[[[|why] f1]|] m1]; cbn [fst snd ticked attempt trace] in *;
    [| |done].
  - intros H. destruct (IH f1 m1 files' H) as [evs Ht].
    cbn [after_discovery trace] in Ht0.
    eexists ([_; _; _; _; _] ++ evs0 ++ evs).
    rewrite Ht, Ht0, <- !app_assoc. reflexivity.
  - intros [= -> ->]. rewrite Ha. by apply (Hs files').
Qed.

End SuccessReport.

(** X5.  The check after the loop only looks at [attempt]: when the
    build of the last attempt succeeds, the run reports the success and
    directly after it the failure: the message that the maximum of
    attempts is reached, the status that the build failed and the
    summary that the build did not succeed. *)
Theorem success_on_last_attempt_is_reported_as_failure
    (w : World) (cfg : Config) (files : gmap string string) (fuel : nat)
    (m : Machine) :
  let max_attempts := default 5 (max_fix_attempts cfg) in
  let r := monitor_and_fix_with_claude w fuel cfg files m in
  final_exit r = Some BuildSucceeded →
  attempt r.2 = max_attempts →
  ∃ evs,
    trace r.2 = trace m ++ evs ++ success_report cfg max_attempts
                ++ failure_report max_attempts max_attempts.
Proof.
  cbv zeta. unfold final_exit.
  rewrite (monitor_unfold w _ fuel cfg files m eq_refl).
  pose proof (fix_loop_success w (default 5 (max_fix_attempts cfg)) fuel cfg
                fuel files (restarted m)) as Hs.
  cbv zeta in Hs.
  destruct (fix_loop w fuel fuel cfg _ files (restarted m))
    as [[[e f1]|] m1]; cbn [fst snd] in *; [|done].
  destruct (Z.leb_spec (default 5 (max_fix_attempts cfg)) (attempt m1))
    as [Hle|Hlt]; run_prims.
  - intros [= ->] Ha. destruct (Hs f1 eq_refl) as [evs Ht].
    exists evs. rewrite Ht, Ha. cbn [restarted trace].
    unfold failure_report. rewrite <- !app_assoc. reflexivity.
  - intros _ Ha. lia.
Qed.

Lemma success_on_last_attempt_is_reported_as_failure_witness :
  let r := monitor_and_fix_with_claude late_world 40 (config 2 300)
             published initial in
  ∃ evs,
    trace r.2 = trace initial ++ evs ++ success_report (config 2 300) 2
                ++ failure_report 2 2.
Proof.
  apply (success_on_last_attempt_is_reported_as_failure late_world
           (config 2 300) published 40 initial).
  - vm_compute. reflexivity.
  - vm_compute. reflexivity.
Defined.

(** X6.  With a maximum of attempts of zero or less the body of the
    loop never runs: the worker asks nothing, not even whether it is
    still to run, returns the build files it was given, and reports that
    the maximum of attempts is reached and that the build failed. *)
Theorem no_attempt_allowed_reports_failure
    (w : World) (cfg : Config) (files : gmap string string) (fuel : nat)
    (m : Machine) :
  let max_attempts := default 5 (max_fix_attempts cfg) in
  let r := monitor_and_fix_with_claude w fuel cfg files m in
  max_attempts ≤ 0 → (0 < fuel)%nat →
  r.1 = Some (ConditionFalse, files)
  ∧ tick r.2 = tick m
  ∧ trace r.2 = trace m ++ failure_report max_attempts 0.
Proof.
  cbv zeta. intros Hmax Hfuel.
  rewrite (monitor_unfold w _ fuel cfg files m eq_refl).
  destruct fuel as [|fuel]; [lia|]. rewrite fix_loop_unfold.
  cbn [restarted attempt].
  destruct (Z.ltb_spec 0 (default 5 (max_fix_attempts cfg))); [lia|].
  cbn [negb restarted attempt].
  destruct (Z.leb_spec (default 5 (max_fix_attempts cfg)) 0); [|lia].
  run_prims. unfold failure_report. rewrite <- !app_assoc. done.
Qed.

Lemma no_attempt_allowed_reports_failure_witness :
  let r := monitor_and_fix_with_claude failing_world 40 (config 0 300)
             published initial in
  r.1 = Some (ConditionFalse, published)
  ∧ tick r.2 = tick initial
  ∧ trace r.2 = trace initial ++ failure_report 0 0.
Proof.
  apply (no_attempt_allowed_reports_failure failing_world (config 0 300)
           published 40 initial).
  - vm_compute. discriminate.
  - vm_compute. lia.
Defined.


(** *** The first publication *)

Lemma writes_app t1 t2 : writes (t1 ++ t2) = writes t1 ++ writes t2.
Proof.
  induction t1 as [|[a e] t1 IH]; [done|]. destruct e; cbn; by rewrite ?IH.
Qed.

Lemma publish_entries w entries : ∀ current m,
  let r := publish w entries current m in
  (∀ p c, r.1 !! p = Some c →
          current !! p = Some c ∨ (c ≠ "" ∧ (p, Some c) ∈ entries))
  ∧ ∃ evs, trace r.2 = trace m ++ evs
           ∧ count is_write evs
             = length (List.filter (λ e, truthy e.2) entries)
           ∧ map snd (writes evs)
             = map fst (List.filter (λ e, truthy e.2) entries).
Proof.
  induction entries as [|[filename content] rest IH]; intros current m;
    cbv zeta.
  { cbn. split; [auto|]. exists []. by rewrite app_nil_r. }
  assert (∀ m', let r := publish w rest current m' in
            (∀ p c, r.1 !! p = Some c →
               current !! p = Some c
               ∨ (c ≠ "" ∧ (p, Some c) ∈ (filename, content) :: rest))
            ∧ ∃ evs, trace r.2 = trace m' ++ evs
                     ∧ count is_write evs
                       = length (List.filter (λ e, truthy e.2) rest)
                     ∧ map snd (writes evs)
                       = map fst (List.filter (λ e, truthy e.2) rest))
    as Hskip.
  { intros m'. destruct (IH current m') as [Hf He]. split; [|exact He].
    intros p c [?|[? ?]]%Hf; [by left|right]. split; [done|by right]. }
  destruct content as [[|ch content]|]; cbn [publish List.filter truthy snd nonempty];
    [apply Hskip| |apply Hskip].
  run_prims.
  destruct (create_or_update_file w (tick m) filename (String ch content) _).
  - run_prims.
    match goal with
    | |- context [publish w rest ?cur ?m1] =>
        destruct (IH cur m1) as [Hf (evs & Ht & Hn & Hw)]
    end.
    cbn [trace] in Ht. split.
    + intros p c [Hp|[? ?]]%Hf.
      * destruct (decide (filename = p)) as [->|Hne].
        -- rewrite lookup_insert_eq in Hp. injection Hp as <-.
           right. split; [done|by left].
        -- rewrite lookup_insert_ne in Hp by done. by left.
      * right. split; [done|by right].
    + eexists ([_; _] ++ evs). split; [|split].
      * rewrite Ht, <- !app_assoc. reflexivity.
      * rewrite count_app, Hn. reflexivity.
      * rewrite writes_app, map_app, Hw. reflexivity.
  - run_prims.
    match goal with
    | |- context [publish w rest ?cur ?m1] =>
        destruct (IH cur m1) as [Hf (evs & Ht & Hn & Hw)]
    end.
    cbn [trace] in Ht. split.
    + intros p c [?|[? ?]]%Hf; [by left|right]. split; [done|by right].
    + eexists ([_; _] ++ evs). split; [|split].
      * rewrite Ht, <- !app_assoc. reflexivity.
      * rewrite count_app, Hn. reflexivity.
      * rewrite writes_app, map_app, Hw. reflexivity.
Qed.

(** X15.  The first publication makes one write for each of the three
    build files that has a content, to the path of that file and in the
    order manifest, build script, workflow, whether or not earlier writes
    succeeded; what it returns holds only successfully written, non-empty
    contents, each under the path it was written to: the manifest and the
    build script under their own names, the workflow under
    .github/workflows/build.yml. *)
Theorem publication_attempts_each_build_file
    (w : World) (build_files : gmap string string) (m : Machine) :
  let r := publish_build_files w build_files m in
  (∀ p c, r.1 !! p = Some c →
     c ≠ ""
     ∧ ∃ key, (key, p) ∈ publication ∧ build_files !! key = Some c)
  ∧ ∃ evs, trace r.2 = trace m ++ evs
           ∧ count is_write evs = to_publish build_files
           ∧ map snd (writes evs)
             = map snd (List.filter (λ kp, truthy (build_files !! kp.1))
                          publication).
Proof.
  cbv zeta. unfold publish_build_files.
  match goal with
  | |- context [publish w ?entries ∅ m] =>
      destruct (publish_entries w entries ∅ m) as [Hf (evs & Ht & Hn & Hw)]
  end.
  split.
  - intros p c [Hp|[Hc Hin]]%Hf; [by rewrite lookup_empty in Hp|].
    split; [done|]. unfold publication.
    apply elem_of_cons in Hin as [Hin|Hin].
    { injection Hin as -> Hin. exists "vcpkg.json".
      split; [by left|done]. }
    apply elem_of_cons in Hin as [Hin|Hin].
    { injection Hin as -> Hin. exists "CMakeLists.txt".
      split; [by right; left|done]. }
    apply elem_of_cons in Hin as [Hin|Hin].
    { injection Hin as -> Hin. exists "workflow.yml".
      split; [by right; right; left|done]. }
    by apply elem_of_nil in Hin.
  - exists evs. split; [exact Ht|]. rewrite Hn, Hw.
    unfold to_publish, publication. cbn [List.filter fst snd].
    by destruct (truthy (build_files !! "vcpkg.json")),
      (truthy (build_files !! "CMakeLists.txt")),
      (truthy (build_files !! "workflow.yml")).
Qed.


(** *** A run without the advisor *)

Section Offline.
Variable w : World.
Hypothesis unreachable : ∀ n request, messages_create w n request = None.
Hypothesis writes_succeed :
  ∀ n path content message,
    create_or_update_file w n path content message = true.

Lemma publish_written filename content rest current m :
  nonempty content = true →
  ∃ m',
    publish w ((filename, Some content) :: rest) current m
    = publish w rest (<[filename := content]> current) m'.
Proof.
  intros H. destruct content as [|ch content]; [done|].
  cbn [publish]. run_prims. rewrite writes_succeed. run_prims.
  by eexists.
Qed.

Lemma publish_fallback project_name source_files target m :
  ∃ m',
    publish_build_files w
      (_fallback_generation project_name (_fallback_analysis source_files)
         target) m
    = (fallback_publication project_name source_files target, m').
Proof.
  unfold publish_build_files, fallback_publication.
  set (build_files := _fallback_generation _ _ _).
  assert (∃ v c y,
    build_files !! "vcpkg.json" = Some v
    ∧ build_files !! "CMakeLists.txt" = Some c
    ∧ build_files !! "workflow.yml" = Some y
    ∧ nonempty v = true ∧ nonempty c = true ∧ nonempty y = true)
    as (v & c & y & -> & -> & -> & Hv & Hc & Hy).
  { unfold build_files, _fallback_generation. eexists _, _, _.
    split; [by rewrite !lookup_insert_ne, lookup_insert_eq by done|].
    split; [by rewrite lookup_insert_ne, lookup_insert_eq by done|].
    split; [by rewrite lookup_insert_eq|].
    by repeat split. }
  cbn [default].
  destruct (publish_written "vcpkg.json" v
              [("CMakeLists.txt", Some c);
               (".github/workflows/build.yml", Some y)] ∅ m Hv) as [m1 ->].
  destruct (publish_written "CMakeLists.txt" c
              [(".github/workflows/build.yml", Some y)]
              (<["vcpkg.json" := v]> ∅) m1 Hc) as [m2 ->].
  destruct (publish_written ".github/workflows/build.yml" y []
              (<["CMakeLists.txt" := c]> (<["vcpkg.json" := v]> ∅)) m2 Hy)
    as [m3 ->].
  by exists m3.
Qed.

Lemma emit_returns e m : ∃ m', emit e m = (tt, m').
Proof. by eexists. Qed.

Lemma analysis_offline source_files m :
  ∃ m',
    claude_analyze_code_requirements w source_files m
    = (_fallback_analysis source_files, m').
Proof.
  unfold claude_analyze_code_requirements, bind, interact, ret.
  rewrite unreachable. by eexists.
Qed.

Lemma generation_offline project_name analysis target m :
  ∃ m',
    claude_generate_build_files w project_name analysis target m
    = (_fallback_generation project_name analysis target, m').
Proof.
  unfold claude_generate_build_files, bind, interact, ret.
  rewrite unreachable. by eexists.
Qed.

Lemma run_offline fuel cfg project_name source_files m :
  ∃ m',
    run_claude_automation w fuel cfg project_name source_files m
    = monitor_and_fix_with_claude w fuel cfg
        (fallback_publication project_name source_files (target_os cfg)) m'.
Proof.
  unfold run_claude_automation, log, claude_log.
  destruct (emit_returns
              (Log "Step 2: Claude is analyzing code requirements..." "INFO") m)
    as [m1 E1].
  rewrite (bind_eq _ _ _ _ _ E1).
  destruct (analysis_offline source_files m1) as [m2 E2].
  rewrite (bind_eq _ _ _ _ _ E2).
  do 5 (match goal with
        | |- context [Env.bind (emit ?e) ?k ?m0] =>
            let E := fresh "E" in
            destruct (emit_returns e m0) as [? E];
            rewrite (bind_eq (emit e) k m0 _ _ E); clear E
        end).
  match goal with
  | |- context [Env.bind (claude_generate_build_files w ?n ?a ?t) ?k ?m0] =>
      destruct (generation_offline n a t m0) as [m3 E3];
      rewrite (bind_eq _ k m0 _ _ E3)
  end.
  match goal with
  | |- context [Env.bind (emit ?e) ?k ?m0] =>
      let E := fresh "E" in
      destruct (emit_returns e m0) as [? E];
      rewrite (bind_eq (emit e) k m0 _ _ E); clear E
  end.
  match goal with
  | |- context [Env.bind (publish_build_files w ?bf) ?k ?m0] =>
      destruct (publish_fallback project_name source_files (target_os cfg) m0)
        as [m4 E4];
      rewrite (bind_eq _ k m0 _ _ E4)
  end.
  do 2 (match goal with
        | |- context [Env.bind (emit ?e) ?k ?m0] =>
            let E := fresh "E" in
            destruct (emit_returns e m0) as [? E];
            rewrite (bind_eq (emit e) k m0 _ _ E); clear E
        end).
  by eexists.
Qed.

End Offline.

(** X20.  When every request to the advisor raises and every write
    succeeds, a run publishes the three fallback files (the manifest and
    the build script under their names, the workflow under
    .github/workflows/build.yml), and these are the build files it
    returns, however the builds go. *)
Theorem offline_run_returns_fallback_files
    (w : World) (cfg : Config) (project_name : string)
    (source_files : files_dict) (fuel : nat) (m : Machine) (e : Exit) :
  (∀ n request, messages_create w n request = None) →
  (∀ n path content message,
     create_or_update_file w n path content message = true) →
  let r := run_claude_automation w fuel cfg project_name source_files m in
  final_exit r = Some e →
  final_files r
  = fallback_publication project_name source_files (target_os cfg).
Proof.
  intros Hadvisor Hwrites. cbv zeta.
  destruct (run_offline w Hadvisor Hwrites fuel cfg project_name
              source_files m) as [m' ->].
  unfold final_exit, final_files.
  assert (∀ n request,
    fix_response (json w) (messages_create w n request) = fix_failed) as H
    by (intros; by rewrite Hadvisor).
  pose proof (λ e' files',
    monitor_files w _ (λ f f', f' = f) (λ _, eq_refl) same_files_trans
      (failed_advice_keeps_files w _ H) fuel cfg
      (fallback_publication project_name source_files (target_os cfg)) m'
      e' files' eq_refl) as Hf.
  destruct (monitor_and_fix_with_claude w fuel cfg _ m').1
    as [[e' files']|]; [|done].
  intros _. cbn. by apply (Hf e').
Qed.

Lemma offline_run_returns_fallback_files_witness :
  let r := run_claude_automation unreachable_advisor_world 40 (config 3 300)
             "demo" sources initial in
  final_files r
  = fallback_publication "demo" sources (target_os (config 3 300)).
Proof.
  apply (offline_run_returns_fallback_files unreachable_advisor_world
           (config 3 300) "demo" sources 40 initial LowConfidence).
  - intros n request. reflexivity.
  - intros n path content message. reflexivity.
  - vm_compute. reflexivity.
Defined.


(** *** Polling the status of a run *)

Lemma poll_quiet : requests_only is_poll.
Proof. by intros []. Qed.

Section Polls.
Variable w : World.
Variable max_attempts : Z.

(** Each pass of the polling loop that does not return sleeps ten
    seconds; so the polls left are bounded by the time left. *)
Lemma wait_polls timeout run_id start_time fuel : ∀ m,
  let r := wait_for_completion w fuel timeout run_id start_time m in
  10 * Z.of_nat (count is_poll (trace r.2))
  ≤ 10 * Z.of_nat (count is_poll (trace m))
    + Z.max 0 (timeout - (clock m - start_time) + 10).
Proof.
  induction fuel as [|fuel IH]; intros m; cbv zeta; [cbn; lia|].
  rewrite wait_for_completion_unfold. run_prims.
  destruct (automation_running w (tick m)); run_prims; [|lia].
  destruct (Z.ltb_spec timeout (clock m - start_time)); run_prims.
  { rewrite count_event. cbn [cost is_poll]. lia. }
  destruct (get_is _ "completed"); run_prims.
  { rewrite count_event. cbn [cost is_poll]. lia. }
  match goal with
  | |- context [wait_for_completion w fuel _ _ _ ?m'] =>
      specialize (IH m')
  end.
  cbv zeta in IH. cbn [trace clock] in IH. rewrite !count_event in IH.
  cbn [cost is_poll] in IH. lia.
Qed.

Lemma timed_wait_polls {B} fuel timeout run_id n (k : option unit → M B) :
  (∀ waited, spends is_poll n (k waited)) →
  spends is_poll (Z.to_nat (Z.max 0 (timeout + 10) / 10) + n)
    (let* start_time := time in
     let* waited := wait_for_completion w fuel timeout run_id start_time in
     k waited).
Proof.
  intros Hk m. unfold bind at 1, time. unfold bind.
  pose proof (wait_polls timeout run_id (clock m) fuel m) as Hw.
  cbv zeta in Hw.
  destruct (wait_for_completion w fuel timeout run_id (clock m) m)
    as [waited m1]. cbn [snd] in Hw. specialize (Hk waited m1).
  replace (timeout - (clock m - clock m) + 10) with (timeout + 10) in Hw
    by lia.
  assert (Z.of_nat (count is_poll (trace m1))
          - Z.of_nat (count is_poll (trace m))
          ≤ Z.max 0 (timeout + 10) / 10) as Hq
    by (apply Z.div_le_lower_bound; lia).
  assert (0 ≤ Z.max 0 (timeout + 10) / 10) as Hpos
    by (apply Z.div_pos; lia).
  lia.
Qed.

Lemma monitor_run_polls fuel cfg a files latest_run :
  spends is_poll (Z.to_nat (polls_per_attempt cfg))
    (monitor_run w fuel cfg max_attempts a files latest_run).
Proof.
  assert (Z.to_nat (polls_per_attempt cfg)
          = Nat.add
              (Z.to_nat (Z.max 0 (default 300 (github_timeout cfg) + 10) / 10))
              1) as ->.
  { unfold polls_per_attempt. rewrite Z2Nat.inj_add; [done| |lia].
    apply Z.div_pos; lia. }
  unfold monitor_run. unfold log at 1.
  apply spends_bind_free; [by apply spends_emit|intros _].
  apply spends_bind_free; [spends_auto|intros _].
  apply timed_wait_polls. intros waited.
  destruct waited as [[]|]; [|apply spends_ret].
  apply spends_running_bind; intros i.
  destruct (negb _); [apply spends_ret|].
  unfold github_get_run_status.
  apply (spends_interact_bind_cost w is_poll 1 0); [done|intros j].
  destruct (get_is _ "success"); [spends_auto|].
  destruct (_ || _); [|spends_auto].
  apply spends_bind_free; [|intros r; apply spends_ret].
  apply (spends_remediate w max_attempts is_poll poll_quiet 0 0 0); done.
Qed.

Lemma iteration_polls fuel cfg files :
  spends is_poll (Z.to_nat (polls_per_attempt cfg))
    (iteration w fuel cfg max_attempts files).
Proof.
  unfold iteration. spends_auto. apply monitor_run_polls.
Qed.

End Polls.

(** X21.  At each value of [attempt] a run asks for the status of a CI
    run at most once for every ten seconds of the timeout, once more at
    the start of the polling and once after it, and so, in the whole run,
    at most that many times the attempts it has counted; with the default
    timeout of 300 seconds, at most 32 times at each attempt. *)
Theorem status_polls_are_bounded_by_the_timeout
    (w : World) (cfg : Config) (files : gmap string string) (fuel : nat)
    (m : Machine) :
  let r := monitor_and_fix_with_claude w fuel cfg files m in
  ∃ evs, trace r.2 = trace m ++ evs
    ∧ Z.of_nat (count is_poll evs) ≤ polls_per_attempt cfg * attempt r.2
    ∧ (∀ a, Z.of_nat (count_at is_poll a evs) ≤ polls_per_attempt cfg)
    ∧ polls_per_attempt default_config = 32.
Proof.
  cbv zeta. destruct (monitor_new_events w cfg files fuel m) as [evs Ht].
  exists evs. split; [exact Ht|].
  assert (0 ≤ polls_per_attempt cfg) as Hp.
  { unfold polls_per_attempt.
    assert (0 ≤ Z.max 0 (default 300 (github_timeout cfg) + 10) / 10)
      by (apply Z.div_pos; lia). lia. }
  split; [|split; [|reflexivity]].
  - pose proof (monitor_cost_from_pass w _ cfg is_poll poll_quiet
      (Z.to_nat (polls_per_attempt cfg))
      (λ fuel' files', iteration_polls w _ fuel' cfg files')
      fuel files m eq_refl) as [Ha H1].
    rewrite Ht, count_app in H1.
    rewrite Z2Nat.id in H1 by done. lia.
  - destruct (monitor_cost_at w _ cfg is_poll poll_quiet
                (Z.to_nat (polls_per_attempt cfg))
                (λ fuel' files', iteration_polls w _ fuel' cfg files')
                fuel files m eq_refl) as (evs' & Ht' & Hc).
    rewrite Ht in Ht'. apply app_inv_head in Ht' as <-.
    intros a. specialize (Hc a). lia.
Qed.

End LoopExtras.

(** ** The advisor's deterministic parts, continued *)

Module CoordinatorExtras.
Import Str Re ClaudeCoordinator Spec StrFacts CoordinatorMore Samples.
Import CoordinatorFacts.

Lemma append_assoc (a b c : string) : (a +:+ b) +:+ c = a +:+ b +:+ c.
Proof.
  induction a as [|x a IH]; [reflexivity|]. by rewrite !app_cons, IH.
Qed.

Lemma length_append (a b : string) :
  String.length (a +:+ b) = (String.length a + String.length b)%nat.
Proof.
  induction a as [|x a IH]; [reflexivity|].
  rewrite app_cons. cbn [String.length]. by rewrite IH.
Qed.

(** *** What the extraction returns is part of the text *)

Lemma occurs_in_refl s : occurs_in s s.
Proof. exists "", "". by rewrite app_empty_r. Qed.

Lemma occurs_in_prefix r b : occurs_in r (r +:+ b).
Proof. by exists "", b. Qed.

Lemma occurs_in_suffix a s r : occurs_in r s → occurs_in r (a +:+ s).
Proof.
  intros (x & y & ->). exists (a +:+ x), y. by rewrite append_assoc.
Qed.

Lemma occurs_in_cons c s r : occurs_in r s → occurs_in r (String c s).
Proof. apply (occurs_in_suffix (String c "")). Qed.

Lemma drop_ws_suffix s : ∃ a, s = a +:+ drop_ws s.
Proof.
  induction s as [|c s [a IH]]; [by exists ""|].
  cbn [drop_ws]. destruct (is_space c); [|by exists ""].
  exists (String c a). by rewrite app_cons, <- IH.
Qed.

Lemma lazy_group_prefix s : ∀ g, lazy_group s = Some g → ∃ b, s = g +:+ b.
Proof.
  induction s as [|c s IH]; intros g; rewrite lazy_group_unfold;
    destruct (closes _).
  - intros [= <-]. by exists "".
  - done.
  - intros [= <-]. by exists (String c s).
  - destruct (lazy_group s) as [g'|]; [|done]. cbn. intros [= <-].
    destruct (IH g' eq_refl) as [b ->]. by exists b.
Qed.

Lemma fenced_body_occurs s g : fenced_body s = Some g → occurs_in g s.
Proof.
  unfold fenced_body. intros [b Hb]%lazy_group_prefix.
  destruct (drop_ws_suffix s) as [a Ha]. rewrite Ha, Hb.
  apply occurs_in_suffix, occurs_in_prefix.
Qed.

Lemma slice_from_suffix n : ∀ s, ∃ a, s = a +:+ slice_from n s.
Proof.
  induction n as [|n IH]; intros s; [by exists ""|].
  destruct s as [|c s]; [by exists ""|].
  cbn [slice_from]. destruct (IH s) as [a Ha].
  exists (String c a). by rewrite app_cons, <- Ha.
Qed.

Lemma search_fence_unfold opening text :
  search_fence opening text =
  match
    (if startswith opening text
     then fenced_body (slice_from (String.length opening) text) else None)
  with
  | Some g => Some g
  | None => match text with
            | EmptyString => None
            | String _ t' => search_fence opening t'
            end
  end.
Proof. by destruct text. Qed.

Lemma search_fence_occurs opening text : ∀ g,
  search_fence opening text = Some g → occurs_in g text.
Proof.
  assert (∀ t g,
    (if startswith opening t
     then fenced_body (slice_from (String.length opening) t) else None)
    = Some g → occurs_in g t) as Hhere.
  { intros t g. destruct (startswith opening t); [|done].
    intros Hg%fenced_body_occurs.
    destruct (slice_from_suffix (String.length opening) t) as [a Ha].
    rewrite Ha. by apply occurs_in_suffix. }
  induction text as [|c text IH]; intros g; rewrite search_fence_unfold.
  - specialize (Hhere "" g). by destruct (if startswith opening "" then _ else _).
  - specialize (Hhere (String c text)).
    destruct (if startswith opening (String c text) then _ else _) as [g'|].
    + intros [= <-]. by apply Hhere.
    + intros H. by apply occurs_in_cons, IH.
Qed.

Lemma upto_last_brace_prefix s : ∀ r,
  upto_last_brace s = Some r → ∃ b, s = r +:+ b.
Proof.
  induction s as [|c s IH]; intros r; [done|]. cbn [upto_last_brace].
  destruct (upto_last_brace s) as [r'|].
  - intros [= <-]. destruct (IH r' eq_refl) as [b ->]. by exists b.
  - destruct (Ascii.eqb c "}"); [|done]. intros [= <-]. by exists s.
Qed.

Lemma search_braces_occurs text : ∀ g,
  search_braces text = Some g → occurs_in g text.
Proof.
  induction text as [|c text IH]; intros g; [done|]. cbn [search_braces].
  destruct (Ascii.eqb c "{").
  - destruct (upto_last_brace text) as [r|] eqn:E.
    + intros [= <-]. destruct (upto_last_brace_prefix _ _ E) as [b ->].
      rewrite <- app_cons. apply occurs_in_prefix.
    + intros H. by apply occurs_in_cons, IH.
  - intros H. by apply occurs_in_cons, IH.
Qed.

(** *** A fenced block inside prose *)

Lemma lazy_group_payload_then s w2 post :
  s = "" ∨ tail_ok s → all_space w2 = true →
  lazy_group (s +:+ w2 +:+ "```" +:+ post) = Some s.
Proof.
  intros Hs Hw. induction s as [|c s IH].
  - rewrite lazy_group_unfold.
    assert (closes ("" +:+ w2 +:+ "```" +:+ post) = true) as ->; [|done].
    unfold closes. change ("" +:+ w2 +:+ "```" +:+ post)
      with (w2 +:+ "```" +:+ post).
    by rewrite drop_ws_all_space.
  - destruct Hs as [Hs|Hs]; [discriminate|].
    rewrite lazy_group_unfold, (tail_ok_not_closes _ _ Hs), app_cons.
    rewrite IH; [reflexivity|]. by apply tail_ok_inv in Hs.
Qed.

Lemma fenced_body_payload_then w1 p w2 post :
  object_text p = true → contains "```" p = false →
  all_space w1 = true → all_space w2 = true →
  fenced_body (w1 +:+ p +:+ w2 +:+ "```" +:+ post) = Some p.
Proof.
  intros Hp Hc H1 H2. unfold fenced_body.
  rewrite drop_ws_all_space by done.
  destruct (object_text_tail p Hp Hc) as [Ht [body ->]].
  rewrite app_cons. cbn [drop_ws]. change (is_space "{") with false.
  cbv iota. rewrite <- app_cons. apply lazy_group_payload_then; auto.
Qed.

Lemma no_backquote_inv c s :
  contains "`" (String c s) = false →
  Ascii.eqb "`" c = false ∧ contains "`" s = false.
Proof.
  cbn [contains startswith]. rewrite andb_true_r.
  by intros [? ?]%orb_false_iff.
Qed.

Lemma search_fence_skip_prose opening pre rest :
  (∀ x, startswith opening x = true → startswith "```" x = true) →
  contains "`" pre = false →
  search_fence opening (pre +:+ rest) = search_fence opening rest.
Proof.
  intros Hop. induction pre as [|c pre IH]; [reflexivity|].
  intros [Hc Hpre]%no_backquote_inv. rewrite app_cons.
  rewrite search_fence_cons; [by apply IH|].
  destruct (startswith opening (String c (pre +:+ rest))) eqn:E; [|done].
  apply Hop in E. cbn [startswith] in E. by rewrite Hc in E.
Qed.

(** *** Braces inside prose *)

Lemma search_fence_absent opening :
  (∀ x, startswith opening x = true → startswith "```" x = true) →
  ∀ text, contains "```" text = false → search_fence opening text = None.
Proof.
  intros Hop text. induction text as [|c text IH]; intros Hc;
    rewrite search_fence_unfold.
  - destruct (startswith opening "") eqn:E; [|done].
    apply Hop in E. discriminate.
  - cbn [contains] in Hc. apply orb_false_iff in Hc as [Hs Hc].
    destruct (startswith opening (String c text)) eqn:E.
    + apply Hop in E. congruence.
    + by apply IH.
Qed.

Lemma search_braces_skip pre rest :
  contains "{" pre = false →
  search_braces (pre +:+ rest) = search_braces rest.
Proof.
  induction pre as [|c pre IH]; [reflexivity|].
  cbn [contains startswith]. rewrite andb_true_r.
  intros [Hc Hpre]%orb_false_iff. rewrite app_cons. cbn [search_braces].
  rewrite Ascii.eqb_sym, Hc. by apply IH.
Qed.

Lemma upto_last_brace_none post :
  contains "}" post = false → upto_last_brace post = None.
Proof.
  induction post as [|c post IH]; [done|].
  cbn [contains startswith]. rewrite andb_true_r.
  intros [Hc Hpost]%orb_false_iff. cbn [upto_last_brace].
  by rewrite IH, Ascii.eqb_sym, Hc.
Qed.

Lemma upto_last_brace_closing body post :
  contains "}" post = false →
  upto_last_brace (body +:+ "}" +:+ post) = Some (body +:+ "}").
Proof.
  intros Hpost. induction body as [|c body IH].
  - change ("" +:+ "}" +:+ post) with (String "}" post).
    cbn [upto_last_brace]. by rewrite upto_last_brace_none.
  - rewrite !(app_cons c body). cbn [upto_last_brace]. by rewrite IH.
Qed.

(** *** The fallback analysis *)

Lemma fallback_scan_sources files : ∀ deps srcs,
  (fallback_scan files deps srcs).2
  = srcs ++ List.filter is_translation_unit (map fst files).
Proof.
  induction files as [|[f c] files IH]; intros deps srcs.
  - cbn. by rewrite app_nil_r.
  - cbn [fallback_scan]. rewrite IH. cbn [map List.filter fst].
    unfold is_translation_unit at 2.
    destruct (endswith ".cpp" f || endswith ".cc" f); [|done].
    by rewrite <- app_assoc.
Qed.

Lemma fallback_analysis_sources (files : files_dict) :
  source_files (_fallback_analysis files)
  = Some (List.filter is_translation_unit (map fst files)).
Proof.
  unfold _fallback_analysis.
  pose proof (fallback_scan_sources files ∅ []) as H.
  destruct (fallback_scan files ∅ []) as [deps srcs]. cbn in *.
  by rewrite H.
Qed.

Lemma fallback_analysis_standard (files : files_dict) :
  cpp_standard (_fallback_analysis files) = Some "17".
Proof.
  unfold _fallback_analysis. by destruct (fallback_scan files ∅ []).
Qed.

(** *** Truncation *)

Lemma length_slice_to n : ∀ s, (String.length (slice_to n s) ≤ n)%nat.
Proof.
  induction n as [|n IH]; intros [|c s]; cbn; try lia.
  specialize (IH s). lia.
Qed.

Lemma slice_to_short n : ∀ s, (String.length s ≤ n)%nat → slice_to n s = s.
Proof.
  induction n as [|n IH]; intros [|c s]; cbn; try done; try lia.
  intros H. rewrite IH; [done|lia].
Qed.

Lemma slice_to_long n : ∀ s,
  (n ≤ String.length s)%nat → String.length (slice_to n s) = n.
Proof.
  induction n as [|n IH]; intros [|c s]; cbn; try done; try lia.
  intros H. rewrite IH; [done|lia].
Qed.

Lemma slice_to_app n : ∀ s tail,
  (n ≤ String.length s)%nat → slice_to n (s +:+ tail) = slice_to n s.
Proof.
  induction n as [|n IH]; intros s tail H.
  - by destruct s, tail.
  - destruct s as [|c s]; cbn [String.length] in H; [lia|].
    rewrite app_cons. cbn [slice_to]. rewrite IH; [done|lia].
Qed.

Lemma slice_to_startswith n : ∀ s, startswith (slice_to n s) s = true.
Proof.
  induction n as [|n IH]; intros [|c s]; cbn; try done.
  by rewrite Ascii.eqb_refl, IH.
Qed.

(** What [code_context] takes of one file. *)
Lemma truncated_slice content :
  (if (2000 <? String.length (slice_to 2000 content))%nat
   then slice_to 2000 (slice_to 2000 content) else slice_to 2000 content)
  = (if (2000 <? String.length content)%nat
     then slice_to 2000 content else content).
Proof.
  pose proof (length_slice_to 2000 content) as Hl.
  destruct (Nat.ltb_spec 2000 (String.length (slice_to 2000 content)));
    [lia|].
  destruct (Nat.ltb_spec 2000 (String.length content)); [done|].
  by apply slice_to_short.
Qed.

Lemma code_context_of_truncated files :
  code_context_of (map (λ fc, (fc.1, slice_to 2000 fc.2)) files)
  = code_context_of files.
Proof.
  induction files as [|[f c] files IH]; [done|].
  cbn [map code_context_of fst snd]. by rewrite IH, truncated_slice.
Qed.

Lemma code_context_of_length files :
  (String.length (code_context_of files) ≤ context_bound files)%nat.
Proof.
  induction files as [|[f c] files IH]; [done|].
  cbn [code_context_of context_bound]. rewrite !length_append.
  assert (String.length
            (if (2000 <? String.length c)%nat then slice_to 2000 c else c)
          ≤ 2000)%nat as Hc.
  { destruct (Nat.ltb_spec 2000 (String.length c));
      [apply length_slice_to|done]. }
  change (String.length "=== ") with 4%nat.
  change (String.length " ===") with 4%nat.
  change (String.length nl) with 1%nat.
  change (String.length "...") with 3%nat. lia.
Qed.

(** *** The name in the manifest *)

Lemma manifest_char c :
  let c' := (if Ascii.eqb (lower_char c) " " then "-" else lower_char c)%char in
  Ascii.eqb " " c' = false ∧ is_ascii_upper c' = false.
Proof. destruct c as [[] [] [] [] [] [] [] []]; vm_compute; done. Qed.


(** X7.  Whatever the text, what [_extract_json] returns is a contiguous
    part of it: the extraction cuts, it never adds or changes a
    character. *)
Theorem extract_json_returns_part_of_text (text : string) :
  occurs_in (_extract_json text) text.
Proof.
  unfold _extract_json.
  destruct (search_fence "```json" text) as [g|] eqn:E1;
    [by eapply search_fence_occurs|].
  destruct (search_fence "```" text) as [g|] eqn:E2;
    [by eapply search_fence_occurs|].
  destruct (search_braces text) as [g|] eqn:E3;
    [by apply search_braces_occurs|].
  apply occurs_in_refl.
Qed.

(** X8.  A JSON object in a block fenced with the label json is found
    inside surrounding prose: when the text before the block holds no
    backquote and the object holds no run of three backquotes, the
    extraction returns the object, whatever follows the block. *)
Theorem extract_json_finds_block_in_prose (pre p w1 w2 post : string) :
  contains "`" pre = false →
  object_text p = true → contains "```" p = false →
  all_space w1 = true → all_space w2 = true →
  _extract_json (pre +:+ fenced "json" w1 p w2 +:+ post) = p.
Proof.
  intros Hpre Hp Hc H1 H2. unfold _extract_json, fenced.
  rewrite !append_assoc.
  rewrite (search_fence_skip_prose "```json" pre _ json_opening_fence Hpre).
  change ("```" +:+ "json" +:+ w1 +:+ p +:+ w2 +:+ "```" +:+ post)
    with ("```json" +:+ (w1 +:+ p +:+ w2 +:+ "```" +:+ post)).
  by rewrite (search_fence_at_start _ _ p)
    by by apply fenced_body_payload_then.
Qed.

Lemma extract_json_finds_block_in_prose_witness :
  _extract_json ("Here is the fix:" +:+ nl
                 +:+ fenced "json" nl "{}" nl
                 +:+ nl +:+ "Tell me if `cmake` still fails.")
  = "{}".
Proof.
  exact (extract_json_finds_block_in_prose ("Here is the fix:" +:+ nl)
           "{}" nl nl (nl +:+ "Tell me if `cmake` still fails.")
           eq_refl eq_refl eq_refl eq_refl eq_refl).
Defined.

(** X9.  Without any fence, braces inside prose are taken from the
    first opening brace to the last closing brace of the text. *)
Theorem extract_json_takes_outermost_braces (pre body post : string) :
  contains "```" (pre +:+ "{" +:+ body +:+ "}" +:+ post) = false →
  contains "{" pre = false → contains "}" post = false →
  _extract_json (pre +:+ "{" +:+ body +:+ "}" +:+ post)
  = "{" +:+ body +:+ "}".
Proof.
  intros Hf Hpre Hpost. unfold _extract_json.
  rewrite (search_fence_absent "```json" json_opening_fence _ Hf).
  rewrite (search_fence_absent "```" (λ _ H, H) _ Hf).
  rewrite search_braces_skip by done.
  change ("{" +:+ body +:+ "}" +:+ post)
    with (String "{" (body +:+ "}" +:+ post)).
  cbn [search_braces]. rewrite Ascii.eqb_refl.
  by rewrite upto_last_brace_closing.
Qed.

Lemma extract_json_takes_outermost_braces_witness :
  _extract_json ("Sure: " +:+ "{" +:+ "{}, {}" +:+ "}" +:+ " Done.")
  = "{" +:+ "{}, {}" +:+ "}".
Proof.
  exact (extract_json_takes_outermost_braces "Sure: " "{}, {}" " Done."
           eq_refl eq_refl eq_refl).
Defined.

(** X10.  The source files of the fallback analysis are exactly the file
    names that end in .cpp or .cc, in the order of the dictionary;
    headers and files ending in .c are not among them. *)
Theorem fallback_analysis_lists_translation_units (files : files_dict) :
  source_files (_fallback_analysis files)
  = Some (List.filter is_translation_unit (map fst files)).
Proof.
  apply fallback_analysis_sources.
Qed.

(** X11.  For a project none of whose file names ends in .cpp or .cc (a
    C project, or headers only) the fallback build script names no
    source at all: its last line is add_executable with the project
    name alone. *)
Theorem fallback_build_of_c_project_names_no_source
    (project_name : string) (files : files_dict) (target_os : list string) :
  List.filter is_translation_unit (map fst files) = [] →
  _fallback_generation project_name (_fallback_analysis files) target_os
    !! "CMakeLists.txt"
  = Some ("cmake_minimum_required(VERSION 3.16)" +:+ nl
          +:+ "project(" +:+ project_name +:+ ")" +:+ nl +:+ nl
          +:+ "set(CMAKE_CXX_STANDARD 17)" +:+ nl
          +:+ "set(CMAKE_CXX_STANDARD_REQUIRED ON)" +:+ nl +:+ nl
          +:+ "add_executable(" +:+ project_name +:+ " )" +:+ nl).
Proof.
  intros H. unfold _fallback_generation.
  rewrite lookup_insert_ne by done. rewrite lookup_insert_eq.
  rewrite fallback_analysis_sources.
  rewrite fallback_analysis_standard.
  rewrite H. reflexivity.
Qed.

Lemma fallback_build_of_c_project_names_no_source_witness :
  _fallback_generation "demo" (_fallback_analysis c_project) ["ubuntu"]
    !! "CMakeLists.txt"
  = Some ("cmake_minimum_required(VERSION 3.16)" +:+ nl
          +:+ "project(" +:+ "demo" +:+ ")" +:+ nl +:+ nl
          +:+ "set(CMAKE_CXX_STANDARD 17)" +:+ nl
          +:+ "set(CMAKE_CXX_STANDARD_REQUIRED ON)" +:+ nl +:+ nl
          +:+ "add_executable(" +:+ "demo" +:+ " )" +:+ nl).
Proof.
  exact (fallback_build_of_c_project_names_no_source "demo" c_project
           ["ubuntu"] eq_refl).
Defined.

(** X12.  A fix request built without source files, as the loop builds
    it, carries the first 3000 characters of the error log and nothing of
    what follows them, and at most 500 characters of the manifest and
    1000 of the build script. *)
Theorem fix_request_ignores_log_beyond_3000
    (error_log rest : string) (current_files : gmap string string)
    (attempt : Z) :
  (3000 ≤ String.length error_log)%nat →
  let r := fix_request error_log current_files attempt None in
  fix_request (error_log +:+ rest) current_files attempt None = r
  ∧ String.length (request_error_log r) = 3000%nat
  ∧ (String.length (request_vcpkg r) ≤ 500)%nat
  ∧ (String.length (request_cmake r) ≤ 1000)%nat.
Proof.
  intros H. cbv zeta. unfold fix_request.
  cbn [request_error_log request_vcpkg request_cmake source_context].
  rewrite slice_to_app by done. split; [done|].
  split; [by apply slice_to_long|].
  split; apply length_slice_to.
Qed.

Lemma fix_request_ignores_log_beyond_3000_witness :
  let r := fix_request (dots 3000) ∅ 1 None in
  fix_request (dots 3000 +:+ "main.cpp:1:1: error") ∅ 1 None = r
  ∧ String.length (request_error_log r) = 3000%nat
  ∧ (String.length (request_vcpkg r) ≤ 500)%nat
  ∧ (String.length (request_cmake r) ≤ 1000)%nat.
Proof.
  apply (fix_request_ignores_log_beyond_3000 (dots 3000)
           "main.cpp:1:1: error" ∅ 1).
  vm_compute. apply le_n.
Defined.

(** X13.  The analysis request depends only on the first 2000 characters
    of each file, and its code context has at most 2015 characters for
    each file beside the file names. *)
Theorem analysis_request_sees_2000_characters (files : files_dict) :
  analyze_request (map (λ fc, (fc.1, slice_to 2000 fc.2)) files)
  = analyze_request files
  ∧ (String.length (code_context_of files) ≤ context_bound files)%nat.
Proof.
  split; [|apply code_context_of_length].
  unfold analyze_request. by rewrite code_context_of_truncated.
Qed.

(** X14.  The project name as the fallback manifest holds it, lower-cased
    and with hyphens for its spaces, holds neither a space nor an ASCII
    capital letter. *)
Theorem manifest_name_is_normalised (project_name : string) :
  all_chars (λ c, negb (Ascii.eqb " " c) && negb (is_ascii_upper c))
    (manifest_name project_name) = true.
Proof.
  unfold manifest_name, replace_char, lower.
  induction project_name as [|c s IH]; [done|].
  cbn [map_chars all_chars]. rewrite IH.
  destruct (manifest_char c) as [-> ->]. done.
Qed.

End CoordinatorExtras.

(** ** The repository client *)

Module ClientExtras.
Import Str StrMore GitHubClient StrFacts.

Lemma replace_go_pass old new x : ∀ rest,
  replace_go old new (String.length x) (x +:+ rest) = replace_go old new 0 rest.
Proof.
  induction x as [|c x IH]; intros rest.
  - change ("" +:+ rest) with rest. by destruct rest.
  - rewrite app_cons. cbn [String.length replace_go]. apply IH.
Qed.

(** At an occurrence of [old]. *)
Lemma replace_go_at c old' new rest :
  replace_go (String c old') new 0 (String c old' +:+ rest)
  = new +:+ replace_go (String c old') new 0 rest.
Proof.
  rewrite app_cons at 1. cbn [replace_go].
  rewrite <- app_cons, startswith_app. cbn [String.length Nat.pred].
  by rewrite replace_go_pass.
Qed.

Lemma has_char_app c a b :
  has_char c (a +:+ b) = has_char c a || has_char c b.
Proof.
  induction a as [|x a IH]; [reflexivity|].
  rewrite app_cons. cbn [has_char]. by rewrite IH, orb_assoc.
Qed.

(** Where a character of [old] is missing, [old] does not occur. *)
Lemma replace_go_absent old new c :
  (∀ x, startswith old x = true → has_char c x = true) →
  ∀ s, has_char c s = false → replace_go old new 0 s = s.
Proof.
  intros Hold s. induction s as [|x s IH]; [done|].
  intros Hs. cbn [replace_go].
  destruct (startswith old (String x s)) eqn:E.
  - apply Hold in E. congruence.
  - cbn [has_char] in Hs. apply orb_false_iff in Hs as [_ Hs].
    by rewrite IH.
Qed.

Lemma replace_go_no_new_char old c : ∀ s skip,
  has_char c s = false → has_char c (replace_go old "" skip s) = false.
Proof.
  induction s as [|x s IH]; intros skip Hs; [done|].
  cbn [has_char] in Hs. apply orb_false_iff in Hs as [Hx Hs].
  cbn [replace_go]. destruct skip as [|k]; [|by apply IH].
  destruct (startswith old (String x s)).
  - change ("" +:+ ?r) with r. by apply IH.
  - cbn [has_char]. by rewrite Hx, IH.
Qed.

Lemma address_prefix_has_colon x :
  startswith "https://github.com/" x = true → has_char ":" x = true.
Proof.
  destruct x as [|c1 [|c2 [|c3 [|c4 [|c5 [|c6 x]]]]]]; cbn [startswith];
    rewrite ?andb_false_r; try done.
  intros H. repeat apply andb_true_iff in H as [? H].
  cbn [has_char].
  match goal with
  | H6 : Ascii.eqb ":" c6 = true |- _ => apply Ascii.eqb_eq in H6 as <-
  end.
  by rewrite !orb_true_r.
Qed.

Lemma address_prefix_has_slash x :
  startswith "https://github.com/" x = true → has_char "/" x = true.
Proof.
  destruct x as [|c1 [|c2 [|c3 [|c4 [|c5 [|c6 [|c7 x]]]]]]];
    cbn [startswith]; rewrite ?andb_false_r; try done.
  intros H. repeat apply andb_true_iff in H as [? H].
  cbn [has_char].
  match goal with
  | H7 : Ascii.eqb "/" c7 = true |- _ => apply Ascii.eqb_eq in H7 as <-
  end.
  by rewrite !orb_true_r.
Qed.

(** *** Taking out [.git] *)

Lemma no_git_straddle b rest :
  b ≠ "" → contains ".git" b = false → follows rest = true →
  startswith ".git" (b +:+ rest) = false.
Proof.
  intros Hb Hc Hr.
  destruct b as [|c1 [|c2 [|c3 [|c4 b]]]]; [done|..]; rewrite !app_cons.
  - change ("" +:+ rest) with rest. cbn [startswith].
    destruct rest as [|r0 rest]; [by rewrite andb_false_r|].
    cbn [follows] in Hr. apply andb_true_iff in Hr as [[Hg _]%andb_true_iff _].
    apply negb_true_iff in Hg. by rewrite Hg, andb_false_r.
  - change ("" +:+ rest) with rest. cbn [startswith].
    destruct rest as [|r0 rest]; [by rewrite !andb_false_r|].
    cbn [follows] in Hr. apply andb_true_iff in Hr as [[_ Hi]%andb_true_iff _].
    apply negb_true_iff in Hi. by rewrite Hi, !andb_false_r.
  - change ("" +:+ rest) with rest. cbn [startswith].
    destruct rest as [|r0 rest]; [by rewrite !andb_false_r|].
    cbn [follows] in Hr. apply andb_true_iff in Hr as [_ Ht].
    apply negb_true_iff in Ht. by rewrite Ht, !andb_false_r.
  - cbn [contains] in Hc. apply orb_false_iff in Hc as [Hs _].
    cbn [startswith] in *. by rewrite !andb_true_r in *.
Qed.

Lemma replace_git_keep s rest :
  contains ".git" s = false → follows rest = true →
  replace_go ".git" "" 0 (s +:+ rest) = s +:+ replace_go ".git" "" 0 rest.
Proof.
  intros Hc Hr. induction s as [|c s IH]; [reflexivity|].
  pose proof (no_git_straddle (String c s) rest) as Hn.
  rewrite app_cons in *. cbn [replace_go]. rewrite Hn by done.
  cbn [contains] in Hc. apply orb_false_iff in Hc as [_ Hc].
  by rewrite IH.
Qed.

(** *** Splitting at the slashes *)

Lemma split_no_sep sep s : has_char sep s = false → split sep s = [s].
Proof.
  induction s as [|c s IH]; [done|]. cbn [has_char split].
  intros [-> Hs]%orb_false_iff. by rewrite IH.
Qed.

Lemma split_at_sep sep a b :
  has_char sep a = false →
  split sep (a +:+ String sep b) = a :: split sep b.
Proof.
  induction a as [|c a IH].
  - intros _. change ("" +:+ String sep b) with (String sep b).
    cbn [split]. by rewrite Ascii.eqb_refl.
  - cbn [has_char]. intros [Hc Ha]%orb_false_iff.
    rewrite app_cons. cbn [split]. by rewrite Hc, IH.
Qed.

(** *** Names *)

Lemma name_char_plain c :
  is_name_char c = true →
  Ascii.eqb c "/" = false ∧ Ascii.eqb c ":" = false.
Proof. destruct c as [[] [] [] [] [] [] [] []]; vm_compute; done. Qed.

Lemma name_plain s :
  is_name s = true → has_char "/" s = false ∧ has_char ":" s = false.
Proof.
  induction s as [|c s IH]; [done|]. cbn [is_name has_char].
  intros [Hc Hs]%andb_true_iff.
  destruct (name_char_plain c Hc) as [-> ->]. by apply IH.
Qed.

Lemma plain_name_inv s :
  plain_name s = true →
  has_char "/" s = false ∧ has_char ":" s = false
  ∧ contains ".git" s = false.
Proof.
  unfold plain_name. intros [Hn Hg]%andb_true_iff.
  apply negb_true_iff in Hg. destruct (name_plain s Hn). auto.
Qed.

(** The two replacements on an address without the prefix. *)
Lemma strip_plain_address owner repo suffix :
  plain_name owner = true → plain_name repo = true →
  suffix = "" ∨ suffix = ".git" →
  replace_str ".git" ""
    (replace_str "https://github.com/" "" (owner +:+ "/" +:+ repo +:+ suffix))
  = owner +:+ "/" +:+ repo.
Proof.
  intros (Ho1 & Ho2 & Ho3)%plain_name_inv (Hr1 & Hr2 & Hr3)%plain_name_inv
    Hsuffix.
  unfold replace_str.
  rewrite (replace_go_absent _ _ ":" address_prefix_has_colon).
  2: { rewrite !has_char_app, Ho2, Hr2. by destruct Hsuffix as [->| ->]. }
  rewrite (replace_git_keep owner) by done.
  change ("/" +:+ repo +:+ suffix) with (String "/" (repo +:+ suffix)).
  cbn [replace_go startswith]. change (Ascii.eqb "." "/") with false.
  cbv iota. cbn [andb].
  rewrite (replace_git_keep repo) by (by destruct Hsuffix as [->| ->]).
  destruct Hsuffix as [->| ->]; cbn; by rewrite app_empty_r.
Qed.


Lemma split_plain_address owner repo :
  has_char "/" owner = false → has_char "/" repo = false →
  split "/" (owner +:+ "/" +:+ repo) = [owner; repo].
Proof.
  intros Ho Hr. change ("/" +:+ repo) with (String "/" repo).
  by rewrite split_at_sep, split_no_sep.
Qed.

(** X16.  The constructor of the repository client reads the account and
    the repository back from an address of the form
    https://github.com/OWNER/REPO, with or without the ending .git, and
    from the short form OWNER/REPO, when the two names are made of
    letters, digits, hyphens, underscores and dots and do not themselves
    hold the text .git; the base address of its requests is then
    https://api.github.com/repos/OWNER/REPO. *)
Theorem client_reads_back_owner_and_repo (token owner repo : string) :
  plain_name owner = true → plain_name repo = true →
  __init__ token ("https://github.com/" +:+ owner +:+ "/" +:+ repo)
  = Some (client_of token owner repo)
  ∧ __init__ token ("https://github.com/" +:+ owner +:+ "/" +:+ repo +:+ ".git")
    = Some (client_of token owner repo)
  ∧ __init__ token (owner +:+ "/" +:+ repo)
    = Some (client_of token owner repo).
Proof.
  intros Ho Hr.
  pose proof (strip_plain_address owner repo "" Ho Hr (or_introl eq_refl))
    as E1.
  pose proof (strip_plain_address owner repo ".git" Ho Hr (or_intror eq_refl))
    as E2.
  rewrite app_empty_r in E1.
  destruct (plain_name_inv _ Ho) as (Ho1 & _ & _).
  destruct (plain_name_inv _ Hr) as (Hr1 & _ & _).
  assert (∀ t,
    replace_str "https://github.com/" "" ("https://github.com/" +:+ t)
    = replace_str "https://github.com/" "" t) as Hprefix.
  { intros t. unfold replace_str.
    exact (replace_go_at "h" "ttps://github.com/" "" t). }
  unfold __init__.
  rewrite !Hprefix, E1, E2, split_plain_address by done. done.
Qed.

Lemma client_reads_back_owner_and_repo_witness :
  __init__ "t0" ("https://github.com/" +:+ "kennybix" +:+ "/" +:+ "CI_CD_Agent")
  = Some (client_of "t0" "kennybix" "CI_CD_Agent")
  ∧ __init__ "t0" ("https://github.com/" +:+ "kennybix" +:+ "/"
                   +:+ "CI_CD_Agent" +:+ ".git")
    = Some (client_of "t0" "kennybix" "CI_CD_Agent")
  ∧ __init__ "t0" ("kennybix" +:+ "/" +:+ "CI_CD_Agent")
    = Some (client_of "t0" "kennybix" "CI_CD_Agent").
Proof.
  exact (client_reads_back_owner_and_repo "t0" "kennybix" "CI_CD_Agent"
           eq_refl eq_refl).
Defined.

(** X17.  An address without any slash makes the constructor fail: with
    the prefix and .git taken out there is one part only, and the
    constructor asks for the second. *)
Theorem client_needs_a_slash (token repo_url : string) :
  has_char "/" repo_url = false → __init__ token repo_url = None.
Proof.
  intros H. unfold __init__, replace_str.
  rewrite (replace_go_absent _ _ "/" address_prefix_has_slash) by done.
  rewrite split_no_sep; [done|]. by apply replace_go_no_new_char.
Qed.

Lemma client_needs_a_slash_witness : __init__ "t0" "CI_CD_Agent.git" = None.
Proof. exact (client_needs_a_slash "t0" "CI_CD_Agent.git" eq_refl). Defined.

End ClientExtras.

(** ** Fetching the code files *)

Module FetchExtras.
Import Str ClaudeCoordinator Fetch.

(** *** Only C and C++ files, outside hidden directories *)

Lemma dict_set_Forall (P : string * string → Prop) k v d :
  P (k, v) → Forall P d → Forall P (dict_set k v d).
Proof.
  intros Hkv. induction 1 as [|[k' v'] d Hx Hd IH]; cbn [dict_set].
  - by repeat constructor.
  - destruct (String.eqb_spec k' k) as [->|Hne]; constructor; auto.
Qed.

Section Sound.
Variable r : Repository.

Lemma sound_called c st : allowed r c → sound r st → sound r (called c st).
Proof.
  intros Hc [Hf Hk]. split; [exact Hf|]. cbn [called calls].
  apply Forall_app. split; [exact Hk|by repeat constructor].
Qed.

Lemma for_items_sound rec items : ∀ st st',
  (∀ p s s', open_directory r p → sound r s → rec p s = Some s' → sound r s') →
  (∀ item, item ∈ items → ∃ n dir, item ∈ list_files r n dir) →
  sound r st → for_items r rec items st = Some st' → sound r st'.
Proof.
  induction items as [|item rest IH]; intros st st' Hrec Hitems Hst;
    cbn [for_items].
  { by intros [= <-]. }
  assert (∀ item', item' ∈ rest → ∃ n dir, item' ∈ list_files r n dir)
    as Hrest by (intros ? ?; apply Hitems; by right).
  destruct (Hitems item) as (n & dir & Hin); [by left|].
  destruct (negb (automation_running r (tick st))).
  { by intros [= <-]. }
  assert (sound r (flag_read st)) as Ht by done.
  destruct (String.eqb_spec (type item) "file") as [Hfile|_].
  - destruct (has_code_extension (name item)) eqn:Hext; [|by apply IH].
    assert (listed_code_file r (path item)) as Hl.
    { by exists n, dir, item. }
    assert (sound r (called (GetFile (path item)) (flag_read st))) as Hc
      by by apply sound_called.
    destruct (get_file r (tick (flag_read st)) (path item))
      as [[|ch content]|] eqn:Hget; try by apply IH.
    apply IH; [done..|]. destruct Hc as [Hf Hk]. split.
    + cbn [fetched files]. apply dict_set_Forall; [|exact Hf].
      split; [done|]. split; [exact Hl|]. by eexists.
    + cbn [fetched calls]. apply Forall_app. split; [exact Hk|].
      by repeat constructor.
  - destruct (String.eqb_spec (type item) "dir") as [Hdir|_];
      cbn [andb]; [|by apply IH].
    destruct (startswith "." (name item)) eqn:Hdot; cbn [negb];
      [by apply IH|].
    destruct (rec (path item) (flag_read st)) as [st1|] eqn:E; [|done].
    apply IH; [done..|]. apply (Hrec (path item) (flag_read st)); [|done..].
    right. by exists n, dir, item.
Qed.

Lemma fetch_recursive_sound depth : ∀ p st st',
  open_directory r p → sound r st →
  fetch_recursive r depth p st = Some st' → sound r st'.
Proof.
  induction depth as [|depth IH]; intros p st st' Hp Hst; [done|].
  cbn [fetch_recursive]. apply for_items_sound.
  - exact IH.
  - intros item Hin. by eexists _, _.
  - by apply sound_called.
Qed.

End Sound.

(** *** All of them, when the repository does not change *)

Section Complete.
Variable r : Repository.
Hypothesis r_stable : stable r.

Lemma dict_get_set k v d : dict_get k (dict_set k v d) = Some v.
Proof.
  induction d as [|[k' v'] d IH]; cbn [dict_set dict_get].
  - by rewrite String.eqb_refl.
  - destruct (String.eqb k' k) eqn:E; cbn [dict_get]; by rewrite E.
Qed.

Lemma dict_get_set_other k v d p :
  k ≠ p → dict_get p (dict_set k v d) = dict_get p d.
Proof.
  intros Hne. induction d as [|[k' v'] d IH]; cbn [dict_set dict_get].
  - by destruct (String.eqb_spec k p).
  - destruct (String.eqb_spec k' k) as [->|Hk]; cbn [dict_get].
    + by destruct (String.eqb_spec k p).
    + by rewrite IH.
Qed.

Lemma keeps_refl st : keeps r st st.
Proof. by intros p c. Qed.

Lemma keeps_same st st' : files st' = files st → keeps r st st'.
Proof. intros E p c _. by rewrite E. Qed.

Lemma keeps_trans st1 st2 st3 : keeps r st1 st2 → keeps r st2 st3 → keeps r st1 st3.
Proof. intros H1 H2 p c Hg Hd. by apply H2, H1. Qed.

Lemma keeps_fetched p0 c0 st :
  get_file r 0 p0 = Some c0 → keeps r st (fetched p0 c0 st).
Proof.
  intros H0 p c Hg Hd. cbn [fetched files].
  destruct (decide (p0 = p)) as [->|Hne].
  - rewrite dict_get_set. congruence.
  - by rewrite dict_get_set_other.
Qed.

(** What the loop over the items of a directory leaves in [files]. *)
Lemma for_items_complete rec items : ∀ st st',
  (∀ p s s', rec p s = Some s' →
     keeps r s s' ∧ ∀ d, reach r p d → holds_files_of r (files s') d) →
  for_items r rec items st = Some st' →
  keeps r st st'
  ∧ ∀ item, item ∈ items →
      (∀ content,
         type item = "file" → has_code_extension (name item) = true →
         get_file r 0 (path item) = Some content → content ≠ "" →
         dict_get (path item) (files st') = Some content)
      ∧ (∀ d, type item = "dir" → startswith "." (name item) = false →
              reach r (path item) d → ∀ item' content,
              item' ∈ list_files r 0 d →
              type item' = "file" → has_code_extension (name item') = true →
              get_file r 0 (path item') = Some content → content ≠ "" →
              dict_get (path item') (files st') = Some content).
Proof.
  destruct r_stable as (Hlist & Hget & Hrun).
  induction items as [|item rest IH]; intros st st' Hrec; cbn [for_items].
  { intros [= <-]. split; [apply keeps_refl|]. by intros ? ?%elem_of_nil. }
  rewrite Hrun. cbn [negb].
  (* what remains to be shown once the head item is dealt with *)
  assert (∀ s1,
    keeps r st s1 →
    (∀ content,
       type item = "file" → has_code_extension (name item) = true →
       get_file r 0 (path item) = Some content → content ≠ "" →
       dict_get (path item) (files s1) = Some content) →
    (∀ d, type item = "dir" → startswith "." (name item) = false →
          reach r (path item) d → holds_files_of r (files s1) d) →
    for_items r rec rest s1 = Some st' →
    keeps r st st'
    ∧ ∀ item0, item0 ∈ item :: rest →
        (∀ content,
           type item0 = "file" → has_code_extension (name item0) = true →
           get_file r 0 (path item0) = Some content → content ≠ "" →
           dict_get (path item0) (files st') = Some content)
        ∧ (∀ d, type item0 = "dir" → startswith "." (name item0) = false →
                reach r (path item0) d → ∀ item' content,
                item' ∈ list_files r 0 d →
                type item' = "file" → has_code_extension (name item') = true →
                get_file r 0 (path item') = Some content → content ≠ "" →
                dict_get (path item') (files st') = Some content)) as Hthen.
  { intros s1 Hk Hfile Hdir Hfor.
    destruct (IH s1 st' Hrec Hfor) as [Hk' Hrest].
    split; [by eapply keeps_trans|].
    intros item0 [->|Hin]%elem_of_cons; [|by apply Hrest].
    split.
    - intros content H1 H2 H3 H4. apply Hk'; [done|by apply Hfile].
    - intros d H1 H2 H3 item' content H4 H5 H6 H7 H8.
      apply Hk'; [done|]. by apply (Hdir d H1 H2 H3 item' content). }
  destruct (String.eqb_spec (type item) "file") as [Hfile|Hnofile].
  - assert (type item ≠ "dir") as Hnodir by (rewrite Hfile; done).
    destruct (has_code_extension (name item)) eqn:Hext.
    + rewrite Hget.
      destruct (get_file r 0 (path item)) as [[|ch content]|] eqn:Hc.
      * apply Hthen; [by apply keeps_same| |done].
        intros ? _ _ [= <-]. done.
      * apply Hthen; [|intros ? _ _ [= <-] _; apply dict_get_set|done].
        eapply keeps_trans; [|by apply keeps_fetched].
        by apply keeps_same.
      * apply Hthen; [by apply keeps_same| |done]. by intros ? _ _ [=].
    + apply Hthen; [by apply keeps_same| |done].
      intros ? _ Hext'. congruence.
  - destruct (String.eqb_spec (type item) "dir") as [Hdir|Hnodir];
      cbn [andb].
    2: { apply Hthen; [by apply keeps_same|done|done]. }
    destruct (startswith "." (name item)) eqn:Hdot; cbn [negb].
    { apply Hthen; [by apply keeps_same|done|].
      intros ? _ Hdot'. congruence. }
    destruct (rec (path item) (flag_read st)) as [s1|] eqn:E; [|done].
    destruct (Hrec _ _ _ E) as [Hk Hsub].
    apply Hthen; [|done|].
    + eapply keeps_trans; [|exact Hk]. by apply keeps_same.
    + intros d _ _ Hd. by apply Hsub.
Qed.

Lemma fetch_recursive_complete depth : ∀ p st st',
  fetch_recursive r depth p st = Some st' →
  keeps r st st' ∧ ∀ d, reach r p d → holds_files_of r (files st') d.
Proof.
  induction depth as [|depth IH]; intros p st st'; [done|].
  cbn [fetch_recursive]. intros Hfor.
  destruct (for_items_complete _ _ _ _ IH Hfor) as [Hk Hitems].
  destruct r_stable as (Hlist & _ & _).
  split; [exact Hk|].
  intros d Hd. inversion Hd as [|? item ? Hin Hdir Hdot Hsub]; subst.
  - intros item content Hin H1 H2 H3 H4.
    rewrite <- (Hlist (tick st)) in Hin.
    by apply (proj1 (Hitems item Hin) content).
  - rewrite <- (Hlist (tick st)) in Hin. intros item' content.
    apply (proj2 (Hitems item Hin) d Hdir Hdot Hsub).
Qed.

End Complete.

(** X18.  Whatever the repository answers and whenever the worker is
    stopped, if fetching returns then every entry of its result is the
    non-empty content that a request returned for a file listed with a
    name ending in .cpp, .h, .hpp, .cc or .c; and the worker lists only
    the root and directories listed with a name that does not begin with
    a dot, and requests only such files. *)
Theorem fetch_takes_only_code_files
    (r : Repository) (depth : nat) (st : State) :
  fetch_code_files r depth = Some st →
  Forall (fetched_entry r) (files st) ∧ Forall (allowed r) (calls st).
Proof.
  unfold fetch_code_files. intros H.
  apply (fetch_recursive_sound r depth "" start st); [by left| |exact H].
  by split.
Qed.

Lemma fetch_takes_only_code_files_witness :
  ∃ st, fetch_code_files sample_repository 3 = Some st
        ∧ Forall (fetched_entry sample_repository) (files st)
        ∧ Forall (allowed sample_repository) (calls st).
Proof.
  eexists. split; [vm_compute; reflexivity|].
  apply (fetch_takes_only_code_files sample_repository 3).
  vm_compute. reflexivity.
Defined.

(** X19.  When the repository does not change while it is read and
    nobody stops the worker, a fetch that returns has taken every file
    with a name ending in .cpp, .h, .hpp, .cc or .c and a non-empty
    content, from the root and from every directory reached through
    directories whose names do not begin with a dot. *)
Theorem fetch_takes_every_code_file
    (r : Repository) (depth : nat) (st : State) (dir : string) :
  stable r → fetch_code_files r depth = Some st →
  reach r "" dir → holds_files_of r (files st) dir.
Proof.
  intros Hr H Hd.
  by apply (proj2 (fetch_recursive_complete r Hr depth "" start st H)).
Qed.


Lemma fetch_takes_every_code_file_witness :
  map fst (files sample_state) = ["main.cpp"; "src/util.h"]
  ∧ holds_files_of sample_repository (files sample_state) "src".
Proof.
  split; [vm_compute; reflexivity|].
  apply (fetch_takes_every_code_file sample_repository 3 sample_state "src").
  - by repeat split.
  - vm_compute. reflexivity.
  - apply (reach_down _ "" {| type := "dir"; name := "src"; path := "src" |});
      [|reflexivity|reflexivity|apply reach_here].
    cbn. do 3 right. left.
Defined.

End FetchExtras.
